(** * AT command engine (at.c): a shallow embedding and its properties

    The development follows the C source function by function.  The
    controller [at_obj_t] is a record that is passed through every
    function; the two receive buffers are lists of characters updated
    by index; everything the engine does to the outside world (stores
    into the buffers, transport writes, URC handler calls, semaphore
    operations, debug output) is appended to a log carried by the
    controller, so that properties of those actions can be stated.

    The header at.h is not part of the sources that were available.
    What the code takes from it and cannot be read off the C file is
    a field of the class [at_port]: the list of URC end marks
    [SPEC_URC_END_MARKS], the URC idle timeout [MAX_URC_RECV_TIMEOUT],
    the clock comparison [at_istimeout] and the numbering of the
    result codes. *)

From Stdlib Require Import ZArith Ascii String List Bool Lia.
From stdpp Require Import base list.
Import ListNotations.

Local Open Scope nat_scope.

(** ** C strings *)

Definition NUL : ascii := "000"%char.
Definition CR : ascii := "013"%char.
Definition LF : ascii := "010"%char.

(** A string literal of the C source, as the list of its characters. *)
Definition lit (s : string) : list ascii := list_ascii_of_string s.

(** The C string that starts at the beginning of a memory region: the
    characters before the first NUL. *)
Fixpoint cstr (m : list ascii) : list ascii :=
  match m with
  | [] => []
  | c :: m' => if Ascii.eqb c NUL then [] else c :: cstr m'
  end.

Fixpoint starts_with (p s : list ascii) : bool :=
  match p, s with
  | [], _ => true
  | _ :: _, [] => false
  | a :: p', b :: s' => Ascii.eqb a b && starts_with p' s'
  end.

Fixpoint occurs_in (needle hay : list ascii) {struct hay} : bool :=
  starts_with needle hay ||
  match hay with
  | [] => false
  | _ :: hay' => occurs_in needle hay'
  end.

(** [strstr hay needle] is true when C's strstr returns a non-null
    pointer; the callers only test the result against NULL. *)
Definition strstr (hay needle : list ascii) : bool :=
  occurs_in (cstr needle) (cstr hay).

(** [strchr s ch] is true when C's strchr returns a non-null pointer.
    The terminating NUL counts as part of the string, so looking for
    NUL always succeeds. *)
Definition strchr (s : list ascii) (ch : ascii) : bool :=
  existsb (Ascii.eqb ch) (cstr s) || Ascii.eqb ch NUL.

(** ** Data model *)

Inductive at_return : Set :=
| AT_RET_OK
| AT_RET_ERROR
| AT_RET_TIMEOUT
| AT_RET_ABORT.

(** An entry of the URC table.  The handler is a callback of the
    application; it is identified by a number and its calls are logged. *)
Record urc_item_t : Set := {
  prefix : list ascii;
  end_mark : list ascii;
  handler : nat
}.

(** The response description of one command.  [recvbuf] is the memory
    the caller lends to the engine, [bufsize] its declared capacity. *)
Record at_respond_t : Set := {
  matcher : list ascii;
  recvbuf : list ascii;
  bufsize : nat;
  timeout : Z
}.

Inductive at_sem : Set := send_lock | recv_lock | completed.

Inductive at_buf : Set := URC_BUF | RECV_BUF.

(** Actions of the engine that are visible from outside. *)
Inductive event : Set :=
| EvStore (b : at_buf) (i : nat)
    (* a store into cell [i] of a receive buffer *)
| EvWrite (data : list ascii)
    (* adap.write(data, len) *)
| EvDebug
    (* adap.debug(...) *)
| EvUrc (it : urc_item_t) (line : list ascii) (size : nat)
    (* it->handler(&context), with the buffer and the received size *)
| EvTake (s : at_sem) (bound : Z)
    (* at_sem_wait(s, bound) that returned true *)
| EvGive (s : at_sem).
    (* at_sem_post(s) *)

(** The controller.  [utc_tbl], [urc_buf] and [urc_bufsize] are the
    fields of the adapter the code reads ([urc_tbl_count] is the length
    of the table); [rcv_buf] is the memory [resp->recvbuf] points to
    while a response is awaited.  The two fill counts are natural
    numbers (their C types are declared in at.h), the timers are
    readings of the millisecond clock.  [log] holds the events, latest
    first. *)
Record at_obj_t : Set := {
  utc_tbl : list urc_item_t;
  urc_bufsize : nat;
  urc_buf : list ascii;
  urc_cnt : nat;
  urc_item : option urc_item_t;
  urc_timer : Z;
  resp : option at_respond_t;
  rcv_buf : list ascii;
  rcv_cnt : nat;
  resp_timer : Z;
  ret : at_return;
  busy : bool;
  suspend : bool;
  log : list event
}.

Definition set_urc_buf (v : list ascii) (o : at_obj_t) : at_obj_t :=
  {| utc_tbl := utc_tbl o; urc_bufsize := urc_bufsize o; urc_buf := v;
     urc_cnt := urc_cnt o; urc_item := urc_item o; urc_timer := urc_timer o;
     resp := resp o; rcv_buf := rcv_buf o; rcv_cnt := rcv_cnt o;
     resp_timer := resp_timer o; ret := ret o; busy := busy o;
     suspend := suspend o; log := log o |}.

Definition set_urc_cnt (v : nat) (o : at_obj_t) : at_obj_t :=
  {| utc_tbl := utc_tbl o; urc_bufsize := urc_bufsize o; urc_buf := urc_buf o;
     urc_cnt := v; urc_item := urc_item o; urc_timer := urc_timer o;
     resp := resp o; rcv_buf := rcv_buf o; rcv_cnt := rcv_cnt o;
     resp_timer := resp_timer o; ret := ret o; busy := busy o;
     suspend := suspend o; log := log o |}.

Definition set_urc_item (v : option urc_item_t) (o : at_obj_t) : at_obj_t :=
  {| utc_tbl := utc_tbl o; urc_bufsize := urc_bufsize o; urc_buf := urc_buf o;
     urc_cnt := urc_cnt o; urc_item := v; urc_timer := urc_timer o;
     resp := resp o; rcv_buf := rcv_buf o; rcv_cnt := rcv_cnt o;
     resp_timer := resp_timer o; ret := ret o; busy := busy o;
     suspend := suspend o; log := log o |}.

Definition set_urc_timer (v : Z) (o : at_obj_t) : at_obj_t :=
  {| utc_tbl := utc_tbl o; urc_bufsize := urc_bufsize o; urc_buf := urc_buf o;
     urc_cnt := urc_cnt o; urc_item := urc_item o; urc_timer := v;
     resp := resp o; rcv_buf := rcv_buf o; rcv_cnt := rcv_cnt o;
     resp_timer := resp_timer o; ret := ret o; busy := busy o;
     suspend := suspend o; log := log o |}.

Definition set_resp (v : option at_respond_t) (o : at_obj_t) : at_obj_t :=
  {| utc_tbl := utc_tbl o; urc_bufsize := urc_bufsize o; urc_buf := urc_buf o;
     urc_cnt := urc_cnt o; urc_item := urc_item o; urc_timer := urc_timer o;
     resp := v; rcv_buf := rcv_buf o; rcv_cnt := rcv_cnt o;
     resp_timer := resp_timer o; ret := ret o; busy := busy o;
     suspend := suspend o; log := log o |}.

Definition set_rcv_buf (v : list ascii) (o : at_obj_t) : at_obj_t :=
  {| utc_tbl := utc_tbl o; urc_bufsize := urc_bufsize o; urc_buf := urc_buf o;
     urc_cnt := urc_cnt o; urc_item := urc_item o; urc_timer := urc_timer o;
     resp := resp o; rcv_buf := v; rcv_cnt := rcv_cnt o;
     resp_timer := resp_timer o; ret := ret o; busy := busy o;
     suspend := suspend o; log := log o |}.

Definition set_rcv_cnt (v : nat) (o : at_obj_t) : at_obj_t :=
  {| utc_tbl := utc_tbl o; urc_bufsize := urc_bufsize o; urc_buf := urc_buf o;
     urc_cnt := urc_cnt o; urc_item := urc_item o; urc_timer := urc_timer o;
     resp := resp o; rcv_buf := rcv_buf o; rcv_cnt := v;
     resp_timer := resp_timer o; ret := ret o; busy := busy o;
     suspend := suspend o; log := log o |}.

Definition set_resp_timer (v : Z) (o : at_obj_t) : at_obj_t :=
  {| utc_tbl := utc_tbl o; urc_bufsize := urc_bufsize o; urc_buf := urc_buf o;
     urc_cnt := urc_cnt o; urc_item := urc_item o; urc_timer := urc_timer o;
     resp := resp o; rcv_buf := rcv_buf o; rcv_cnt := rcv_cnt o;
     resp_timer := v; ret := ret o; busy := busy o;
     suspend := suspend o; log := log o |}.

Definition set_ret (v : at_return) (o : at_obj_t) : at_obj_t :=
  {| utc_tbl := utc_tbl o; urc_bufsize := urc_bufsize o; urc_buf := urc_buf o;
     urc_cnt := urc_cnt o; urc_item := urc_item o; urc_timer := urc_timer o;
     resp := resp o; rcv_buf := rcv_buf o; rcv_cnt := rcv_cnt o;
     resp_timer := resp_timer o; ret := v; busy := busy o;
     suspend := suspend o; log := log o |}.

Definition set_busy (v : bool) (o : at_obj_t) : at_obj_t :=
  {| utc_tbl := utc_tbl o; urc_bufsize := urc_bufsize o; urc_buf := urc_buf o;
     urc_cnt := urc_cnt o; urc_item := urc_item o; urc_timer := urc_timer o;
     resp := resp o; rcv_buf := rcv_buf o; rcv_cnt := rcv_cnt o;
     resp_timer := resp_timer o; ret := ret o; busy := v;
     suspend := suspend o; log := log o |}.

Definition set_suspend (v : bool) (o : at_obj_t) : at_obj_t :=
  {| utc_tbl := utc_tbl o; urc_bufsize := urc_bufsize o; urc_buf := urc_buf o;
     urc_cnt := urc_cnt o; urc_item := urc_item o; urc_timer := urc_timer o;
     resp := resp o; rcv_buf := rcv_buf o; rcv_cnt := rcv_cnt o;
     resp_timer := resp_timer o; ret := ret o; busy := busy o;
     suspend := v; log := log o |}.

Definition emit (e : event) (o : at_obj_t) : at_obj_t :=
  {| utc_tbl := utc_tbl o; urc_bufsize := urc_bufsize o; urc_buf := urc_buf o;
     urc_cnt := urc_cnt o; urc_item := urc_item o; urc_timer := urc_timer o;
     resp := resp o; rcv_buf := rcv_buf o; rcv_cnt := rcv_cnt o;
     resp_timer := resp_timer o; ret := ret o; busy := busy o;
     suspend := suspend o; log := e :: log o |}.

(** A store [urc_buf[i] = c].  A store at or beyond the end of the
    memory is undefined in C; here it is logged like every store and
    leaves the memory as it is. *)
Definition store_urc (i : nat) (c : ascii) (o : at_obj_t) : at_obj_t :=
  emit (EvStore URC_BUF i) (set_urc_buf (<[i:=c]> (urc_buf o)) o).

(** A store [rcv_buf[i] = c]. *)
Definition store_rcv (i : nat) (c : ascii) (o : at_obj_t) : at_obj_t :=
  emit (EvStore RECV_BUF i) (set_rcv_buf (<[i:=c]> (rcv_buf o)) o).

(** [memcpy(rcv_buf + i, buf, size)], one store per byte. *)
Fixpoint memcpy_rcv (i : nat) (buf : list ascii) (o : at_obj_t) : at_obj_t :=
  match buf with
  | [] => o
  | c :: buf' => memcpy_rcv (S i) buf' (store_rcv i c o)
  end.

(** The events in the order they happened. *)
Definition trace (o : at_obj_t) : list event := rev (log o).

(** ** What the engine takes from at.h *)

(** The characters after which the URC table is consulted, the idle
    time after which a partial URC line is dropped, the clock
    comparison ([at_istimeout now start t] is the value of
    [at_istimeout(start, t)] when the millisecond clock reads [now])
    and the integer values of the result codes. *)
Class at_port : Type := {
  SPEC_URC_END_MARKS : list ascii;
  MAX_URC_RECV_TIMEOUT : Z;
  at_istimeout : Z -> Z -> Z -> bool;
  at_return_int : at_return -> Z
}.

(** ** The engine *)

Section Engine.

Context {port : at_port}.

Definition MAX_AT_LOCK_TIME : Z := 60 * 1000.

(** *** Transport output *)

Fixpoint put_string (s : list ascii) (o : at_obj_t) : at_obj_t :=
  match s with
  | [] => o
  | c :: s' => put_string s' (emit (EvWrite [c]) o)
  end.

Definition put_line (s : list ascii) (o : at_obj_t) : at_obj_t :=
  emit EvDebug (put_string [CR; LF] (put_string (cstr s) o)).

(** *** URC reception *)

Fixpoint find_urc_scan (tbl : list urc_item_t) (urc_buf : list ascii)
  : option urc_item_t :=
  match tbl with
  | [] => None
  | it :: tbl' =>
      if strstr urc_buf (prefix it) then Some it
      else find_urc_scan tbl' urc_buf
  end.

Definition find_urc_item (o : at_obj_t) (urc_buf : list ascii) (size : nat)
  : option urc_item_t :=
  if size <? 2 then None else find_urc_scan (utc_tbl o) urc_buf.

(** The handler of the matched entry is called with the buffer and the
    number of received bytes; the call is logged with the bytes the
    handler is given.  The handler works on its context, not on the
    controller. *)
Definition urc_handler_entry (it : urc_item_t) (urcline : list ascii)
  (size : nat) (o : at_obj_t) : at_obj_t :=
  emit (EvUrc it (take size urcline) size) (emit EvDebug o).

(** The idle timeout at the head of [urc_recv_process]. *)
Definition urc_recv_timeout (now : Z) (o : at_obj_t) : at_obj_t :=
  if (0 <? urc_cnt o) && at_istimeout now (urc_timer o) MAX_URC_RECV_TIMEOUT
  then
    let o := store_urc (urc_cnt o) NUL o in
    let o := if 2 <? urc_cnt o then emit EvDebug o else o in
    set_urc_item None (set_urc_cnt 0 o)
  else o.

(** The body of the loop of [urc_recv_process], for one character. *)
Definition urc_recv_char (now : Z) (o : at_obj_t) (ch : ascii) : at_obj_t :=
  let o := set_urc_timer now o in
  let o := set_urc_cnt (S (urc_cnt o)) (store_urc (urc_cnt o) ch o) in
  if strchr SPEC_URC_END_MARKS ch || Ascii.eqb ch NUL then
    let o := store_urc (urc_cnt o) NUL o in
    let o :=
      match urc_item o with
      | None => set_urc_item (find_urc_item o (urc_buf o) (urc_cnt o)) o
      | Some _ => o
      end in
    match urc_item o with
    | Some it =>
        if strchr (end_mark it) ch then
          let o := urc_handler_entry it (urc_buf o) (urc_cnt o) o in
          set_urc_item None (set_urc_cnt 0 o)
        else o
    | None =>
        if Ascii.eqb ch CR || Ascii.eqb ch LF || Ascii.eqb ch NUL then
          let o :=
            if (2 <? urc_cnt o) && negb (busy o) then emit EvDebug o else o in
          set_urc_cnt 0 o
        else o
    end
  else if urc_bufsize o <=? urc_cnt o then
    set_urc_item None (set_urc_cnt 0 o)
  else o.

(** [urc_recv_process(at, buf, size)]; [buf] holds the [size] bytes and
    [now] is the reading of the clock during the call. *)
Definition urc_recv_process (o : at_obj_t) (now : Z) (buf : list ascii)
  : at_obj_t :=
  fold_left (urc_recv_char now) buf (urc_recv_timeout now o).

(** *** Response reception *)

Definition resp_notification (r : at_return) (o : at_obj_t) : at_obj_t :=
  emit (EvGive completed) (set_resp None (set_ret r o)).

(** The first half of [resp_recv_process]: the chunk is stored behind
    what was received so far, after the fill count was reset when the
    chunk does not fit. *)
Definition resp_append (r : at_respond_t) (buf : list ascii) (o : at_obj_t)
  : at_obj_t :=
  let size := length buf in
  let o :=
    if bufsize r <=? rcv_cnt o + size
    then emit EvDebug (set_rcv_cnt 0 o) else o in
  let o := memcpy_rcv (rcv_cnt o) buf o in
  let o := set_rcv_cnt (rcv_cnt o + size) o in
  store_rcv (rcv_cnt o) NUL o.

(** The last part of [resp_recv_process]: timeout and suspension. *)
Definition resp_poll (r : at_respond_t) (now : Z) (o : at_obj_t) : at_obj_t :=
  if at_istimeout now (resp_timer o) (timeout r)
  then resp_notification AT_RET_TIMEOUT o
  else if suspend o then resp_notification AT_RET_ABORT o
  else o.

Definition resp_recv_process (o : at_obj_t) (now : Z) (buf : list ascii)
  : at_obj_t :=
  match resp o with
  | None => o
  | Some r =>
      if 0 <? length buf then
        let o := resp_append r buf o in
        if strstr (rcv_buf o) (matcher r) then
          resp_notification AT_RET_OK o
        else if strstr (rcv_buf o) (lit "ERROR") then
          resp_notification AT_RET_ERROR o
        else resp_poll r now o
      else resp_poll r now o
  end.

Definition at_obj_busy (o : at_obj_t) (now : Z) : bool :=
  negb (busy o) && at_istimeout now (urc_timer o) 2000.

Definition at_suspend (o : at_obj_t) : at_obj_t := set_suspend true o.

Definition at_resume (o : at_obj_t) : at_obj_t := set_suspend false o.

(** *** The background reader *)

(** The loop of [at_process].  [rx] lists the bytes the transport
    delivers to the successive one-byte reads, each with the reading of
    the clock when it is processed; the read after the last of them
    returns 0, the body runs once more with no data at time [t_end],
    and the loop ends. *)
Fixpoint at_process_loop (o : at_obj_t) (rx : list (Z * ascii)) (t_end : Z)
  : at_obj_t :=
  match rx with
  | [] =>
      let o := urc_recv_process o t_end [] in
      resp_recv_process o t_end []
  | (t, c) :: rx' =>
      let o := urc_recv_process o t [c] in
      let o := resp_recv_process o t [c] in
      at_process_loop o rx' t_end
  end.

(** One call of [at_process]: [rp_lock] tells whether the receive lock
    was obtained within [MAX_AT_LOCK_TIME]. *)
Record reader_pass : Set := {
  rp_lock : bool;
  rp_rx : list (Z * ascii);
  rp_end : Z
}.

Definition at_process (o : at_obj_t) (p : reader_pass) : at_obj_t :=
  if rp_lock p then
    let o := emit (EvTake recv_lock MAX_AT_LOCK_TIME) o in
    let o := at_process_loop o (rp_rx p) (rp_end p) in
    emit (EvGive recv_lock) o
  else o.

(** *** Semaphore accounting *)

Definition at_sem_eqb (s1 s2 : at_sem) : bool :=
  match s1, s2 with
  | send_lock, send_lock | recv_lock, recv_lock | completed, completed => true
  | _, _ => false
  end.

Definition is_take (s : at_sem) (e : event) : bool :=
  match e with EvTake s' _ => at_sem_eqb s s' | _ => false end.

Definition is_give (s : at_sem) (e : event) : bool :=
  match e with EvGive s' => at_sem_eqb s s' | _ => false end.

Fixpoint count_ev (p : event -> bool) (l : list event) : nat :=
  match l with
  | [] => 0
  | e :: l' => (if p e then 1 else 0) + count_ev p l'
  end.

(** How often [s] was taken and given so far. *)
Definition takes (s : at_sem) (o : at_obj_t) : nat := count_ev (is_take s) (log o).
Definition gives (s : at_sem) (o : at_obj_t) : nat := count_ev (is_give s) (log o).

(** How often the completion signal was posted so far. *)
Definition posts (o : at_obj_t) : nat := gives completed o.

(** *** Command execution *)

(** [at_sem_wait(at->completed, r->timeout)] in [wait_resp].  While the
    caller is blocked only the background reader works on the
    controller: [passes] are its calls of [at_process] before the bound
    of the wait expires.  The wait succeeds with the first call in
    which the signal is posted, and fails when there is none. *)
Fixpoint await_completed (o : at_obj_t) (passes : list reader_pass)
  : bool * at_obj_t :=
  match passes with
  | [] => (false, o)
  | p :: ps =>
      let o' := at_process o p in
      if posts o <? posts o' then (true, o') else await_completed o' ps
  end.

Definition wait_resp (o : at_obj_t) (r : at_respond_t) (now : Z)
  (passes : list reader_pass) : at_return * at_obj_t :=
  let o := set_ret AT_RET_TIMEOUT o in
  let o := set_resp_timer now o in
  let o := set_rcv_cnt 0 o in
  let o := set_rcv_buf (recvbuf r) (set_resp (Some r) o) in
  let '(ok, o) := await_completed o passes in
  let o := if ok then emit (EvTake completed (timeout r)) o else o in
  let o := emit EvDebug o in
  let o := set_resp None o in
  (ret o, o).

(** [while (at->urc_cnt) at_delay(10);] in [at_do_cmd].  The count is
    changed by the background reader only; [passes] are its calls
    during the delays.  When they are used up and the count is still
    not zero the loop does not end. *)
Fixpoint await_urc_idle (o : at_obj_t) (passes : list reader_pass)
  : option at_obj_t :=
  if urc_cnt o =? 0 then Some o
  else
    match passes with
    | [] => None
    | p :: ps => await_urc_idle (at_process o p) ps
    end.

(** What the rest of the system does during one call of [at_do_cmd]:
    whether the send lock is obtained within the bound, the reader
    calls while the URC session drains, the clock when the response is
    armed, and the reader calls while the caller waits for completion. *)
Record cmd_env : Set := {
  ce_send_lock : bool;
  ce_idle : list reader_pass;
  ce_now : Z;
  ce_reply : list reader_pass
}.

(** [default_resp] of [at_do_cmd]; the 64 bytes of [defbuf] are not
    initialised in C and the engine stores into them before it reads. *)
Definition default_resp : at_respond_t :=
  {| matcher := lit "OK"; recvbuf := repeat NUL 64; bufsize := 64;
     timeout := 5000 |}.

Definition at_do_cmd (o : at_obj_t) (r : option at_respond_t)
  (cmd : list ascii) (env : cmd_env) : option (at_return * at_obj_t) :=
  let r := match r with None => default_resp | Some r => r end in
  if negb (ce_send_lock env) then Some (AT_RET_TIMEOUT, o)
  else
    let o := emit (EvTake send_lock (timeout r)) o in
    let o := set_busy true o in
    match await_urc_idle o (ce_idle env) with
    | None => None
    | Some o =>
        let o := put_line cmd o in
        let '(res, o) := wait_resp o r (ce_now env) (ce_reply env) in
        let o := emit (EvGive send_lock) o in
        let o := set_busy false o in
        Some (res, o)
    end.

(** *** Work sessions *)

(** The read, write and print operations bound into [at_work_ctx_t].
    [avail] are the bytes the transport has for the read; [line] is
    the text of the line after formatting. *)
Definition at_work_read (o : at_obj_t) (now : Z) (len : nat)
  (avail : list ascii) : list ascii * at_obj_t :=
  let data := take len avail in
  (data, urc_recv_process o now data).

Definition at_work_write (o : at_obj_t) (data : list ascii)
  : nat * at_obj_t :=
  (length data, emit (EvWrite data) o).

Definition at_work_print (o : at_obj_t) (line : list ascii) : at_obj_t :=
  put_line line o.

(** A work function, applied to its context: it acts on the controller
    behind the context and returns an integer. *)
Definition at_work : Set := at_obj_t -> Z * at_obj_t.

(** [at_do_work]; [send_ok] and [recv_ok] tell whether the two locks
    are obtained within [MAX_AT_LOCK_TIME]. *)
Definition at_do_work (o : at_obj_t) (work : at_work) (send_ok recv_ok : bool)
  : Z * at_obj_t :=
  if negb send_ok then (at_return_int AT_RET_TIMEOUT, o)
  else
    let o := emit (EvTake send_lock MAX_AT_LOCK_TIME) o in
    if negb recv_ok then (at_return_int AT_RET_TIMEOUT, o)
    else
      let o := emit (EvTake recv_lock MAX_AT_LOCK_TIME) o in
      let o := set_busy true o in
      let o := set_rcv_cnt 0 o in
      let '(res, o) := work o in
      let o := emit (EvGive recv_lock) o in
      let o := emit (EvGive send_lock) o in
      let o := set_busy false o in
      (res, o).

End Engine.

(** ** The response tokenizer *)

(** [int] and [size_t] are 32 bits wide on the Cortex-M target; the
    comparison [i < count] converts [count] to [size_t]. *)
Definition size_t_of_int (n : Z) : Z := (n mod 2 ^ 32)%Z.

(** The loop of [at_split_respond_lines].  [rest] are the characters
    from [s] on, [pos] is the offset of [s] in the buffer; a pointer
    into the buffer is represented by its offset. *)
Fixpoint split_loop (rest : list ascii) (pos i : nat) (count : Z)
  (buf : list ascii) (lines : list nat) : nat * list ascii * list nat :=
  match rest with
  | [] => (i, buf, lines)
  | c :: rest' =>
      if Ascii.eqb c NUL then (i, buf, lines)
      else if negb (Z.of_nat i <? size_t_of_int count)%Z then (i, buf, lines)
      else if Ascii.eqb c ","%char then
        split_loop rest' (S pos) (S i) count
          (<[pos:=NUL]> buf) (<[i:=S pos]> lines)
      else split_loop rest' (S pos) i count buf lines
  end.

(** [None] is the null pointer, for the buffer and for the array. *)
Definition at_split_respond_lines (recvbuf : option (list ascii))
  (lines : option (list nat)) (count : Z) (separator : ascii)
  : Z * option (list ascii) * option (list nat) :=
  match recvbuf, lines with
  | Some buf, Some ln =>
      let '(i, buf', ln') := split_loop buf 0 1 count buf (<[0:=0]> ln) in
      (Z.of_nat i, Some buf', Some ln')
  | _, _ => (0%Z, recvbuf, lines)
  end.

(** ** Observations on the log *)

(** The calls of URC handlers recorded in a log, latest first. *)
Fixpoint urc_calls_of (l : list event) : list (urc_item_t * list ascii * nat) :=
  match l with
  | [] => []
  | EvUrc it line n :: l' => (it, line, n) :: urc_calls_of l'
  | _ :: l' => urc_calls_of l'
  end.

Definition urc_calls (o : at_obj_t) : list (urc_item_t * list ascii * nat) :=
  urc_calls_of (log o).

(** The cells of buffer [b] that were stored into, latest first. *)
Fixpoint stores_of (b : at_buf) (l : list event) : list nat :=
  match l with
  | [] => []
  | EvStore b' i :: l' =>
      match b, b' with
      | URC_BUF, URC_BUF | RECV_BUF, RECV_BUF => i :: stores_of b l'
      | _, _ => stores_of b l'
      end
  | _ :: l' => stores_of b l'
  end.

Definition stores (b : at_buf) (o : at_obj_t) : list nat := stores_of b (log o).

(** What the URC side and the response side of the receive path may
    add to the log. *)
Definition urc_side (e : event) : bool :=
  match e with
  | EvStore URC_BUF _ | EvDebug | EvUrc _ _ _ => true
  | _ => false
  end.

Definition resp_side (e : event) : bool :=
  match e with
  | EvStore RECV_BUF _ | EvDebug | EvGive completed => true
  | _ => false
  end.

(** [extends P l l']: the log [l'] is [l] with events of kind [P] added. *)
Inductive extends (P : event -> bool) (l : list event) : list event -> Prop :=
| ext_same : extends P l l
| ext_cons e l' : P e = true -> extends P l l' -> extends P l (e :: l').

(** The part of the controller the URC side leaves alone, and the part
    the response side leaves alone. *)
Record urc_frame (o o' : at_obj_t) : Prop := {
  uf_tbl : utc_tbl o' = utc_tbl o;
  uf_bufsize : urc_bufsize o' = urc_bufsize o;
  uf_len : length (urc_buf o') = length (urc_buf o);
  uf_resp : resp o' = resp o;
  uf_rcv_buf : rcv_buf o' = rcv_buf o;
  uf_rcv_cnt : rcv_cnt o' = rcv_cnt o;
  uf_resp_timer : resp_timer o' = resp_timer o;
  uf_ret : ret o' = ret o;
  uf_busy : busy o' = busy o;
  uf_suspend : suspend o' = suspend o;
  uf_log : extends urc_side (log o) (log o')
}.

Record resp_frame (o o' : at_obj_t) : Prop := {
  rf_tbl : utc_tbl o' = utc_tbl o;
  rf_bufsize : urc_bufsize o' = urc_bufsize o;
  rf_urc_buf : urc_buf o' = urc_buf o;
  rf_urc_cnt : urc_cnt o' = urc_cnt o;
  rf_urc_item : urc_item o' = urc_item o;
  rf_urc_timer : urc_timer o' = urc_timer o;
  rf_len : length (rcv_buf o') = length (rcv_buf o);
  rf_resp_timer : resp_timer o' = resp_timer o;
  rf_busy : busy o' = busy o;
  rf_suspend : suspend o' = suspend o;
  rf_log : extends resp_side (log o) (log o')
}.

(** One step of the receive path either posts nothing and keeps the
    active response spec and the recorded outcome, or posts once and
    clears the spec. *)
Definition one_post (o o' : at_obj_t) : Prop :=
  (posts o' = posts o /\ resp o' = resp o /\ ret o' = ret o) \/
  (posts o' = S (posts o) /\ resp o' = None /\ resp o <> None).

(** ** Views of the buffers *)

(** The response text the matcher looks at after a chunk was appended:
    what was received before, unless the fill count had to be reset,
    followed by the chunk. *)
Definition resp_text (r : at_respond_t) (buf : list ascii) (o : at_obj_t)
  : list ascii :=
  (if bufsize r <=? rcv_cnt o + length buf then []
   else take (rcv_cnt o) (rcv_buf o)) ++ buf.

(** The text [t] is what the URC buffer holds: the fill count is its
    length and the buffer starts with it. *)
Definition urc_holds (o : at_obj_t) (t : list ascii) : Prop :=
  urc_cnt o = length t /\ take (length t) (urc_buf o) = t.

(** A character that ends a line for [urc_recv_char] whatever the port. *)
Definition line_end (ch : ascii) : bool :=
  Ascii.eqb ch CR || Ascii.eqb ch LF || Ascii.eqb ch NUL.

(** A URC table entry is matched only when at least two bytes have
    been received, and handlers were only called with at least two. *)
Definition urc_two_bytes (o : at_obj_t) : Prop :=
  (urc_item o = None \/ 2 <= urc_cnt o)
  /\ Forall (fun call => 2 <= snd call) (urc_calls o).

(** The number of fields a comma-separated line has. *)
Fixpoint commas (s : list ascii) : nat :=
  match s with
  | [] => 0
  | c :: s' => (if Ascii.eqb c ","%char then 1 else 0) + commas s'
  end.

(** ** A concrete port and scenarios *)

(** Modelled from the spec: at.h is missing.  The end marks are "a small
    fixed set of line-termination/record markers", here colon, comma
    and line feed; the URC idle timeout is the default of 2000 ms; a
    wait has timed out when the elapsed time exceeds it; the result
    codes are numbered in the order Success, ProtocolError, Timeout,
    Aborted. *)
Definition spec_port : at_port :=
  {| SPEC_URC_END_MARKS := lit ":," ++ [LF];
     MAX_URC_RECV_TIMEOUT := 2000;
     at_istimeout := fun now start t => (t <? now - start)%Z;
     at_return_int := fun r =>
       match r with
       | AT_RET_OK => 0%Z
       | AT_RET_ERROR => 1%Z
       | AT_RET_TIMEOUT => 2%Z
       | AT_RET_ABORT => 3%Z
       end |}.

(** A controller as [at_obj_init] leaves a zeroed object: a URC table,
    a URC buffer of [n] bytes, nothing received and nothing in flight. *)
Definition at_obj_init (tbl : list urc_item_t) (n : nat) : at_obj_t :=
  {| utc_tbl := tbl; urc_bufsize := n; urc_buf := repeat NUL n;
     urc_cnt := 0; urc_item := None; urc_timer := 0;
     resp := None; rcv_buf := []; rcv_cnt := 0; resp_timer := 0;
     ret := AT_RET_OK; busy := false; suspend := false; log := [] |}.

(** The table entry of the +CREG scenario. *)
Definition creg_item : urc_item_t :=
  {| prefix := lit "+CREG:"; end_mark := [CR; LF]; handler := 0 |}.

Definition creg_stream : list ascii := lit "+CREG: 1" ++ [CR; LF].

(** The state of URC reception while the +CREG line comes in, seen
    from the idle controller [o] it started in: [t] is received, the
    entry [it] is the only one that may be matched, no handler was
    called yet. *)
Definition creg_pending (it : urc_item_t) (o o' : at_obj_t) (t : list ascii)
  : Prop :=
  urc_holds o' t
  /\ (urc_item o' = None \/ urc_item o' = Some it)
  /\ urc_calls o' = urc_calls o
  /\ utc_tbl o' = utc_tbl o
  /\ urc_bufsize o' = urc_bufsize o
  /\ length (urc_buf o') = length (urc_buf o).

(** A controller that waits for the response of a command sent with
    the default spec at time 0, after "ERROR O" was received. *)
Definition armed_obj : at_obj_t :=
  set_rcv_cnt 7
    (set_rcv_buf (lit "ERROR O" ++ repeat NUL 57)
       (set_resp (Some default_resp) (at_obj_init [] 32))).

(** The reader polls once, one second after the command was sent, and
    the transport has nothing for it. *)
Definition idle_poll : reader_pass :=
  {| rp_lock := true; rp_rx := []; rp_end := 1000 |}.

(** The send lock is not obtained. *)
Definition busy_env : cmd_env :=
  {| ce_send_lock := false; ce_idle := []; ce_now := 0; ce_reply := [] |}.

(** The reader finds the reply CR LF "OK" CR LF, 100 ms after the
    command was sent. *)
Definition ok_reply : reader_pass :=
  {| rp_lock := true;
     rp_rx := map (fun c => (100%Z, c)) ([CR; LF] ++ lit "OK" ++ [CR; LF]);
     rp_end := 100 |}.

(** The send lock is obtained and the device answers "OK". *)
Definition ok_env : cmd_env :=
  {| ce_send_lock := true; ce_idle := []; ce_now := 0; ce_reply := [ok_reply] |}.

(** The send lock is obtained and the device does not answer. *)
Definition silent_env : cmd_env :=
  {| ce_send_lock := true; ce_idle := []; ce_now := 0;
     ce_reply := [idle_poll] |}.

(** ** More observations *)

(** The bytes written to the transport, in the order they were
    written. *)
Fixpoint written_of (l : list event) : list ascii :=
  match l with
  | [] => []
  | EvWrite data :: l' => written_of l' ++ data
  | _ :: l' => written_of l'
  end.

Definition written (o : at_obj_t) : list ascii := written_of (log o).

(** What one side of the receive path or the other may add. *)
Definition path_side (e : event) : bool := urc_side e || resp_side e.

(** What calls of the background reader leave as it is: the flags, the
    transport output, the send lock, the waits on the completion
    signal; and the receive lock is given back as often as it is
    taken. *)
Record reader_keeps (o o' : at_obj_t) : Prop := {
  rk_busy : busy o' = busy o;
  rk_suspend : suspend o' = suspend o;
  rk_written : written o' = written o;
  rk_send_takes : takes send_lock o' = takes send_lock o;
  rk_send_gives : gives send_lock o' = gives send_lock o;
  rk_completed_takes : takes completed o' = takes completed o;
  rk_recv_lock :
    takes recv_lock o' + gives recv_lock o
    = gives recv_lock o' + takes recv_lock o
}.

(** ** Waiting for a reply inside a work session *)

(** The items [data] stored into an array from cell [pos] on. *)
Fixpoint store_at {A : Type} (pos : nat) (data buf : list A) : list A :=
  match data with
  | [] => buf
  | c :: data' => store_at (S pos) data' (<[pos:=c]> buf)
  end.

(** One turn of the loop of [wait_recv]: the reading of the clock in
    the loop test, the reading during the read operation, and the
    bytes the transport has for it. *)
Record recv_turn : Set := {
  rt_now : Z;
  rt_read : Z;
  rt_avail : list ascii
}.

(** The locals of [wait_recv]: the 64 bytes of [buf], the count, and
    whether [buf[cnt] = 0] was a store behind the last cell. *)
Record recv_local : Set := {
  lb_buf : list ascii;
  lb_cnt : nat;
  lb_over : bool
}.

(** [at_get_ms() - timer] on [unsigned int]. *)
Definition elapsed (now timer : Z) : Z := ((now - timer) mod 2 ^ 32)%Z.

Section Work.

Context {port : at_port}.

(** The loop of [wait_recv], with [at_work_read] behind [e->read] as
    [at_do_work] binds it.  When the turns are used up the loop has
    not ended. *)
Fixpoint wait_recv_loop (o : at_obj_t) (resp : list ascii) (timer tmo : Z)
  (lc : recv_local) (turns : list recv_turn)
  : option (at_return * recv_local * at_obj_t) :=
  match turns with
  | [] => None
  | t :: ts =>
      if negb (elapsed (rt_now t) timer <? tmo)%Z
      then Some (AT_RET_TIMEOUT, lc, o)
      else
        let '(data, o) :=
          at_work_read o (rt_read t) (64 - lb_cnt lc) (rt_avail t) in
        let len := length data in
        if 0 <? len then
          let cnt := lb_cnt lc + len in
          let buf := <[cnt:=NUL]> (store_at (lb_cnt lc) data (lb_buf lc)) in
          let lc :=
            {| lb_buf := buf; lb_cnt := cnt;
               lb_over := lb_over lc || (64 <=? cnt) |} in
          if strstr buf resp then Some (AT_RET_OK, lc, o)
          else if strstr buf (lit "ERROR") then Some (AT_RET_ERROR, lc, o)
          else wait_recv_loop o resp timer tmo lc ts
        else wait_recv_loop o resp timer tmo lc ts
  end.

(** [wait_recv(e, resp, timeout)]: [stack] is what the 64 bytes of
    [buf] hold on entry, [timer] the first reading of the clock.  The
    result comes with the locals at the end of the loop. *)
Definition wait_recv (o : at_obj_t) (resp : list ascii) (tmo : Z)
  (stack : list ascii) (timer : Z) (turns : list recv_turn)
  : option (at_return * recv_local * at_obj_t) :=
  match
    wait_recv_loop o resp timer tmo
      {| lb_buf := stack; lb_cnt := 0; lb_over := false |} turns
  with
  | Some (res, lc, o) => Some (res, lc, emit EvDebug o)
  | None => None
  end.

End Work.

(** The bytes the turns of a wait offer to the reads. *)
Definition offered (turns : list recv_turn) : list ascii :=
  concat (map rt_avail turns).

(** All turns are inside the time of the wait. *)
Definition in_time (timer tmo : Z) (turns : list recv_turn) : bool :=
  forallb (fun t => (elapsed (rt_now t) timer <? tmo)%Z) turns.

(** The buffer of [wait_recv] holds the text [acc] and nothing was
    stored outside. *)
Definition recv_view (lc : recv_local) (acc : list ascii) : Prop :=
  lb_cnt lc = length acc /\ take (length acc) (lb_buf lc) = acc
  /\ length (lb_buf lc) = 64 /\ lb_over lc = false.


(** ** The fields of a response line *)

(** The fields of a text: the pieces between its commas.  After [n]
    cuts the rest of the text is the last field, with the commas it
    has. *)
Fixpoint split_fields (n : nat) (s : list ascii) : list (list ascii) :=
  match s with
  | [] => [[]]
  | c :: s' =>
      match n with
      | 0 => [s]
      | S n' =>
          if Ascii.eqb c ","%char then [] :: split_fields n' s'
          else
            match split_fields n s' with
            | f :: fs => (c :: f) :: fs
            | [] => [[c]]
            end
      end
  end.

(** The fields put together again, with a comma between two of them. *)
Fixpoint join_fields (fs : list (list ascii)) : list ascii :=
  match fs with
  | [] => []
  | [f] => f
  | f :: fs' => f ++ ","%char :: join_fields fs'
  end.

(** A region of memory in which the first [k] commas of the string at
    its start are replaced by NUL. *)
Fixpoint cut_commas (k : nat) (m : list ascii) : list ascii :=
  match m with
  | [] => []
  | c :: m' =>
      if Ascii.eqb c NUL then m
      else
        match k with
        | 0 => m
        | S k' =>
            if Ascii.eqb c ","%char then NUL :: cut_commas k' m'
            else c :: cut_commas k m'
        end
  end.

(** The offsets behind the first [k] commas of the string that starts
    at offset [pos]. *)
Fixpoint field_starts (k pos : nat) (m : list ascii) : list nat :=
  match m with
  | [] => []
  | c :: m' =>
      if Ascii.eqb c NUL then []
      else
        match k with
        | 0 => []
        | S k' =>
            if Ascii.eqb c ","%char then S pos :: field_starts k' (S pos) m'
            else field_starts k (S pos) m'
        end
  end.


(** ** The command table of the module configuration (the branch
    that is compiled without [USING_AT]) *)

Inductive At_InfoList : Set :=
| CONF_MODE
| FREE_MODE
| UNKOWN_MODE
| USER_ESC
| CONF_ERROR
| CONF_TOMEOUT
| CONF_SUCCESS
| INPUT_ERROR
| CMD_MODE
| CMD_SURE
| SET_ECHO
| SET_UART
| WORK_MODE
| POWER_MODE
| SET_TIDLE
| SET_TWAKEUP
| SPEED_GRADE
| TARGET_ADDR
| CHANNEL
| CHECK_ERROR
| TRANS_POWER
| SET_OUTTIME
| RESTART
| SIG_STREN
| EXIT_CMD
| RECOVERY
| SELECT_NID
| SELECT_VER
| LOW_PFLAG
| LOW_PDATE
| FINISH_FLAG
| EXIT_CONF
| NO_CMD.

(** The integer value of an enumerator, and the enumerator of a
    value. *)
Definition info_code (x : At_InfoList) : nat :=
  match x with
  | CONF_MODE => 0
  | FREE_MODE => 1
  | UNKOWN_MODE => 2
  | USER_ESC => 3
  | CONF_ERROR => 4
  | CONF_TOMEOUT => 5
  | CONF_SUCCESS => 6
  | INPUT_ERROR => 7
  | CMD_MODE => 8
  | CMD_SURE => 9
  | SET_ECHO => 10
  | SET_UART => 11
  | WORK_MODE => 12
  | POWER_MODE => 13
  | SET_TIDLE => 14
  | SET_TWAKEUP => 15
  | SPEED_GRADE => 16
  | TARGET_ADDR => 17
  | CHANNEL => 18
  | CHECK_ERROR => 19
  | TRANS_POWER => 20
  | SET_OUTTIME => 21
  | RESTART => 22
  | SIG_STREN => 23
  | EXIT_CMD => 24
  | RECOVERY => 25
  | SELECT_NID => 26
  | SELECT_VER => 27
  | LOW_PFLAG => 28
  | LOW_PDATE => 29
  | FINISH_FLAG => 30
  | EXIT_CONF => 31
  | NO_CMD => 32
  end.

Definition info_of_code (n : nat) : option At_InfoList :=
  match n with
  | 0 => Some CONF_MODE
  | 1 => Some FREE_MODE
  | 2 => Some UNKOWN_MODE
  | 3 => Some USER_ESC
  | 4 => Some CONF_ERROR
  | 5 => Some CONF_TOMEOUT
  | 6 => Some CONF_SUCCESS
  | 7 => Some INPUT_ERROR
  | 8 => Some CMD_MODE
  | 9 => Some CMD_SURE
  | 10 => Some SET_ECHO
  | 11 => Some SET_UART
  | 12 => Some WORK_MODE
  | 13 => Some POWER_MODE
  | 14 => Some SET_TIDLE
  | 15 => Some SET_TWAKEUP
  | 16 => Some SPEED_GRADE
  | 17 => Some TARGET_ADDR
  | 18 => Some CHANNEL
  | 19 => Some CHECK_ERROR
  | 20 => Some TRANS_POWER
  | 21 => Some SET_OUTTIME
  | 22 => Some RESTART
  | 23 => Some SIG_STREN
  | 24 => Some EXIT_CMD
  | 25 => Some RECOVERY
  | 26 => Some SELECT_NID
  | 27 => Some SELECT_VER
  | 28 => Some LOW_PFLAG
  | 29 => Some LOW_PDATE
  | 30 => Some FINISH_FLAG
  | 31 => Some EXIT_CONF
  | 32 => Some NO_CMD
  | _ => None
  end.

(** An entry of the table; [None] is the null pointer.  The [event]
    member is null in every entry and is never called. *)
Record At_HandleTypeDef : Set := {
  Name : At_InfoList;
  pSend : option (list ascii);
  pRecv : option (list ascii)
}.

Definition at_entry (n : At_InfoList) (send : string)
  (recv : option (list ascii)) : At_HandleTypeDef :=
  {| Name := n; pSend := Some (lit send); pRecv := recv |}.

(** [At_Table], with the string macros put in; [ok] is [AT_CMD_OK],
    which the source takes from a header. *)
Definition At_Table (ok : list ascii) : list At_HandleTypeDef :=
  [ at_entry CMD_MODE "+++" (Some (lit "a"));
    at_entry CMD_SURE "a" (Some ok);
    at_entry EXIT_CMD "AT+ENTM" None;
    at_entry SET_ECHO "AT+E=OFF" (Some (lit "AT+E"));
    at_entry RESTART "AT+Z" (Some (lit "LoRa Start!"));
    at_entry RECOVERY "AT+CFGTF" (Some (lit "+CFGTF:SAVED"));
    at_entry SELECT_NID "AT+NID" (Some (lit "+NID:"));
    at_entry SELECT_VER "AT+VER" (Some (lit "+VER:"));
    at_entry SET_UART "AT+UART=115200,8,1,NONE,NFC" (Some (lit "+UART:115200,8,1,NONE,NFC"));
    at_entry WORK_MODE "AT+WMODE=FP" (Some (lit "+WMODE:FP"));
    at_entry POWER_MODE "AT+PMODE=RUN" (Some (lit "+PMODE:RUN"));
    at_entry SET_TIDLE "AT+ITM=20" (Some (lit "+ITM:20"));
    at_entry SET_TWAKEUP "AT+WTM=2000" (Some (lit "+WTM:2000"));
    at_entry SPEED_GRADE "AT+SPD=10" (Some (lit "+SPD:10"));
    at_entry TARGET_ADDR "AT+ADDR=0" (Some (lit "+ADDR:0"));
    at_entry CHANNEL "AT+CH=0" (Some (lit "+CH:0"));
    at_entry CHECK_ERROR "AT+FEC=ON" (Some (lit "+FEC:ON"));
    at_entry TRANS_POWER "AT+PWR=20" (Some (lit "+PWR:20"));
    at_entry SET_OUTTIME "AT+RTO=500" (Some (lit "+RTO:500"));
    at_entry SIG_STREN "AT+SQT=1000" (Some (lit "+SQT:1000"));
    at_entry LOW_PFLAG "AT+PFLAG=0" (Some (lit "+PFLAG:0"));
    at_entry LOW_PDATE "AT+PDATE=123456,hex" (Some (lit "+PDATE:123456,hex"));
    at_entry FINISH_FLAG "AT+SENDOK=0" (Some (lit "+SENDOK:0")) ].

Definition AT_TABLE_SIZE : nat := 23.

(** [Get_AtCmd(pAt, list, size)]: the index of the entry whose address
    is returned, [None] for the null pointer.  [i] counts up from its
    start value to [size]; the loop stops as well where the array
    ends, which the callers do not let happen. *)
Fixpoint Get_AtCmd_from (pAt : list At_HandleTypeDef) (list : At_InfoList)
  (i n : nat) : option nat :=
  match n with
  | 0 => None
  | S n' =>
      match pAt !! i with
      | Some e =>
          if info_code (Name e) =? info_code list then Some i
          else Get_AtCmd_from pAt list (S i) n'
      | None => None
      end
  end.

Definition Get_AtCmd (pAt : list At_HandleTypeDef) (list : At_InfoList)
  (size : nat) : option nat :=
  Get_AtCmd_from pAt list 0 size.

(** The values [at_cmd] takes in the [for] loop of [Config_Mode] when
    no command fails: from [CMD_MODE] up to, not including,
    [SIG_STREN]; the loop is left after [RESTART]. *)
Fixpoint config_mode_cmds_from (at_cmd n : nat) : list nat :=
  match n with
  | 0 => []
  | S n' =>
      if at_cmd <? info_code SIG_STREN then
        at_cmd ::
        (if at_cmd =? info_code RESTART then []
         else config_mode_cmds_from (S at_cmd) n')
      else []
  end.

Definition config_mode_cmds : list nat :=
  config_mode_cmds_from (info_code CMD_MODE) (info_code NO_CMD).

(** The values [at_cmd] has in the body of the [for] loop of
    [Free_Mode]: the loop runs while [at_cmd < POWER_MODE], and the
    body first replaces [POWER_MODE - 1] by [RESTART]. *)
Fixpoint free_mode_cmds_from (at_cmd n : nat) : list nat :=
  match n with
  | 0 => []
  | S n' =>
      if at_cmd <? info_code POWER_MODE then
        let at_cmd :=
          if at_cmd =? info_code POWER_MODE - 1 then info_code RESTART
          else at_cmd in
        at_cmd :: free_mode_cmds_from (S at_cmd) n'
      else []
  end.

Definition free_mode_cmds : list nat :=
  free_mode_cmds_from (info_code CMD_MODE) (info_code NO_CMD).

(** The command string [pStr] the two modes build in the FreeRTOS
    configuration.  [heap] is the block the allocator returns and
    [mark] is [AT_CMD_END_MARK_CRLF].  The result is the size that
    was asked for, the offsets of the block that [memcpy] and
    [strcat] store to, and the block afterwards; a store behind the
    block leaves the block as it is. *)
Definition build_pStr (heap mark send : list ascii) (at_cmd : nat)
  : nat * list nat * list ascii :=
  let size := length (cstr send) + length (cstr mark) in
  let n := length (cstr send) + 1 in
  let block := store_at 0 (cstr send ++ [NUL]) heap in
  if info_code CMD_SURE <? at_cmd then
    let pos := length (cstr block) in
    (size, seq 0 n ++ seq pos (length (cstr mark) + 1),
     store_at pos (cstr mark ++ [NUL]) block)
  else (size, seq 0 n, block).

(** ** The two configuration modes *)

(** What the branch takes from headers that are not among the
    sources: the three key codes the modes look for, the reply texts
    for success and failure, the end mark of a command, and whether
    the debug output is compiled in. *)
Class l101_port : Type := {
  ENTER_CODE : ascii;
  BACKSPACE_CODE : ascii;
  ESC_CODE : ascii;
  AT_CMD_OK : list ascii;
  AT_CMD_ERROR : list ascii;
  AT_CMD_END_MARK_CRLF : list ascii;
  USING_DEBUG : bool
}.

(** What the modes do to the shell, to the module and to the line
    buffer [pBuf]. *)
Inductive shell_event : Set :=
| ShEcho (c : ascii)
    (* shell->write(pData, 1) *)
| ShDelete
    (* shellDeleteCommandLine(shell, 1) *)
| ShText (t : At_InfoList)
    (* shellWriteString(shell, atText[t]) *)
| ShPrint
    (* shellPrint(shell, ...) *)
| MdSend (data : list ascii)
    (* pH->mdRTUSendString(pH, data, strlen(data)) *)
| PBufStore (i : nat)
    (* pBuf[i] = ... *)
| PBufCat (i : nat).
    (* a store of strcat(pBuf, ...) into cell i *)

(** What the rest of the system does for one command: the block the
    allocator returns for [pStr] ([None] for a null pointer), and the
    bytes, at least one, that are in the receive buffer of the module
    when [Wait_Recv] finds its count not zero. *)
Record exchange : Set := {
  ex_heap : option (list ascii);
  ex_rx : ascii * list ascii
}.

(** The state of [Free_Mode]: the 64 bytes of [pBuf], the index [len],
    and what was done so far, latest first. *)
Record fm_state : Set := {
  pBuf : list ascii;
  len : nat;
  fm_log : list shell_event
}.

(** The state of [Config_Mode]. *)
Record cm_state : Set := {
  at_mutex : bool;
  cm_log : list shell_event
}.

(** The strings sent to the module, in the order they were sent. *)
Fixpoint sends_of (l : list shell_event) : list (list ascii) :=
  match l with
  | [] => []
  | MdSend data :: l' => sends_of l' ++ [data]
  | _ :: l' => sends_of l'
  end.

(** The cells of [pBuf] stored to by assignment, and by [strcat]. *)
Fixpoint pbuf_stores_of (l : list shell_event) : list nat :=
  match l with
  | [] => []
  | PBufStore i :: l' => i :: pbuf_stores_of l'
  | _ :: l' => pbuf_stores_of l'
  end.

Fixpoint pbuf_cats_of (l : list shell_event) : list nat :=
  match l with
  | [] => []
  | PBufCat i :: l' => i :: pbuf_cats_of l'
  | _ :: l' => pbuf_cats_of l'
  end.

Section Modes.

Context {lp : l101_port}.

(** [SIZE] of [Free_Mode]. *)
Definition SIZE : nat := 64.

(** The result of [Wait_Recv] once the receive buffer holds [rx]; the
    time-out argument is not used by the function, which waits as
    long as the buffer is empty. *)
Definition Wait_Recv (resp : list ascii) (rx : ascii * list ascii)
  : At_InfoList :=
  let buf := fst rx :: snd rx in
  if strstr buf resp then CONF_SUCCESS
  else if strstr buf AT_CMD_ERROR then CONF_ERROR
  else CONF_TOMEOUT.

(** [Get_AtCmd(At_Table, at_cmd, AT_TABLE_SIZE)] for the integer
    [at_cmd]; an integer that is no enumerator names no entry. *)
Definition lookup_cmd (at_cmd : nat) : option At_HandleTypeDef :=
  match info_of_code at_cmd with
  | Some cmd =>
      match Get_AtCmd (At_Table AT_CMD_OK) cmd AT_TABLE_SIZE with
      | Some i => At_Table AT_CMD_OK !! i
      | None => None
      end
  | None => None
  end.

(** [pRe] of the two modes, for an entry that was found. *)
Definition expected_reply (at_cmd : nat) (e : At_HandleTypeDef)
  : option (list ascii) :=
  if (at_cmd =? info_code CMD_MODE) || (at_cmd =? info_code SET_ECHO)
  then pRecv e else Some AT_CMD_OK.

Definition fm_emit (e : shell_event) (st : fm_state) : fm_state :=
  {| pBuf := pBuf st; len := len st; fm_log := e :: fm_log st |}.

Definition fm_debug (st : fm_state) : fm_state :=
  if USING_DEBUG then fm_emit ShPrint st else st.

(** [strcat(pBuf, src)]: the characters of [src] and the terminator
    are stored from the end of the string in [pBuf] on. *)
Definition strcat_pBuf (src : list ascii) (st : fm_state) : fm_state :=
  let pos := length (cstr (pBuf st)) in
  let data := cstr src ++ [NUL] in
  {| pBuf := store_at pos data (pBuf st); len := len st;
     fm_log := rev (map PBufCat (seq pos (length data))) ++ fm_log st |}.

(** What follows [Wait_Recv] in both modes: the text of the result,
    and the closing text after a failure or after [RESTART]. *)
Definition report (at_cmd : nat) (result : At_InfoList)
  (l : list shell_event) : bool * list shell_event :=
  let l := ShText result :: l in
  if negb (info_code result =? info_code CONF_SUCCESS)
     || (at_cmd =? info_code RESTART)
  then (true, ShText EXIT_CONF :: l) else (false, l).

(** The body of the [for] loop of [Free_Mode] in the FreeRTOS
    configuration, for one value of [at_cmd].  [None]: a null pointer
    is dereferenced. *)
Definition free_mode_cmd (at_cmd : nat) (ex : exchange) (st : fm_state)
  : option fm_state :=
  let pS := lookup_cmd at_cmd in
  let named := (at_cmd =? info_code CMD_MODE) || (at_cmd =? info_code SET_ECHO) in
  match
    match pS with
    | Some e => Some (expected_reply at_cmd e)
    | None => if named then None else Some (Some AT_CMD_OK)
    end
  with
  | None => None
  | Some pRe =>
      match
        match pS with
        | None => Some st
        | Some e =>
            match pSend e with
            | None => None
            | Some send =>
                match ex_heap ex with
                | None => Some st
                | Some heap =>
                    let '(_, _, block) :=
                      build_pStr heap AT_CMD_END_MARK_CRLF send at_cmd in
                    let '(pDest, st) :=
                      if negb (at_cmd =? info_code SET_UART)
                      then (cstr block, st)
                      else
                        let st := strcat_pBuf AT_CMD_END_MARK_CRLF st in
                        (cstr (pBuf st), st) in
                    let st := fm_debug (fm_debug st) in
                    Some (fm_emit (MdSend pDest) st)
                end
            end
        end
      with
      | None => None
      | Some st =>
          match pRe with
          | None => None
          | Some resp =>
              let result := Wait_Recv resp (ex_rx ex) in
              let st := fm_debug st in
              let '(_, l) := report at_cmd result (fm_log st) in
              Some {| pBuf := pBuf st; len := len st; fm_log := l |}
          end
      end
  end.

(** The [for] loop of [Free_Mode].  [None] as well when the module
    sends nothing more and [Wait_Recv] does not return. *)
Fixpoint free_mode_loop (at_cmd n : nat) (exs : list exchange)
  (st : fm_state) : option (fm_state * list exchange) :=
  match n with
  | 0 => None
  | S n' =>
      if at_cmd <? info_code POWER_MODE then
        let at_cmd :=
          if at_cmd =? info_code POWER_MODE - 1 then info_code RESTART
          else at_cmd in
        match exs with
        | [] => None
        | ex :: exs' =>
            match free_mode_cmd at_cmd ex st with
            | None => None
            | Some st => free_mode_loop (S at_cmd) n' exs' st
            end
        end
      else Some (st, exs)
  end.

(** The [while] loop of [Free_Mode]: [keys] are the characters the
    shell reads.  The result tells whether the function has returned,
    which it does on [ESC_CODE], or waits for the next character. *)
Fixpoint free_mode_keys (keys : list ascii) (exs : list exchange)
  (st : fm_state) : option (bool * fm_state) :=
  match keys with
  | [] => Some (false, st)
  | c :: keys' =>
      if Ascii.eqb c ENTER_CODE then
        let st :=
          {| pBuf := <[len st:=NUL]> (pBuf st); len := 0;
             fm_log := PBufStore (len st) :: fm_log st |} in
        let st := fm_debug st in
        match
          free_mode_loop (info_code CMD_MODE) (info_code NO_CMD) exs st
        with
        | None => None
        | Some (st, exs) => free_mode_keys keys' exs st
        end
      else if Ascii.eqb c BACKSPACE_CODE then
        let st :=
          if len st =? 0 then st
          else {| pBuf := pBuf st; len := len st - 1;
                  fm_log := ShDelete :: fm_log st |} in
        free_mode_keys keys' exs st
      else if Ascii.eqb c ESC_CODE then Some (true, st)
      else
        let st :=
          {| pBuf := <[len st:=c]> (pBuf st);
             len := if S (len st) <? SIZE then S (len st) else 0;
             fm_log := ShEcho c :: PBufStore (len st) :: fm_log st |} in
        free_mode_keys keys' exs st
  end.

(** [Free_Mode(shell, pData)] with the block [heap] for [pBuf]. *)
Definition Free_Mode (heap : list ascii) (keys : list ascii)
  (exs : list exchange) : option (bool * fm_state) :=
  free_mode_keys keys exs {| pBuf := heap; len := 0; fm_log := [] |}.

(** The body of the [for] loop of [Config_Mode] for one value of
    [at_cmd]; the flag tells whether the loop is left. *)
Definition config_mode_cmd (at_cmd : nat) (ex : exchange)
  (l : list shell_event) : option (bool * list shell_event) :=
  match lookup_cmd at_cmd with
  | None => None
  | Some e =>
      let l := if USING_DEBUG then ShPrint :: ShPrint :: l else l in
      match pSend e with
      | None => Some (true, ShText NO_CMD :: l)
      | Some send =>
          let l :=
            match ex_heap ex with
            | None => l
            | Some heap =>
                let '(_, _, block) :=
                  build_pStr heap AT_CMD_END_MARK_CRLF send at_cmd in
                MdSend (cstr block) :: l
            end in
          match expected_reply at_cmd e with
          | None => None
          | Some resp =>
              let result := Wait_Recv resp (ex_rx ex) in
              let l := if USING_DEBUG then ShPrint :: l else l in
              Some (report at_cmd result l)
          end
      end
  end.

(** The [for] loop of [Config_Mode], entered with [at_mutex] not set. *)
Fixpoint config_mode_loop (at_cmd n : nat) (exs : list exchange)
  (l : list shell_event) : option (cm_state * list exchange) :=
  match n with
  | 0 => None
  | S n' =>
      if at_cmd <? info_code SIG_STREN then
        match exs with
        | [] => None
        | ex :: exs' =>
            match config_mode_cmd at_cmd ex l with
            | None => None
            | Some (true, l) => Some ({| at_mutex := true; cm_log := l |}, exs')
            | Some (false, l) => config_mode_loop (S at_cmd) n' exs' l
            end
        end
      else Some ({| at_mutex := false; cm_log := l |}, exs)
  end.

(** The [while] loop of [Config_Mode]: [pData] is the character read
    last. *)
Fixpoint config_mode_keys (pData : ascii) (keys : list ascii)
  (exs : list exchange) (st : cm_state) : option (bool * cm_state) :=
  if Ascii.eqb pData ESC_CODE then Some (true, st)
  else
    match keys with
    | [] => Some (false, st)
    | c :: keys' =>
        if at_mutex st then config_mode_keys c keys' exs st
        else
          match
            config_mode_loop (info_code CMD_MODE) (info_code NO_CMD) exs
              (cm_log st)
          with
          | None => None
          | Some (st, exs) => config_mode_keys c keys' exs st
          end
    end.

(** [Config_Mode(shell, pData)], called as [At_Handle] calls it, with
    a NUL in [*pData]. *)
Definition Config_Mode (keys : list ascii) (exs : list exchange)
  : option (bool * cm_state) :=
  config_mode_keys NUL keys exs {| at_mutex := false; cm_log := [] |}.

(** The text of the command [at_cmd] as it is sent: its string from
    the table, followed by the end mark behind [CMD_SURE]. *)
Definition cmd_text (at_cmd : nat) : list ascii :=
  match lookup_cmd at_cmd with
  | Some e =>
      match pSend e with
      | Some send =>
          cstr send
          ++ (if info_code CMD_SURE <? at_cmd
              then cstr AT_CMD_END_MARK_CRLF else [])
      | None => []
      end
  | None => []
  end.

(** The allocator returns a block of the size asked for, for each of
    the commands [cmds]. *)
Fixpoint blocks_fit (cmds : list nat) (exs : list exchange) : bool :=
  match cmds, exs with
  | [], _ => true
  | _ :: _, [] => false
  | c :: cmds', ex :: exs' =>
      match ex_heap ex with
      | Some heap =>
          (length heap
           =? length (cmd_text c)
              + (if info_code CMD_SURE <? c then 0
                 else length (cstr AT_CMD_END_MARK_CRLF)))
          && blocks_fit cmds' exs'
      | None => false
      end
  end.

(** The reply to the command [at_cmd] is the one awaited. *)
Definition reply_ok (at_cmd : nat) (ex : exchange) : bool :=
  match lookup_cmd at_cmd with
  | Some e =>
      match expected_reply at_cmd e with
      | Some resp =>
          info_code (Wait_Recv resp (ex_rx ex)) =? info_code CONF_SUCCESS
      | None => false
      end
  | None => false
  end.

(** How many of the commands [cmds], from the first on, get the reply
    that is awaited. *)
Fixpoint successes (cmds : list nat) (exs : list exchange) : nat :=
  match cmds, exs with
  | c :: cmds', ex :: exs' =>
      if reply_ok c ex then S (successes cmds' exs') else 0
  | _, _ => 0
  end.

(** A character that is none of the three keys the modes look for. *)
Definition plain_key (c : ascii) : bool :=
  negb (Ascii.eqb c ENTER_CODE) && negb (Ascii.eqb c BACKSPACE_CODE)
  && negb (Ascii.eqb c ESC_CODE).

End Modes.

(** ** More scenarios *)

(** The controller of the +CREG scenario after "+CREG: 1" and CR were
    received at time 0: the entry is matched, the line has not ended. *)
Definition creg_line : list ascii := lit "+CREG: 1" ++ [CR].

Definition creg_matched : at_obj_t :=
  urc_recv_process (port := spec_port) (at_obj_init [creg_item] 32) 0
    creg_line.

(** The same controller after "+CREG" only, with no entry matched yet. *)
Definition creg_begun : at_obj_t :=
  urc_recv_process (port := spec_port) (at_obj_init [creg_item] 32) 0
    (lit "+CREG").

(** The reader finds the reply CR LF "ERROR" CR LF, 100 ms after the
    command was sent. *)
Definition error_reply : reader_pass :=
  {| rp_lock := true;
     rp_rx := map (fun c => (100%Z, c)) ([CR; LF] ++ lit "ERROR" ++ [CR; LF]);
     rp_end := 100 |}.

Definition error_env : cmd_env :=
  {| ce_send_lock := true; ce_idle := []; ce_now := 0;
     ce_reply := [error_reply] |}.

(** A work that prints a command line, writes two bytes and returns 7. *)
Definition hello_work : at_work :=
  fun o => (7%Z, snd (at_work_write (at_work_print o (lit "AT+CMGS=5"))
                        (lit "hi"))).

(** Two turns of a wait that started at time 0: the line end of the
    echo after 10 ms and the prompt after 20 ms. *)
Definition echo_turn : recv_turn :=
  {| rt_now := 10; rt_read := 10; rt_avail := [CR; LF] |}.

Definition prompt_turn : recv_turn :=
  {| rt_now := 20; rt_read := 20; rt_avail := lit "> " |}.

(** A turn two seconds after the start, with nothing to read. *)
Definition late_turn : recv_turn :=
  {| rt_now := 2000; rt_read := 2000; rt_avail := [] |}.

(** A turn in which the transport has 70 bytes for the read. *)
Definition flood_turn : recv_turn :=
  {| rt_now := 10; rt_read := 10; rt_avail := repeat "a"%char 70 |}.

(** The headers of the configuration shell are missing.  The key
    codes are the ASCII codes of the keys the names stand for, the
    reply texts and the end mark are what the names say, and the
    debug output is compiled in. *)
Definition l101_keys : l101_port :=
  {| ENTER_CODE := "013"%char; BACKSPACE_CODE := "008"%char;
     ESC_CODE := "027"%char; AT_CMD_OK := lit "OK";
     AT_CMD_ERROR := lit "ERROR"; AT_CMD_END_MARK_CRLF := [CR; LF];
     USING_DEBUG := true |}.

(** An exchange in which the allocator returns a block of the size
    asked for the command [at_cmd] and the module answers [rx]. *)
Definition fit_exchange (at_cmd : nat) (rx : ascii * list ascii) : exchange :=
  {| ex_heap :=
       Some (repeat NUL
               (length (cmd_text (lp := l101_keys) at_cmd)
                + (if info_code CMD_SURE <? at_cmd then 0 else 2)));
     ex_rx := rx |}.

(** The module answers every command with ERROR. *)
Definition error_exchanges (cmds : list nat) : list exchange :=
  map (fun c => fit_exchange c ("E"%char, lit "RROR")) cmds.

(** The module confirms the first two commands of the configuration
    and answers ERROR from the third on. *)
Definition echo_fails : list exchange :=
  fit_exchange (info_code CMD_MODE) ("a"%char, [])
  :: fit_exchange (info_code CMD_SURE) ("O"%char, lit "K")
  :: error_exchanges (seq (info_code SET_ECHO) 13).

(** * Properties *)

(** ** Logs *)

Lemma extends_trans P l1 l2 l3 :
  extends P l1 l2 -> extends P l2 l3 -> extends P l1 l3.
Proof.
  intros H12 H23. induction H23 as [|e l3 He _ IH].
  - exact H12.
  - apply ext_cons; [exact He | exact IH].
Qed.

Lemma extends_app P l l' :
  extends P l l' -> exists U, l' = U ++ l /\ forallb P U = true.
Proof.
  induction 1 as [|e l' He _ [U [-> HU]]].
  - exists []. split; reflexivity.
  - exists (e :: U). split; [reflexivity|]. simpl. rewrite He, HU. reflexivity.
Qed.

Lemma extends_count P q l l' :
  (forall e, P e = true -> q e = false) ->
  extends P l l' -> count_ev q l' = count_ev q l.
Proof.
  intros Hq. induction 1 as [|e l' He _ IH]; [reflexivity|].
  simpl. rewrite (Hq e He), IH. reflexivity.
Qed.

Lemma urc_side_not_give s e : urc_side e = true -> is_give s e = false.
Proof. destruct e as [[]| | | | |]; simpl; congruence. Qed.

Lemma extends_resp_calls l l' :
  extends resp_side l l' -> urc_calls_of l' = urc_calls_of l.
Proof.
  induction 1 as [|e l' He _ IH]; [reflexivity|].
  destruct e as [[]| | | | |]; simpl in *; congruence.
Qed.

Lemma urc_frame_refl o : urc_frame o o.
Proof. constructor; try reflexivity. apply ext_same. Qed.

Lemma urc_frame_trans o1 o2 o3 :
  urc_frame o1 o2 -> urc_frame o2 o3 -> urc_frame o1 o3.
Proof.
  intros [] []. constructor; try congruence.
  eapply extends_trans; eassumption.
Qed.

Lemma resp_frame_refl o : resp_frame o o.
Proof. constructor; try reflexivity. apply ext_same. Qed.

Lemma resp_frame_trans o1 o2 o3 :
  resp_frame o1 o2 -> resp_frame o2 o3 -> resp_frame o1 o3.
Proof.
  intros [] []. constructor; try congruence.
  eapply extends_trans; eassumption.
Qed.

(** ** The two sides of the receive path keep to themselves *)

Section Frames.

Context {port : at_port}.

Ltac frame_step :=
  constructor; simpl; rewrite ?length_insert; try reflexivity;
  repeat (first [apply ext_same | apply ext_cons; [reflexivity|]]).

Lemma urc_recv_timeout_frame now o : urc_frame o (urc_recv_timeout now o).
Proof.
  unfold urc_recv_timeout.
  destruct (_ && _); [|apply urc_frame_refl].
  simpl. destruct (2 <? urc_cnt o); frame_step.
Qed.

Lemma urc_recv_char_frame now o ch : urc_frame o (urc_recv_char now o ch).
Proof.
  unfold urc_recv_char.
  destruct (strchr SPEC_URC_END_MARKS ch || Ascii.eqb ch NUL).
  - simpl. destruct (urc_item o) as [it|] eqn:Ei.
    + simpl. rewrite Ei.
      destruct (strchr (end_mark it) ch); frame_step.
    + destruct (find_urc_item _ _ _) as [it|] eqn:Ef; simpl.
      * destruct (strchr (end_mark it) ch); frame_step.
      * destruct (Ascii.eqb ch CR || Ascii.eqb ch LF || Ascii.eqb ch NUL);
          [destruct (_ && _)|]; frame_step.
  - destruct (urc_bufsize _ <=? _); frame_step.
Qed.

Lemma urc_recv_chars_frame now buf : forall o,
  urc_frame o (fold_left (urc_recv_char now) buf o).
Proof.
  induction buf as [|ch buf IH]; intros o; simpl.
  - apply urc_frame_refl.
  - eapply urc_frame_trans; [apply urc_recv_char_frame | apply IH].
Qed.

Lemma urc_recv_process_frame o now buf :
  urc_frame o (urc_recv_process o now buf).
Proof.
  unfold urc_recv_process.
  eapply urc_frame_trans;
    [apply urc_recv_timeout_frame | apply urc_recv_chars_frame].
Qed.

Lemma memcpy_rcv_frame buf : forall i o, resp_frame o (memcpy_rcv i buf o).
Proof.
  induction buf as [|c buf IH]; intros i o; simpl.
  - apply resp_frame_refl.
  - eapply resp_frame_trans; [|apply IH]. frame_step.
Qed.

Lemma resp_append_frame r buf o : resp_frame o (resp_append r buf o).
Proof.
  unfold resp_append.
  destruct (bufsize r <=? rcv_cnt o + length buf).
  - eapply resp_frame_trans with (o2 := emit EvDebug (set_rcv_cnt 0 o));
      [frame_step|].
    eapply resp_frame_trans; [apply memcpy_rcv_frame|]. frame_step.
  - eapply resp_frame_trans; [apply memcpy_rcv_frame|]. frame_step.
Qed.

Lemma resp_notification_frame r o : resp_frame o (resp_notification r o).
Proof. frame_step. Qed.

Lemma resp_poll_frame r now o : resp_frame o (resp_poll r now o).
Proof.
  unfold resp_poll.
  destruct (at_istimeout _ _ _); [frame_step|].
  destruct (suspend o); [frame_step | apply resp_frame_refl].
Qed.

Lemma resp_recv_process_frame o now buf :
  resp_frame o (resp_recv_process o now buf).
Proof.
  unfold resp_recv_process.
  destruct (resp o) as [r|]; [|apply resp_frame_refl].
  destruct (0 <? length buf); [|apply resp_poll_frame].
  pose proof (resp_append_frame r buf o) as Ha.
  destruct (strstr _ (matcher r));
    [eapply resp_frame_trans; [exact Ha | apply resp_notification_frame]|].
  destruct (strstr _ (lit "ERROR"));
    [eapply resp_frame_trans; [exact Ha | apply resp_notification_frame]|].
  eapply resp_frame_trans; [exact Ha | apply resp_poll_frame].
Qed.

End Frames.

(** ** The completion signal *)

Section Completion.

Context {port : at_port}.

Lemma one_post_refl o : one_post o o.
Proof. left. repeat split. Qed.

Lemma one_post_trans o1 o2 o3 :
  one_post o1 o2 -> one_post o2 o3 -> one_post o1 o3.
Proof.
  unfold one_post.
  intros [(P12 & R12 & T12)|(P12 & R12 & N1)] [(P23 & R23 & T23)|(P23 & R23 & N2)].
  - left. repeat split; congruence.
  - right. repeat split; congruence.
  - right. repeat split; congruence.
  - congruence.
Qed.

Lemma urc_frame_one_post o o' : urc_frame o o' -> one_post o o'.
Proof.
  intros F. left. split; [|split; [apply (uf_resp _ _ F) | apply (uf_ret _ _ F)]].
  unfold posts, gives. apply extends_count with (P := urc_side).
  - apply urc_side_not_give.
  - apply (uf_log _ _ F).
Qed.

Lemma memcpy_rcv_keeps buf : forall i o,
  posts (memcpy_rcv i buf o) = posts o
  /\ resp (memcpy_rcv i buf o) = resp o
  /\ ret (memcpy_rcv i buf o) = ret o.
Proof.
  induction buf as [|c buf IH]; intros i o; simpl; [repeat split|].
  destruct (IH (S i) (store_rcv i c o)) as (-> & -> & ->). repeat split.
Qed.

Lemma resp_append_keeps r buf o :
  posts (resp_append r buf o) = posts o
  /\ resp (resp_append r buf o) = resp o
  /\ ret (resp_append r buf o) = ret o.
Proof.
  unfold resp_append.
  destruct (bufsize r <=? rcv_cnt o + length buf); simpl;
    match goal with |- context [memcpy_rcv ?i buf ?x] =>
      destruct (memcpy_rcv_keeps buf i x) as (Hp & Hr & Ht) end;
    unfold posts, gives in *; simpl; rewrite Hr, Ht; repeat split;
    exact Hp.
Qed.

Lemma resp_notification_posts r o :
  resp o <> None -> one_post o (resp_notification r o).
Proof. intros N. right. repeat split. exact N. Qed.

Lemma resp_poll_posts r now o : resp o <> None -> one_post o (resp_poll r now o).
Proof.
  intros N. unfold resp_poll.
  destruct (at_istimeout _ _ _); [apply resp_notification_posts, N|].
  destruct (suspend o); [apply resp_notification_posts, N | apply one_post_refl].
Qed.

Lemma resp_recv_process_posts o now buf :
  one_post o (resp_recv_process o now buf).
Proof.
  unfold resp_recv_process.
  destruct (resp o) as [r|] eqn:Er; [|apply one_post_refl].
  assert (N : resp o <> None) by congruence.
  destruct (0 <? length buf); [|apply resp_poll_posts, N].
  destruct (resp_append_keeps r buf o) as (Hp & Hr & Ht).
  assert (Ha : one_post o (resp_append r buf o))
    by (left; repeat split; assumption).
  assert (N' : resp (resp_append r buf o) <> None) by congruence.
  destruct (strstr _ (matcher r));
    [eapply one_post_trans; [exact Ha | apply resp_notification_posts, N']|].
  destruct (strstr _ (lit "ERROR"));
    [eapply one_post_trans; [exact Ha | apply resp_notification_posts, N']|].
  eapply one_post_trans; [exact Ha | apply resp_poll_posts, N'].
Qed.

Lemma at_process_loop_posts rx t_end : forall o,
  one_post o (at_process_loop o rx t_end).
Proof.
  induction rx as [|[t c] rx IH]; intros o; simpl.
  - eapply one_post_trans;
      [apply urc_frame_one_post, urc_recv_process_frame
      |apply resp_recv_process_posts].
  - eapply one_post_trans; [|apply IH].
    eapply one_post_trans;
      [apply urc_frame_one_post, urc_recv_process_frame
      |apply resp_recv_process_posts].
Qed.

Lemma at_process_posts o p : one_post o (at_process o p).
Proof.
  unfold at_process. destruct (rp_lock p); [|apply one_post_refl].
  pose proof (at_process_loop_posts (rp_rx p) (rp_end p)
                (emit (EvTake recv_lock MAX_AT_LOCK_TIME) o)) as H.
  unfold one_post, posts, gives in *. simpl in *. exact H.
Qed.

Lemma reader_posts passes : forall o,
  one_post o (fold_left at_process passes o).
Proof.
  induction passes as [|p ps IH]; intros o; simpl.
  - apply one_post_refl.
  - eapply one_post_trans; [apply at_process_posts | apply IH].
Qed.

Lemma await_completed_posts passes : forall o,
  one_post o (snd (await_completed o passes)).
Proof.
  induction passes as [|p ps IH]; intros o; simpl.
  - apply one_post_refl.
  - destruct (posts o <? posts (at_process o p)); simpl.
    + apply at_process_posts.
    + eapply one_post_trans; [apply at_process_posts | apply IH].
Qed.

(** C4 (as amended): in a command lifecycle, from [wait_resp] arming the
    response spec to its return, the completion signal is posted at
    most once; the spec is cleared when the lifecycle ends; no later
    call of the reader posts the signal; a lifecycle without a post
    returns Timeout; and every single call of [resp_recv_process]
    either posts nothing and keeps the spec and the recorded outcome,
    or posts once and clears the spec. *)
Theorem completion_posted_at_most_once o r now passes later chunk :
  let o1 := snd (wait_resp o r now passes) in
  posts o <= posts o1 <= S (posts o)
  /\ resp o1 = None
  /\ posts (fold_left at_process later o1) = posts o1
  /\ (posts o1 = posts o -> fst (wait_resp o r now passes) = AT_RET_TIMEOUT)
  /\ one_post o (resp_recv_process o now chunk).
Proof.
  unfold wait_resp.
  set (a := set_rcv_buf _ _).
  pose proof (await_completed_posts passes a) as H.
  destruct (await_completed a passes) as [ok o2]. simpl in H.
  cbv zeta.
  set (o1 := set_resp None _).
  assert (Hp : posts o1 = posts o2).
  { unfold o1, posts, gives. destruct ok; reflexivity. }
  assert (Hr : resp o1 = None) by reflexivity.
  assert (Ht : ret o1 = ret o2) by (unfold o1; destruct ok; reflexivity).
  assert (Ha : posts a = posts o) by reflexivity.
  assert (Hat : ret a = AT_RET_TIMEOUT) by reflexivity.
  simpl. fold o1. split; [|split; [exact Hr|split; [|split]]].
  - destruct H as [(H & _)|(H & _)]; lia.
  - destruct (reader_posts later o1) as [(H1 & _)|(_ & _ & N)]; [exact H1|].
    congruence.
  - intros Hn. change (ret o1 = AT_RET_TIMEOUT).
    destruct H as [(_ & _ & H)|(H & _)]; [congruence | lia].
  - apply resp_recv_process_posts.
Qed.

End Completion.

(** ** Buffers as C strings *)

Lemma cstr_insert_NUL (l : list ascii) : forall k,
  k < length l -> cstr (<[k:=NUL]> l) = cstr (take k l).
Proof.
  induction l as [|c l IH]; intros k Hk; simpl in Hk; [lia|].
  destruct k as [|k]; simpl.
  - reflexivity.
  - rewrite IH by lia. reflexivity.
Qed.

Lemma strstr_cstr hay hay' needle :
  cstr hay = cstr hay' -> strstr hay needle = strstr hay' needle.
Proof. unfold strstr. intros ->. reflexivity. Qed.

Lemma memcpy_rcv_take buf : forall i o,
  i + length buf <= length (rcv_buf o) ->
  take (i + length buf) (rcv_buf (memcpy_rcv i buf o))
    = take i (rcv_buf o) ++ buf
  /\ length (rcv_buf (memcpy_rcv i buf o)) = length (rcv_buf o)
  /\ rcv_cnt (memcpy_rcv i buf o) = rcv_cnt o.
Proof.
  induction buf as [|c buf IH]; intros i o Hlen; simpl in *.
  - rewrite Nat.add_0_r, app_nil_r. repeat split.
  - destruct (IH (S i) (store_rcv i c o)) as [Ht [Hl Hc]].
    { simpl. rewrite length_insert. lia. }
    simpl in Ht, Hl, Hc. rewrite length_insert in Hl.
    replace (i + S (length buf)) with (S (i + length buf)) by lia.
    rewrite Ht, Hl, Hc. repeat split.
    rewrite (take_S_r _ _ c) by (apply list_lookup_insert_eq; lia).
    rewrite take_insert_ge by lia. rewrite <- app_assoc. reflexivity.
Qed.

(** ** The response matcher *)

Section Matcher.

Context {port : at_port}.

Lemma resp_append_text r buf o :
  length buf < bufsize r -> bufsize r <= length (rcv_buf o) ->
  cstr (rcv_buf (resp_append r buf o)) = cstr (resp_text r buf o).
Proof.
  intros Hfit Hmem. unfold resp_append, resp_text.
  destruct (bufsize r <=? rcv_cnt o + length buf) eqn:Hov.
  - simpl.
    destruct (memcpy_rcv_take buf 0 (emit EvDebug (set_rcv_cnt 0 o)))
      as [Ht [Hl Hc]]; [simpl; lia|].
    simpl in Ht, Hl, Hc. rewrite Hc. simpl.
    rewrite cstr_insert_NUL by lia. rewrite Ht. reflexivity.
  - apply Nat.leb_gt in Hov.
    destruct (memcpy_rcv_take buf (rcv_cnt o) o) as [Ht [Hl Hc]]; [lia|].
    simpl. rewrite Hc.
    rewrite cstr_insert_NUL by lia. rewrite Ht. reflexivity.
Qed.

(** C5: when the response text, after a chunk that fits the buffer was
    appended, contains both the success token of the active spec and
    "ERROR", the recorded outcome is Success (and the signal is posted
    and the spec cleared). *)
Theorem resp_success_before_error o r now buf :
  resp o = Some r ->
  0 < length buf < bufsize r ->
  bufsize r <= length (rcv_buf o) ->
  strstr (resp_text r buf o) (matcher r) = true ->
  strstr (resp_text r buf o) (lit "ERROR") = true ->
  let o' := resp_recv_process o now buf in
  ret o' = AT_RET_OK /\ resp o' = None /\ posts o' = S (posts o).
Proof.
  intros Hr [Hpos Hfit] Hmem Hok _. unfold resp_recv_process. rewrite Hr.
  apply Nat.ltb_lt in Hpos. rewrite Hpos.
  rewrite (strstr_cstr _ _ _ (resp_append_text r buf o Hfit Hmem)), Hok.
  destruct (resp_append_keeps r buf o) as (Hp & _).
  repeat split. unfold posts, gives, resp_notification in *.
  cbn [log emit set_resp set_ret count_ev is_give at_sem_eqb].
  rewrite Hp. reflexivity.
Qed.

End Matcher.

(** ** Order of the two consumers *)

Section Demultiplexer.

Context {port : at_port}.

(** C7: the reader hands every chunk it read (one byte, or nothing on
    the last turn of the loop) to [urc_recv_process] and the result,
    with the same chunk, to [resp_recv_process]; for every chunk the
    events of the URC side are logged before those of the response
    side, and the response side does not touch the URC session.  The
    read function of a work session returns the bytes the transport
    gave it and leaves the controller as [urc_recv_process] leaves it
    on these bytes, the response side untouched. *)
Theorem urc_offered_first o p t chunk len avail :
  let feed := fun o (tc : Z * ascii) =>
    resp_recv_process (urc_recv_process o (fst tc) [snd tc]) (fst tc) [snd tc] in
  let o1 := urc_recv_process o t chunk in
  let o2 := resp_recv_process o1 t chunk in
  at_process o p =
    (if rp_lock p then
       let o' := fold_left feed (rp_rx p)
                   (emit (EvTake recv_lock MAX_AT_LOCK_TIME) o) in
       emit (EvGive recv_lock)
         (resp_recv_process (urc_recv_process o' (rp_end p) []) (rp_end p) [])
     else o)
  /\ (exists U R, log o1 = U ++ log o /\ log o2 = R ++ U ++ log o
        /\ forallb urc_side U = true /\ forallb resp_side R = true)
  /\ (urc_buf o2 = urc_buf o1 /\ urc_cnt o2 = urc_cnt o1
        /\ urc_item o2 = urc_item o1 /\ urc_calls o2 = urc_calls o1)
  /\ at_work_read o t len avail
       = (take len avail, urc_recv_process o t (take len avail))
  /\ urc_frame o (snd (at_work_read o t len avail)).
Proof.
  intros feed o1 o2.
  pose proof (resp_recv_process_frame o1 t chunk) as F2.
  split; [|split; [|split; [|split]]].
  - unfold at_process. destruct (rp_lock p); [|reflexivity]. f_equal.
    generalize (emit (EvTake recv_lock MAX_AT_LOCK_TIME) o).
    induction (rp_rx p) as [|[t' c] rx IH]; intros a; simpl.
    + reflexivity.
    + apply IH.
  - destruct (extends_app _ _ _ (uf_log _ _ (urc_recv_process_frame o t chunk)))
      as [U [HU HUs]].
    destruct (extends_app _ _ _ (rf_log _ _ F2)) as [R [HR HRs]].
    exists U, R. fold o1 in HU. fold o2 in HR. rewrite HR, HU.
    split; [|split; [|split]]; try assumption; reflexivity.
  - split; [apply (rf_urc_buf _ _ F2)|].
    split; [apply (rf_urc_cnt _ _ F2)|].
    split; [apply (rf_urc_item _ _ F2)|].
    unfold urc_calls. apply extends_resp_calls, (rf_log _ _ F2).
  - reflexivity.
  - apply urc_recv_process_frame.
Qed.

End Demultiplexer.

(** ** Work sessions and their locks *)

Section Locks.

Context {port : at_port}.

(** C2 (not met by the code): when the send lock is obtained and the
    receive lock is not, [at_do_work] returns the timeout code with the
    send lock taken and not given back. *)
Theorem at_do_work_keeps_send_lock o work :
  let r := at_do_work o work true false in
  fst r = at_return_int AT_RET_TIMEOUT
  /\ takes send_lock (snd r) = S (takes send_lock o)
  /\ gives send_lock (snd r) = gives send_lock o
  /\ takes recv_lock (snd r) = takes recv_lock o
  /\ gives recv_lock (snd r) = gives recv_lock o.
Proof. repeat split. Qed.

(** On the two other paths every lock that was taken is given back,
    for a work function that does not touch the semaphores itself. *)
Lemma at_do_work_balanced o work s :
  (forall a, takes s (snd (work a)) = takes s a
             /\ gives s (snd (work a)) = gives s a) ->
  s <> completed ->
  (forall recv_ok, snd (at_do_work o work false recv_ok) = o)
  /\ takes s (snd (at_do_work o work true true)) = S (takes s o)
  /\ gives s (snd (at_do_work o work true true)) = S (gives s o).
Proof.
  intros Hw Hs. split; [reflexivity|].
  unfold at_do_work. simpl.
  set (a := set_rcv_cnt 0 _).
  destruct (Hw a) as [Ht Hg]. destruct (work a) as [res o']. simpl in *.
  unfold takes, gives in *. simpl. rewrite Ht, Hg. unfold a. simpl.
  destruct s; simpl; try congruence; split; lia.
Qed.

End Locks.

(** ** URC matching needs two bytes *)

Section TwoBytes.

Context {port : at_port}.

Lemma find_urc_item_size o urc_buf size it :
  find_urc_item o urc_buf size = Some it -> 2 <= size.
Proof.
  unfold find_urc_item. destruct (size <? 2) eqn:E; [discriminate|].
  intros _. apply Nat.ltb_ge in E. exact E.
Qed.

Lemma urc_recv_timeout_two_bytes now o :
  urc_two_bytes o -> urc_two_bytes (urc_recv_timeout now o).
Proof.
  intros [Hi Hc]. unfold urc_recv_timeout.
  destruct (_ && _); [|split; assumption].
  split; [left; reflexivity|].
  unfold urc_calls in *. simpl. destruct (2 <? urc_cnt o); exact Hc.
Qed.

Lemma urc_recv_char_two_bytes now o ch :
  urc_two_bytes o -> urc_two_bytes (urc_recv_char now o ch).
Proof.
  intros [Hi Hc]. unfold urc_two_bytes, urc_calls in *. unfold urc_recv_char.
  destruct (strchr SPEC_URC_END_MARKS ch || Ascii.eqb ch NUL).
  - simpl. destruct (urc_item o) as [it|] eqn:Ei.
    + destruct Hi as [Hi|Hi]; [discriminate|].
      simpl. rewrite Ei.
      destruct (strchr (end_mark it) ch); simpl.
      * split; [left; reflexivity|]. constructor; [simpl; lia | exact Hc].
      * split; [right; lia | exact Hc].
    + destruct (find_urc_item _ _ _) as [it|] eqn:Ef; simpl.
      * apply find_urc_item_size in Ef.
        destruct (strchr (end_mark it) ch); simpl.
        -- split; [left; reflexivity|]. constructor; [exact Ef | exact Hc].
        -- split; [right; exact Ef | exact Hc].
      * destruct (Ascii.eqb ch CR || Ascii.eqb ch LF || Ascii.eqb ch NUL);
          [destruct (_ && _)|]; simpl; (split; [left; reflexivity | exact Hc]).
  - destruct (urc_bufsize _ <=? _); simpl.
    + split; [left; reflexivity | exact Hc].
    + split; [|exact Hc]. destruct Hi as [Hi|Hi]; [left; exact Hi | right; lia].
Qed.

Lemma urc_recv_process_two_bytes o now buf :
  urc_two_bytes o -> urc_two_bytes (urc_recv_process o now buf).
Proof.
  intros H. unfold urc_recv_process.
  apply urc_recv_timeout_two_bytes with (now := now) in H.
  revert H. generalize (urc_recv_timeout now o).
  induction buf as [|ch buf IH]; intros a Ha; simpl; [exact Ha|].
  apply IH, urc_recv_char_two_bytes, Ha.
Qed.

(** C9: [find_urc_item] returns no entry when fewer than two bytes were
    received, whatever the table and the buffer hold; hence reception
    keeps the invariant that an entry is matched only with two bytes or
    more in the buffer and that handlers are only called so. *)
Theorem find_urc_item_two_bytes o urc_buf size now data :
  size < 2 ->
  find_urc_item o urc_buf size = None
  /\ (urc_two_bytes o -> urc_two_bytes (urc_recv_process o now data)).
Proof.
  intros Hs. split.
  - unfold find_urc_item. apply Nat.ltb_lt in Hs. rewrite Hs. reflexivity.
  - apply urc_recv_process_two_bytes.
Qed.

End TwoBytes.

(** ** The response tokenizer *)

Lemma split_loop_count rest : forall pos i count buf lines,
  (0 <= count < 2 ^ 32)%Z -> (Z.of_nat i <= count)%Z ->
  Z.of_nat (fst (fst (split_loop rest pos i count buf lines)))
  = Z.min count (Z.of_nat (i + commas (cstr rest))).
Proof.
  induction rest as [|c rest IH]; intros pos i count buf lines Hc Hi; simpl.
  - rewrite Nat.add_0_r. lia.
  - destruct (Ascii.eqb c NUL) eqn:En; simpl.
    + rewrite Nat.add_0_r. lia.
    + unfold size_t_of_int. rewrite Z.mod_small by lia.
      destruct (Z.of_nat i <? count)%Z eqn:Hlt; simpl.
      * apply Z.ltb_lt in Hlt.
        destruct (Ascii.eqb c ","%char) eqn:Ec.
        -- rewrite IH by lia. lia.
        -- rewrite IH by lia. simpl. lia.
      * apply Z.ltb_ge in Hlt. lia.
Qed.

(** C10 (as amended): with a null buffer or a null array the tokenizer
    returns 0 and changes nothing; otherwise, for a maximum count of at
    least 1, it returns the number of comma separated fields of the
    text, cut off at the maximum count, which lies between 1 and the
    maximum count; the separator argument has no influence. *)
Theorem at_split_respond_lines_fields recvbuf lines count sep sep' :
  at_split_respond_lines recvbuf lines count sep
    = at_split_respond_lines recvbuf lines count sep'
  /\ match recvbuf, lines with
     | Some buf, Some ln =>
         (1 <= count < 2 ^ 31)%Z ->
         let n := fst (fst (at_split_respond_lines recvbuf lines count sep)) in
         n = Z.min count (Z.of_nat (1 + commas (cstr buf)))
         /\ (1 <= n <= count)%Z
     | _, _ =>
         at_split_respond_lines recvbuf lines count sep = (0%Z, recvbuf, lines)
     end.
Proof.
  split; [reflexivity|].
  destruct recvbuf as [buf|], lines as [ln|]; try reflexivity.
  intros Hc. simpl.
  pose proof (split_loop_count buf 0 1 count buf (<[0:=0]> ln)) as H.
  destruct (split_loop buf 0 1 count buf (<[0:=0]> ln)) as [[i buf'] ln'].
  simpl in *. rewrite H by lia. lia.
Qed.

(** ** One character of URC reception, in terms of the received text *)

Lemma find_urc_scan_cstr tbl b1 b2 :
  cstr b1 = cstr b2 -> find_urc_scan tbl b1 = find_urc_scan tbl b2.
Proof.
  intros H. induction tbl as [|e tbl IH]; simpl; [reflexivity|].
  rewrite (strstr_cstr _ _ _ H), IH. reflexivity.
Qed.

Lemma urc_store_holds (buf : list ascii) t ch :
  take (length t) buf = t -> length t < length buf ->
  take (length (t ++ [ch])) (<[length t:=ch]> buf) = t ++ [ch].
Proof.
  intros Ht Hl. rewrite length_app. simpl. rewrite Nat.add_1_r.
  rewrite (take_S_r _ _ ch) by (apply list_lookup_insert_eq; lia).
  rewrite take_insert_ge by lia. rewrite Ht. reflexivity.
Qed.

Section UrcChar.

Context {port : at_port}.

(** A character that is an end mark of the port. *)
Lemma urc_recv_char_mark now o ch t :
  urc_holds o t -> S (length t) < length (urc_buf o) ->
  strchr SPEC_URC_END_MARKS ch || Ascii.eqb ch NUL = true ->
  let t' := t ++ [ch] in
  let found :=
    match urc_item o with
    | None => if S (length t) <? 2 then None else find_urc_scan (utc_tbl o) t'
    | Some x => Some x
    end in
  let o' := urc_recv_char now o ch in
  match found with
  | Some x =>
      if strchr (end_mark x) ch then
        urc_cnt o' = 0 /\ urc_item o' = None
        /\ urc_calls o' = (x, t', S (length t)) :: urc_calls o
      else urc_holds o' t' /\ urc_item o' = Some x /\ urc_calls o' = urc_calls o
  | None =>
      if line_end ch then
        urc_cnt o' = 0 /\ urc_item o' = None /\ urc_calls o' = urc_calls o
      else urc_holds o' t' /\ urc_item o' = None /\ urc_calls o' = urc_calls o
  end.
Proof.
  intros [Hc Ht] Hl Hm. cbv zeta. unfold urc_recv_char. rewrite Hm.
  assert (Hv : take (length (t ++ [ch]))
                 (<[S (length t):=NUL]> (<[length t:=ch]> (urc_buf o)))
               = t ++ [ch]).
  { rewrite take_insert_ge by (rewrite length_app; simpl; lia).
    apply urc_store_holds; [exact Ht | lia]. }
  assert (Hs : cstr (<[S (length t):=NUL]> (<[length t:=ch]> (urc_buf o)))
               = cstr (t ++ [ch])).
  { rewrite cstr_insert_NUL by (rewrite length_insert; lia).
    pose proof (urc_store_holds (urc_buf o) t ch Ht ltac:(lia)) as H1.
    rewrite length_app in H1. simpl in H1. rewrite Nat.add_1_r in H1.
    rewrite H1. reflexivity. }
  assert (Hlen : length (t ++ [ch]) = S (length t))
    by (rewrite length_app; simpl; lia).
  rewrite Hlen in Hv.
  simpl. rewrite Hc.
  destruct (urc_item o) as [x|] eqn:Ei.
  - simpl. rewrite Ei.
    destruct (strchr (end_mark x) ch); simpl.
    + unfold urc_calls. simpl. rewrite Hv. repeat split.
    + unfold urc_holds, urc_calls. simpl. rewrite Hlen, Hv.
      repeat split. exact Ei.
  - unfold find_urc_item. simpl.
    rewrite (find_urc_scan_cstr _ _ _ Hs).
    destruct (if S (length t) <? 2 then None
              else find_urc_scan (utc_tbl o) (t ++ [ch])) as [x|]; simpl.
    + destruct (strchr (end_mark x) ch); simpl.
      * unfold urc_calls. simpl. rewrite Hv. repeat split.
      * unfold urc_holds, urc_calls. simpl. rewrite Hlen, Hv.
        repeat split.
    + unfold line_end.
      destruct (Ascii.eqb ch CR || Ascii.eqb ch LF || Ascii.eqb ch NUL).
      * unfold urc_calls. destruct (_ && _); simpl; repeat split.
      * unfold urc_holds, urc_calls. simpl. rewrite Hlen, Hv.
        repeat split.
Qed.

(** A character that is not an end mark. *)
Lemma urc_recv_char_plain now o ch t :
  urc_holds o t -> length t < length (urc_buf o) ->
  strchr SPEC_URC_END_MARKS ch || Ascii.eqb ch NUL = false ->
  let o' := urc_recv_char now o ch in
  if urc_bufsize o <=? S (length t) then
    urc_cnt o' = 0 /\ urc_item o' = None /\ urc_calls o' = urc_calls o
  else
    urc_holds o' (t ++ [ch]) /\ urc_item o' = urc_item o
    /\ urc_calls o' = urc_calls o.
Proof.
  intros [Hc Ht] Hl Hm. cbv zeta. unfold urc_recv_char. rewrite Hm.
  simpl. rewrite Hc.
  destruct (urc_bufsize o <=? S (length t)); simpl.
  - repeat split.
  - unfold urc_holds. simpl. rewrite (urc_store_holds _ _ _ Ht Hl).
    rewrite length_app. simpl. repeat split. lia.
Qed.

End UrcChar.

(** ** Substrings of a text that is still growing *)

Lemma cstr_app_id (a b : list ascii) : cstr (a ++ b) = a ++ b -> cstr a = a.
Proof.
  induction a as [|c a IH]; simpl; [reflexivity|].
  destruct (Ascii.eqb c NUL); [discriminate|].
  intros H. injection H as H. rewrite IH by exact H. reflexivity.
Qed.

Lemma starts_with_app p : forall a b,
  starts_with p a = true -> starts_with p (a ++ b) = true.
Proof.
  induction p as [|x p IH]; intros a b; [reflexivity|].
  destruct a as [|y a]; simpl; [discriminate|].
  intros H. apply andb_true_iff in H as [Hx Hp].
  rewrite Hx, (IH _ _ Hp). reflexivity.
Qed.

Lemma occurs_in_app p a b :
  occurs_in p a = true -> occurs_in p (a ++ b) = true.
Proof.
  induction a as [|y a IH].
  - simpl. rewrite orb_false_r. intros H.
    destruct p; [|discriminate]. destruct b; reflexivity.
  - intros H. simpl in H. apply orb_true_iff in H as [H|H].
    + change ((y :: a) ++ b) with (y :: (a ++ b)).
      pose proof (starts_with_app p (y :: a) b H) as H'.
      simpl in H'. simpl. rewrite H'. reflexivity.
    + simpl. rewrite (IH H). apply orb_true_r.
Qed.

Lemma strstr_growing pre rest p :
  cstr (pre ++ rest) = pre ++ rest ->
  strstr (pre ++ rest) p = false -> strstr pre p = false.
Proof.
  intros Hn H. unfold strstr in *. rewrite Hn in H.
  rewrite (cstr_app_id _ _ Hn).
  destruct (occurs_in (cstr p) pre) eqn:E; [|reflexivity].
  rewrite (occurs_in_app _ _ rest E) in H. discriminate H.
Qed.

Lemma find_urc_scan_none tbl text :
  (forall e, In e tbl -> strstr text (prefix e) = false) ->
  find_urc_scan tbl text = None.
Proof.
  induction tbl as [|e tbl IH]; intros H; simpl; [reflexivity|].
  rewrite (H e) by (left; reflexivity).
  apply IH. intros e' He'. apply H. right. exact He'.
Qed.

Lemma find_urc_scan_only it tbl text :
  In it tbl ->
  (forall e, In e tbl -> e = it \/ strstr text (prefix e) = false) ->
  find_urc_scan tbl text = if strstr text (prefix it) then Some it else None.
Proof.
  induction tbl as [|e tbl IH]; intros Hin H; [destruct Hin|].
  simpl. destruct (strstr text (prefix e)) eqn:Ee.
  - destruct (H e (or_introl eq_refl)) as [->|He]; [|congruence].
    rewrite Ee. reflexivity.
  - destruct (strstr text (prefix it)) eqn:Ei.
    + destruct Hin as [->|Hin]; [congruence|].
      apply IH; [exact Hin|].
      intros e' He'. apply H. right. exact He'.
    + apply find_urc_scan_none. intros e' He'.
      destruct (H e' (or_intror He')) as [->|He'']; assumption.
Qed.

(** ** The +CREG line *)

Section Creg.

Context {port : at_port}.

Variable it : urc_item_t.
Variable o : at_obj_t.
Variable now : Z.

Hypothesis end_marks_LF : strchr SPEC_URC_END_MARKS LF = true.
Hypothesis it_prefix : prefix it = lit "+CREG:".
Hypothesis it_end_mark : end_mark it = [CR; LF].
Hypothesis it_in_table : In it (utc_tbl o).
Hypothesis it_only :
  forall e, In e (utc_tbl o) -> e = it \/ strstr creg_stream (prefix e) = false.
Hypothesis capacity : 10 < urc_bufsize o <= length (urc_buf o).
Hypothesis idle_cnt : urc_cnt o = 0.
Hypothesis idle_item : urc_item o = None.

Lemma creg_scan pre rest :
  pre ++ rest = creg_stream ->
  find_urc_scan (utc_tbl o) pre
  = if strstr pre (lit "+CREG:") then Some it else None.
Proof.
  intros Hs. rewrite <- it_prefix. apply find_urc_scan_only; [exact it_in_table|].
  intros e He. destruct (it_only e He) as [->|Hn]; [left; reflexivity|right].
  apply strstr_growing with (rest := rest); rewrite Hs; [reflexivity | exact Hn].
Qed.

Lemma creg_quiet_char o1 t ch rest :
  t ++ ch :: rest = creg_stream -> rest <> [] -> line_end ch = false ->
  creg_pending it o o1 t ->
  creg_pending it o (urc_recv_char now o1 ch) (t ++ [ch]).
Proof.
  intros Hs Hrest Hq (Hh & Hi & Hc & Htbl & Hsz & Hlen).
  assert (Hroom : S (length t) < 10).
  { apply (f_equal (@length ascii)) in Hs. rewrite length_app in Hs.
    simpl in Hs. destruct rest; [congruence|]. simpl in Hs. lia. }
  assert (Hem : strchr (end_mark it) ch = false).
  { rewrite it_end_mark. unfold line_end in Hq. unfold strchr. simpl.
    destruct (Ascii.eqb ch CR), (Ascii.eqb ch LF), (Ascii.eqb ch NUL);
      simpl in *; congruence. }
  pose proof (urc_recv_char_frame now o1 ch) as F.
  assert (Hrest' : creg_pending it o (urc_recv_char now o1 ch) (t ++ [ch])
                   <-> urc_holds (urc_recv_char now o1 ch) (t ++ [ch])
                       /\ (urc_item (urc_recv_char now o1 ch) = None
                           \/ urc_item (urc_recv_char now o1 ch) = Some it)
                       /\ urc_calls (urc_recv_char now o1 ch) = urc_calls o1).
  { unfold creg_pending. rewrite (uf_tbl _ _ F), (uf_bufsize _ _ F), (uf_len _ _ F).
    rewrite Hc. intuition. }
  apply Hrest'. clear Hrest'.
  destruct (strchr SPEC_URC_END_MARKS ch || Ascii.eqb ch NUL) eqn:Hm.
  - pose proof (urc_recv_char_mark now o1 ch t Hh ltac:(lia) Hm) as H.
    cbv zeta in H. rewrite Htbl in H.
    rewrite (creg_scan (t ++ [ch]) rest) in H
      by (rewrite <- app_assoc; exact Hs).
    destruct Hi as [Hi|Hi]; rewrite Hi in H.
    + destruct (S (length t) <? 2);
        [|destruct (strstr (t ++ [ch]) (lit "+CREG:"))];
        rewrite ?Hem, ?Hq in H; destruct H as (H1 & H2 & H3);
        repeat split; try apply H1; try assumption; auto.
    + rewrite Hem in H. destruct H as (H1 & H2 & H3).
      repeat split; try apply H1; try assumption; auto.
  - pose proof (urc_recv_char_plain now o1 ch t Hh ltac:(lia) Hm) as H.
    cbv zeta in H. rewrite Hsz in H.
    destruct (urc_bufsize o <=? S (length t)) eqn:Hb;
      [apply Nat.leb_le in Hb; lia|].
    destruct H as (H1 & H2 & H3).
    repeat split; try apply H1; try assumption. rewrite H2. exact Hi.
Qed.

Lemma creg_quiet_chars cs : forall o1 t rest,
  t ++ cs ++ rest = creg_stream -> rest <> [] ->
  Forall (fun ch => line_end ch = false) cs ->
  creg_pending it o o1 t ->
  creg_pending it o (fold_left (urc_recv_char now) cs o1) (t ++ cs).
Proof.
  induction cs as [|ch cs IH]; intros o1 t rest Hs Hrest Hq Hp; simpl.
  - rewrite app_nil_r. exact Hp.
  - inversion Hq as [|? ? Hq1 Hq2]; subst.
    replace (t ++ ch :: cs) with ((t ++ [ch]) ++ cs)
      by (rewrite <- app_assoc; reflexivity).
    apply IH with (rest := rest); try assumption.
    + rewrite <- app_assoc. exact Hs.
    + apply creg_quiet_char with (rest := cs ++ rest); try assumption.
      destruct cs; simpl; [exact Hrest | discriminate].
Qed.

(** C6: with an entry for the prefix "+CREG:" and the end marks CR and
    LF in the table, no other entry whose prefix occurs in the line,
    room for the line in the buffer and LF among the end marks of the
    port, feeding "+CREG: 1" CR LF to the idle [urc_recv_process] calls
    the handler of the entry exactly once, with the text received up
    to the end mark that triggers it (the CR when the port has CR
    among its end marks, the LF otherwise), and leaves the session
    idle: fill count zero, no entry matched. *)
Theorem creg_dispatched_once :
  let o' := urc_recv_process o now creg_stream in
  let text :=
    if strchr SPEC_URC_END_MARKS CR then lit "+CREG: 1" ++ [CR]
    else creg_stream in
  urc_cnt o' = 0 /\ urc_item o' = None
  /\ urc_calls o' = (it, text, length text) :: urc_calls o.
Proof.
  assert (Hrun : urc_recv_process o now creg_stream
                 = fold_left (urc_recv_char now) [CR; LF]
                     (fold_left (urc_recv_char now) (lit "+CREG: 1") o)).
  { unfold urc_recv_process, urc_recv_timeout, creg_stream.
    rewrite idle_cnt, fold_left_app. reflexivity. }
  cbv zeta. rewrite Hrun. clear Hrun.
  assert (P0 : creg_pending it o o []).
  { unfold creg_pending, urc_holds. rewrite idle_cnt, idle_item.
    repeat split; auto. }
  pose proof (creg_quiet_chars (lit "+CREG: 1") o [] [CR; LF] eq_refl
                ltac:(discriminate) ltac:(repeat constructor) P0) as P.
  set (o8 := fold_left (urc_recv_char now) (lit "+CREG: 1") o) in *.
  destruct P as (Hh & Hi & Hc & Htbl & Hsz & Hlen).
  cbn [app] in Hh. cbn [fold_left].
  assert (Hroom : 10 < length (urc_buf o8)) by lia.
  assert (HmLF : strchr SPEC_URC_END_MARKS LF || Ascii.eqb LF NUL = true)
    by (rewrite end_marks_LF; reflexivity).
  pose proof (urc_recv_char_frame now o8 CR) as F9.
  destruct (strchr SPEC_URC_END_MARKS CR) eqn:HCR.
  - pose proof (urc_recv_char_mark now o8 CR _ Hh ltac:(simpl; lia)
                  ltac:(rewrite HCR; reflexivity)) as H9.
    cbv zeta in H9. rewrite Htbl in H9.
    rewrite (creg_scan (lit "+CREG: 1" ++ [CR]) [LF] eq_refl) in H9.
    assert (Hf : match urc_item o8 with
                 | Some x => Some x
                 | None =>
                     if S (length (lit "+CREG: 1")) <? 2 then None
                     else if strstr (lit "+CREG: 1" ++ [CR]) (lit "+CREG:")
                          then Some it else None
                 end = Some it)
      by (destruct Hi as [->| ->]; reflexivity).
    rewrite Hf, it_end_mark in H9.
    change (strchr [CR; LF] CR) with true in H9.
    destruct H9 as (H9c & H9i & H9l).
    set (o9 := urc_recv_char now o8 CR) in *.
    assert (Hh9 : urc_holds o9 []) by (split; [exact H9c | reflexivity]).
    pose proof (urc_recv_char_mark now o9 LF [] Hh9
                  ltac:(rewrite (uf_len _ _ F9); simpl; lia) HmLF) as H10.
    cbv zeta in H10. rewrite H9i in H10.
    change (S (length (@nil ascii)) <? 2) with true in H10.
    change (line_end LF) with true in H10.
    destruct H10 as (H10c & H10i & H10l).
    split; [exact H10c|]. split; [exact H10i|].
    rewrite H10l, H9l, Hc. reflexivity.
  - pose proof (urc_recv_char_plain now o8 CR _ Hh ltac:(simpl; lia)
                  ltac:(rewrite HCR; reflexivity)) as H9.
    cbv zeta in H9. rewrite Hsz in H9.
    destruct (urc_bufsize o <=? S (length (lit "+CREG: 1"))) eqn:Hb;
      [apply Nat.leb_le in Hb; simpl in Hb; lia|].
    destruct H9 as (H9h & H9i & H9l).
    set (o9 := urc_recv_char now o8 CR) in *.
    pose proof (urc_recv_char_mark now o9 LF _ H9h
                  ltac:(rewrite (uf_len _ _ F9); simpl; lia) HmLF) as H10.
    cbv zeta in H10. rewrite (uf_tbl _ _ F9), Htbl in H10.
    rewrite (creg_scan ((lit "+CREG: 1" ++ [CR]) ++ [LF]) [] eq_refl) in H10.
    assert (Hf : match urc_item o9 with
                 | Some x => Some x
                 | None =>
                     if S (length (lit "+CREG: 1" ++ [CR])) <? 2 then None
                     else if strstr ((lit "+CREG: 1" ++ [CR]) ++ [LF])
                               (lit "+CREG:")
                          then Some it else None
                 end = Some it)
      by (rewrite H9i; destruct Hi as [->| ->]; reflexivity).
    rewrite Hf, it_end_mark in H10.
    change (strchr [CR; LF] LF) with true in H10.
    destruct H10 as (H10c & H10i & H10l).
    split; [exact H10c|]. split; [exact H10i|].
    rewrite H10l, H9l, Hc. reflexivity.
Qed.

End Creg.

(** ** Stores into the URC buffer *)

Section UrcStores.

Context {port : at_port}.

(** With an empty table, a character that does not end a line is
    counted and nothing else happens, as long as it is an end mark of
    the port or the count stays below the capacity. *)
Lemma urc_recv_char_counted now o ch :
  utc_tbl o = [] -> urc_item o = None -> line_end ch = false ->
  strchr SPEC_URC_END_MARKS ch = true \/ S (urc_cnt o) < urc_bufsize o ->
  let o' := urc_recv_char now o ch in
  utc_tbl o' = [] /\ urc_item o' = None /\ urc_cnt o' = S (urc_cnt o)
  /\ urc_bufsize o' = urc_bufsize o.
Proof.
  intros Ht Hi Hq Hr. cbv zeta. unfold urc_recv_char.
  destruct (strchr SPEC_URC_END_MARKS ch || Ascii.eqb ch NUL) eqn:Hm.
  - simpl. rewrite Hi. unfold find_urc_item. simpl. rewrite Ht.
    assert (Hn : (if S (urc_cnt o) <? 2 then None else find_urc_scan [] 
        (<[S (urc_cnt o):=NUL]> (<[urc_cnt o:=ch]> (urc_buf o)))) = None)
      by (destruct (_ <? _); reflexivity).
    rewrite Hn. simpl. unfold line_end in Hq. rewrite Hq. simpl.
    repeat split; assumption.
  - apply orb_false_iff in Hm as [Hm _].
    destruct Hr as [Hr|Hr]; [congruence|].
    simpl. destruct (urc_bufsize o <=? S (urc_cnt o)) eqn:Hb;
      [apply Nat.leb_le in Hb; lia|].
    simpl. repeat split; assumption.
Qed.

Lemma urc_recv_chars_counted now ch k : forall o,
  utc_tbl o = [] -> urc_item o = None -> line_end ch = false ->
  strchr SPEC_URC_END_MARKS ch = true \/ urc_cnt o + k < urc_bufsize o ->
  let o' := fold_left (urc_recv_char now) (repeat ch k) o in
  utc_tbl o' = [] /\ urc_item o' = None /\ urc_cnt o' = urc_cnt o + k
  /\ urc_bufsize o' = urc_bufsize o.
Proof.
  induction k as [|k IH]; intros o Ht Hi Hq Hr; simpl.
  - rewrite Nat.add_0_r. repeat split; assumption.
  - destruct (urc_recv_char_counted now o ch Ht Hi Hq) as (Ht' & Hi' & Hc' & Hs');
      [destruct Hr as [Hr|Hr]; [left; exact Hr | right; lia]|].
    destruct (IH (urc_recv_char now o ch) Ht' Hi' Hq) as (H1 & H2 & H3 & H4);
      [destruct Hr as [Hr|Hr]; [left; exact Hr | right; lia]|].
    cbv zeta in *. rewrite H3, H4, Hc', Hs'. repeat split; try assumption. lia.
Qed.

(** A NUL is stored at the fill count and is followed by a second NUL,
    one cell further. *)
Lemma urc_recv_char_NUL_stores now o :
  In (S (urc_cnt o)) (stores URC_BUF (urc_recv_char now o NUL)).
Proof.
  pose proof (urc_recv_char_frame now (store_urc (S (urc_cnt o)) NUL o) NUL).
  unfold urc_recv_char, stores.
  replace (strchr SPEC_URC_END_MARKS NUL || Ascii.eqb NUL NUL) with true
    by (unfold strchr; rewrite orb_true_r; reflexivity).
  simpl. destruct (urc_item o) as [it|] eqn:Ei.
  - simpl. rewrite Ei.
    replace (strchr (end_mark it) NUL) with true
      by (unfold strchr; rewrite orb_true_r; reflexivity).
    simpl. left. reflexivity.
  - destruct (find_urc_item _ _ _) as [it|]; simpl.
    + replace (strchr (end_mark it) NUL) with true
        by (unfold strchr; rewrite orb_true_r; reflexivity).
      simpl. left. reflexivity.
    + destruct (_ && _); simpl; left; reflexivity.
Qed.

(** C1 (not met by the code): with a URC buffer of [n] bytes, [n - 1]
    letters followed by a NUL make [urc_recv_process] store into cell
    [n], one past the last cell of the buffer. *)
Theorem urc_store_beyond_capacity n now :
  0 < n ->
  let o' := urc_recv_process (at_obj_init [] n) now (repeat "a"%char (n - 1) ++ [NUL]) in
  urc_bufsize o' = n /\ In n (stores URC_BUF o').
Proof.
  intros Hn. cbv zeta. unfold urc_recv_process.
  change (urc_recv_timeout now (at_obj_init [] n)) with (at_obj_init [] n).
  rewrite fold_left_app.
  destruct (urc_recv_chars_counted now "a"%char (n - 1) (at_obj_init [] n))
    as (Ht & Hi & Hc & Hs); try reflexivity; [right; simpl; lia|].
  set (o1 := fold_left _ (repeat _ _) _) in *. simpl in Hc, Hs. simpl.
  split.
  - rewrite (uf_bufsize _ _ (urc_recv_char_frame now o1 NUL)). exact Hs.
  - pose proof (urc_recv_char_NUL_stores now o1) as H. rewrite Hc in H.
    replace (S (n - 1)) with n in H by lia. exact H.
Qed.

(** The second way past the capacity: an end mark of the port that
    does not end a line, such as a colon, is counted without any check
    against the capacity. *)
Lemma urc_cnt_unchecked n now ch k :
  line_end ch = false -> strchr SPEC_URC_END_MARKS ch = true ->
  urc_cnt (urc_recv_process (at_obj_init [] n) now (repeat ch k)) = k.
Proof.
  intros Hq Hm. unfold urc_recv_process.
  change (urc_recv_timeout now (at_obj_init [] n)) with (at_obj_init [] n).
  destruct (urc_recv_chars_counted now ch k (at_obj_init [] n))
    as (_ & _ & Hc & _); try reflexivity; [exact Hq | left; exact Hm|].
  exact Hc.
Qed.

(** The response side stays inside the buffer when the chunks are
    single bytes, as the reader delivers them, and the buffer has at
    least two bytes. *)
Lemma resp_stores_in_bounds o r now c :
  resp o = Some r -> 2 <= bufsize r ->
  exists new,
    stores RECV_BUF (resp_recv_process o now [c]) = new ++ stores RECV_BUF o
    /\ Forall (fun i => i < bufsize r) new.
Proof.
  intros Hr Hb. unfold resp_recv_process. rewrite Hr.
  change (0 <? length [c]) with true. cbv iota.
  assert (Ha : exists new,
    stores RECV_BUF (resp_append r [c] o) = new ++ stores RECV_BUF o
    /\ Forall (fun i => i < bufsize r) new).
  { unfold resp_append, stores. simpl.
    destruct (bufsize r <=? rcv_cnt o + 1) eqn:E; simpl.
    - exists [1; 0]. split; [reflexivity|]. repeat constructor; lia.
    - apply Nat.leb_gt in E. exists [rcv_cnt o + 1; rcv_cnt o].
      split; [reflexivity|]. repeat constructor; lia. }
  destruct Ha as [new [Hs Hf]]. exists new. split; [|exact Hf].
  rewrite <- Hs. unfold stores.
  destruct (strstr (rcv_buf (resp_append r [c] o)) (matcher r));
    [reflexivity|].
  destruct (strstr (rcv_buf (resp_append r [c] o)) (lit "ERROR"));
    [reflexivity|].
  unfold resp_poll. destruct (at_istimeout _ _ _); [reflexivity|].
  destruct (suspend _); reflexivity.
Qed.

End UrcStores.

(** ** Commands and their replies *)

Lemma cstr_take_prefix (l : list ascii) : forall k,
  exists rest, cstr l = cstr (take k l) ++ rest.
Proof.
  induction l as [|c l IH]; intros k.
  - exists []. destruct k; reflexivity.
  - destruct k as [|k]; simpl.
    + eexists. reflexivity.
    + destruct (Ascii.eqb c NUL); [exists []; reflexivity|].
      destruct (IH k) as [rest ->]. exists rest. reflexivity.
Qed.

Lemma strstr_take txt k p :
  strstr txt p = false -> strstr (take k txt) p = false.
Proof.
  unfold strstr. intros H.
  destruct (cstr_take_prefix txt k) as [rest Hr]. rewrite Hr in H.
  destruct (occurs_in (cstr p) (cstr (take k txt))) eqn:E; [|reflexivity].
  rewrite (occurs_in_app _ _ rest E) in H. discriminate H.
Qed.

Section Reply.

Context {port : at_port}.

Lemma resp_append_holds r buf o acc :
  rcv_cnt o = length acc -> take (length acc) (rcv_buf o) = acc ->
  length acc + length buf < bufsize r -> bufsize r <= length (rcv_buf o) ->
  let o' := resp_append r buf o in
  rcv_cnt o' = length (acc ++ buf)
  /\ take (length (acc ++ buf)) (rcv_buf o') = acc ++ buf
  /\ cstr (rcv_buf o') = cstr (acc ++ buf).
Proof.
  intros Hc Ht Hfit Hmem. cbv zeta.
  assert (Hov : (bufsize r <=? rcv_cnt o + length buf) = false)
    by (apply Nat.leb_gt; lia).
  assert (Hx : cstr (rcv_buf (resp_append r buf o)) = cstr (acc ++ buf)).
  { rewrite resp_append_text by lia. unfold resp_text.
    rewrite Hov, Hc, Ht. reflexivity. }
  split; [|split; [|exact Hx]]; clear Hx;
    unfold resp_append; rewrite Hov;
    destruct (memcpy_rcv_take buf (rcv_cnt o) o) as (Hm & Hl & Hk);
    try lia; simpl; rewrite Hk, Hc, length_app.
  - reflexivity.
  - rewrite take_insert_ge by lia. rewrite <- Hc, Hm, Hc, Ht. reflexivity.
Qed.

(** Without an active spec the reader changes neither the recorded
    outcome nor the number of posts. *)
Lemma reader_idle o o' :
  one_post o o' -> resp o = None ->
  posts o' = posts o /\ resp o' = None /\ ret o' = ret o.
Proof.
  intros [(Hp & Hr & Ht)|(_ & _ & N)] H; [|congruence].
  repeat split; congruence.
Qed.

Lemma at_process_loop_reply r t_end rx : forall o acc,
  resp o = Some r -> suspend o = false ->
  rcv_cnt o = length acc -> take (length acc) (rcv_buf o) = acc ->
  length acc + length rx < bufsize r -> bufsize r <= length (rcv_buf o) ->
  (forall tc, In tc rx ->
     at_istimeout (fst tc) (resp_timer o) (timeout r) = false) ->
  strstr acc (matcher r) = false ->
  strstr (acc ++ map snd rx) (matcher r) = true ->
  strstr (acc ++ map snd rx) (lit "ERROR") = false ->
  let o' := at_process_loop o rx t_end in
  ret o' = AT_RET_OK /\ posts o' = S (posts o) /\ resp o' = None.
Proof.
  induction rx as [|[t c] rx IH];
    intros o acc Hr Hs Hc Ht Hfit Hmem Htime Hno Hok Herr; cbv zeta.
  - simpl in Hok. rewrite app_nil_r in Hok. congruence.
  - simpl.
    pose proof (urc_recv_process_frame o t [c]) as F.
    set (o1 := urc_recv_process o t [c]) in *.
    assert (Hr1 : resp o1 = Some r) by (rewrite (uf_resp _ _ F); exact Hr).
    assert (Hp1 : posts o1 = posts o).
    { unfold posts, gives. apply extends_count with (P := urc_side);
        [apply urc_side_not_give | apply (uf_log _ _ F)]. }
    simpl in Hfit.
    destruct (resp_append_holds r [c] o1 acc) as (Hc2 & Ht2 & Hx2);
      rewrite ?(uf_rcv_cnt _ _ F), ?(uf_rcv_buf _ _ F); simpl; try assumption;
      try lia.
    destruct (resp_append_keeps r [c] o1) as (Hpa & Hra & Hta).
    pose proof (resp_append_frame r [c] o1) as Fa.
    unfold resp_recv_process. rewrite Hr1.
    change (0 <? length [c]) with true. cbv iota.
    rewrite (strstr_cstr _ _ (matcher r) Hx2), (strstr_cstr _ _ (lit "ERROR") Hx2).
    destruct (strstr (acc ++ [c]) (matcher r)) eqn:Hm.
    + set (o2 := resp_notification AT_RET_OK (resp_append r [c] o1)).
      destruct (reader_idle o2 _ (at_process_loop_posts rx t_end o2) eq_refl)
        as (Hp3 & Hr3 & Ht3).
      rewrite Hp3, Hr3, Ht3. unfold o2, posts, gives, resp_notification.
      cbn [log ret emit set_resp set_ret count_ev is_give at_sem_eqb].
      unfold posts, gives in Hpa, Hp1. rewrite Hpa, Hp1. repeat split.
    + assert (He : strstr (acc ++ [c]) (lit "ERROR") = false).
      { replace (acc ++ [c]) with (take (length (acc ++ [c])) (acc ++ map snd ((t, c) :: rx))).
        - apply strstr_take. exact Herr.
        - simpl. change (c :: map snd rx) with ([c] ++ map snd rx).
          rewrite app_assoc. apply take_app_length. }
      rewrite He. unfold resp_poll.
      rewrite (rf_resp_timer _ _ Fa), (uf_resp_timer _ _ F).
      pose proof (Htime (t, c) (or_introl eq_refl)) as Hto. simpl in Hto.
      rewrite Hto.
      rewrite (rf_suspend _ _ Fa), (uf_suspend _ _ F), Hs.
      destruct (IH (resp_append r [c] o1) (acc ++ [c])) as (H1 & H2 & H3).
      * congruence.
      * rewrite (rf_suspend _ _ Fa), (uf_suspend _ _ F). exact Hs.
      * exact Hc2.
      * exact Ht2.
      * rewrite length_app. simpl. lia.
      * rewrite (rf_len _ _ Fa), (uf_rcv_buf _ _ F). exact Hmem.
      * intros tc Hin. rewrite (rf_resp_timer _ _ Fa), (uf_resp_timer _ _ F).
        apply Htime. right. exact Hin.
      * exact Hm.
      * rewrite <- app_assoc. exact Hok.
      * rewrite <- app_assoc. exact Herr.
      * rewrite H1, H2, H3, Hpa, Hp1. repeat split.
Qed.

Lemma put_string_keeps s : forall o,
  suspend (put_string s o) = suspend o /\ urc_cnt (put_string s o) = urc_cnt o
  /\ posts (put_string s o) = posts o.
Proof.
  induction s as [|c s IH]; intros o; simpl; [repeat split|].
  destruct (IH (emit (EvWrite [c]) o)) as (-> & -> & ->). repeat split.
Qed.

Lemma put_line_keeps s o :
  suspend (put_line s o) = suspend o /\ posts (put_line s o) = posts o.
Proof.
  unfold put_line.
  destruct (put_string_keeps [CR; LF] (put_string (cstr s) o)) as (H1 & _ & H2).
  destruct (put_string_keeps (cstr s) o) as (H3 & _ & H4).
  unfold posts, gives in *. simpl in *. split; congruence.
Qed.

(** The reply arrives in the first call of the reader after the
    command was sent. *)
Lemma wait_resp_reply o r now p more :
  suspend o = false -> rp_lock p = true ->
  length (rp_rx p) < bufsize r -> bufsize r <= length (recvbuf r) ->
  (forall tc, In tc (rp_rx p) -> at_istimeout (fst tc) now (timeout r) = false) ->
  strstr [] (matcher r) = false ->
  strstr (map snd (rp_rx p)) (matcher r) = true ->
  strstr (map snd (rp_rx p)) (lit "ERROR") = false ->
  fst (wait_resp o r now (p :: more)) = AT_RET_OK
  /\ posts (snd (wait_resp o r now (p :: more))) = S (posts o).
Proof.
  intros Hs Hl Hfit Hmem Htime Hne Hok Herr. unfold wait_resp.
  set (a := set_rcv_buf _ _).
  destruct (at_process_loop_reply r (rp_end p) (rp_rx p)
              (emit (EvTake recv_lock MAX_AT_LOCK_TIME) a) [])
    as (H1 & H2 & H3);
    [reflexivity | exact Hs | reflexivity | reflexivity | exact Hfit
    | exact Hmem | exact Htime | exact Hne | exact Hok | exact Herr |].
  assert (Hp : posts (at_process a p) = S (posts a)).
  { unfold at_process. rewrite Hl. unfold posts, gives in *. simpl in *.
    exact H2. }
  assert (Hr : ret (at_process a p) = AT_RET_OK).
  { unfold at_process. rewrite Hl. exact H1. }
  cbn [await_completed]. rewrite Hp.
  replace (posts a <? S (posts a)) with true
    by (symmetry; apply Nat.ltb_lt; lia).
  cbn [fst snd ret set_resp emit]. rewrite Hr. split; [reflexivity|].
  unfold posts, gives in *. simpl. exact Hp.
Qed.

(** The reader looks once, finds nothing and finds the time up. *)
Lemma wait_resp_timeout o r now p more :
  rp_lock p = true -> rp_rx p = [] ->
  at_istimeout (rp_end p) now (timeout r) = true ->
  fst (wait_resp o r now (p :: more)) = AT_RET_TIMEOUT
  /\ posts (snd (wait_resp o r now (p :: more))) = S (posts o).
Proof.
  intros Hl Hrx Hto. unfold wait_resp.
  set (a := set_rcv_buf _ _).
  set (a1 := emit (EvTake recv_lock MAX_AT_LOCK_TIME) a).
  pose proof (urc_recv_process_frame a1 (rp_end p) []) as F.
  assert (Hloop : at_process_loop a1 (rp_rx p) (rp_end p)
                  = resp_notification AT_RET_TIMEOUT
                      (urc_recv_process a1 (rp_end p) [])).
  { rewrite Hrx. simpl. unfold resp_recv_process.
    rewrite (uf_resp _ _ F). simpl. unfold resp_poll.
    rewrite (uf_resp_timer _ _ F). simpl. rewrite Hto. reflexivity. }
  assert (Hp1 : posts (urc_recv_process a1 (rp_end p) []) = posts o).
  { unfold posts, gives.
    rewrite (extends_count urc_side _ _ _ (urc_side_not_give completed)
               (uf_log _ _ F)). reflexivity. }
  assert (Hp : posts (at_process a p) = S (posts a)).
  { unfold at_process. rewrite Hl. fold a1. rewrite Hloop.
    unfold posts, gives in *. simpl. rewrite Hp1. reflexivity. }
  assert (Hr : ret (at_process a p) = AT_RET_TIMEOUT).
  { unfold at_process. rewrite Hl. fold a1. rewrite Hloop. reflexivity. }
  cbn [await_completed]. rewrite Hp.
  replace (posts a <? S (posts a)) with true
    by (symmetry; apply Nat.ltb_lt; lia).
  cbn [fst snd ret set_resp emit]. rewrite Hr. split; [reflexivity|].
  unfold posts, gives in *. simpl. exact Hp.
Qed.

Lemma at_do_cmd_waits o r cmd env :
  ce_send_lock env = true -> urc_cnt o = 0 ->
  let o1 := put_line cmd
              (set_busy true (emit (EvTake send_lock (timeout r)) o)) in
  at_do_cmd o (Some r) cmd env
  = Some (fst (wait_resp o1 r (ce_now env) (ce_reply env)),
          set_busy false
            (emit (EvGive send_lock)
               (snd (wait_resp o1 r (ce_now env) (ce_reply env))))).
Proof.
  intros Hl Hc. cbv zeta. unfold at_do_cmd. rewrite Hl. cbn [negb].
  assert (Hi : forall a passes, urc_cnt a = 0 -> await_urc_idle a passes = Some a).
  { intros a passes Ha. destruct passes; simpl; rewrite Ha; reflexivity. }
  rewrite Hi by exact Hc.
  destruct (wait_resp _ r (ce_now env) (ce_reply env)) as [res o']. reflexivity.
Qed.

(** C8: a call of [at_do_cmd] with a null response spec runs as the
    call with the spec made of the success token "OK", a buffer of 64
    bytes of its own and a timeout of 5000 ms.  So, when the lock is
    obtained and no URC is in flight: a reply of fewer than 64 bytes
    that contains "OK" and not "ERROR" and arrives before 5000 ms
    have passed gives Success; and when the reader finds nothing and
    5000 ms have passed, the outcome Timeout is posted. *)
Theorem at_do_cmd_null_spec o cmd env p more :
  at_do_cmd o None cmd env =
  at_do_cmd o
    (Some {| matcher := lit "OK"; recvbuf := repeat NUL 64; bufsize := 64;
             timeout := 5000 |})
    cmd env
  /\ (ce_send_lock env = true -> urc_cnt o = 0 -> suspend o = false ->
      ce_reply env = p :: more -> rp_lock p = true ->
      length (rp_rx p) < 64 ->
      (forall tc, In tc (rp_rx p) ->
         at_istimeout (fst tc) (ce_now env) 5000 = false) ->
      strstr (map snd (rp_rx p)) (lit "OK") = true ->
      strstr (map snd (rp_rx p)) (lit "ERROR") = false ->
      option_map fst (at_do_cmd o None cmd env) = Some AT_RET_OK
      /\ option_map (fun x => posts (snd x)) (at_do_cmd o None cmd env)
         = Some (S (posts o)))
  /\ (ce_send_lock env = true -> urc_cnt o = 0 ->
      ce_reply env = p :: more -> rp_lock p = true -> rp_rx p = [] ->
      at_istimeout (rp_end p) (ce_now env) 5000 = true ->
      option_map fst (at_do_cmd o None cmd env) = Some AT_RET_TIMEOUT
      /\ option_map (fun x => posts (snd x)) (at_do_cmd o None cmd env)
         = Some (S (posts o))).
Proof.
  split; [reflexivity|].
  change (at_do_cmd o None cmd env)
    with (at_do_cmd o (Some default_resp) cmd env).
  assert (Hbase : forall a,
            posts (put_line cmd
                     (set_busy true (emit (EvTake send_lock a) o)))
            = posts o).
  { intros a. destruct (put_line_keeps cmd
                (set_busy true (emit (EvTake send_lock a) o))) as [_ H].
    rewrite H. reflexivity. }
  split.
  - intros Hl Hc Hs Hre Hp Hlen Htime Hok Herr.
    rewrite (at_do_cmd_waits o default_resp cmd env Hl Hc). cbv zeta.
    rewrite Hre.
    destruct (wait_resp_reply
                (put_line cmd
                   (set_busy true
                      (emit (EvTake send_lock (timeout default_resp)) o)))
                default_resp (ce_now env) p more) as [H1 H2];
      [|exact Hp | exact Hlen | simpl; lia | exact Htime | reflexivity
       | exact Hok | exact Herr |].
    { destruct (put_line_keeps cmd
                  (set_busy true
                     (emit (EvTake send_lock (timeout default_resp)) o)))
        as [H _]. rewrite H. exact Hs. }
    cbn [option_map fst snd]. rewrite H1. split; [reflexivity|].
    rewrite <- (Hbase (timeout default_resp)), <- H2. reflexivity.
  - intros Hl Hc Hre Hp Hrx Hto.
    rewrite (at_do_cmd_waits o default_resp cmd env Hl Hc). cbv zeta.
    rewrite Hre.
    destruct (wait_resp_timeout
                (put_line cmd
                   (set_busy true
                      (emit (EvTake send_lock (timeout default_resp)) o)))
                default_resp (ce_now env) p more Hp Hrx Hto) as [H1 H2].
    cbn [option_map fst snd]. rewrite H1. split; [reflexivity|].
    rewrite <- (Hbase (timeout default_resp)), <- H2. reflexivity.
Qed.

(** C3 (as amended): when the send lock is not obtained within the
    bound, [at_do_cmd] returns [AT_RET_TIMEOUT] and leaves the
    controller and the log as they were: nothing was written to the
    transport.  A call that gets the lock and then waits in vain for
    the response returns the same code. *)
Theorem at_do_cmd_lock_failure o r cmd env env' :
  ce_send_lock env = false ->
  at_do_cmd o r cmd env = Some (AT_RET_TIMEOUT, o)
  /\ (ce_send_lock env' = true -> urc_cnt o = 0 -> ce_reply env' = [] ->
      option_map fst (at_do_cmd o r cmd env') = Some AT_RET_TIMEOUT).
Proof.
  intros H. split.
  - unfold at_do_cmd. rewrite H. reflexivity.
  - intros Hl Hc Hre.
    assert (Hs : forall r0,
              option_map fst (at_do_cmd o (Some r0) cmd env')
              = Some AT_RET_TIMEOUT).
    { intros r0. rewrite (at_do_cmd_waits o r0 cmd env' Hl Hc). cbv zeta.
      rewrite Hre. reflexivity. }
    destruct r as [r|]; [apply Hs|].
    change (at_do_cmd o None cmd env')
      with (at_do_cmd o (Some default_resp) cmd env').
    apply Hs.
Qed.

End Reply.

(** * Further properties of the engine *)

(** ** The URC table and the URC session *)

Lemma find_urc_scan_first tbl urc_buf :
  match find_urc_scan tbl urc_buf with
  | Some it =>
      exists pre post, tbl = pre ++ it :: post
        /\ strstr urc_buf (prefix it) = true
        /\ Forall (fun e => strstr urc_buf (prefix e) = false) pre
  | None => Forall (fun e => strstr urc_buf (prefix e) = false) tbl
  end.
Proof.
  induction tbl as [|e tbl IH]; simpl; [constructor|].
  destruct (strstr urc_buf (prefix e)) eqn:Ee.
  - exists [], tbl. repeat split; [exact Ee | constructor].
  - destruct (find_urc_scan tbl urc_buf) as [it|].
    + destruct IH as (pre & post & -> & Hit & Hpre).
      exists (e :: pre), post. repeat split; [exact Hit|].
      constructor; assumption.
    + constructor; assumption.
Qed.

Section UrcSession.

Context {port : at_port}.

(** X1: [find_urc_item] returns the first entry of the table whose
    prefix occurs in the buffer, and only when at least two bytes were
    received; it returns none when fewer were received or no prefix
    occurs. *)
Theorem find_urc_item_first o urc_buf size :
  match find_urc_item o urc_buf size with
  | Some it =>
      2 <= size
      /\ exists pre post, utc_tbl o = pre ++ it :: post
           /\ strstr urc_buf (prefix it) = true
           /\ Forall (fun e => strstr urc_buf (prefix e) = false) pre
  | None =>
      size < 2
      \/ Forall (fun e => strstr urc_buf (prefix e) = false) (utc_tbl o)
  end.
Proof.
  unfold find_urc_item. destruct (size <? 2) eqn:Hs.
  - left. apply Nat.ltb_lt. exact Hs.
  - apply Nat.ltb_ge in Hs.
    pose proof (find_urc_scan_first (utc_tbl o) urc_buf) as H.
    destruct (find_urc_scan (utc_tbl o) urc_buf) as [it|].
    + split; [exact Hs | exact H].
    + right. exact H.
Qed.

Lemma strchr_NUL s : strchr s NUL = true.
Proof. unfold strchr. apply orb_true_r. Qed.

Lemma urc_recv_char_NUL_idle now o :
  urc_cnt (urc_recv_char now o NUL) = 0
  /\ urc_item (urc_recv_char now o NUL) = None.
Proof.
  unfold urc_recv_char. rewrite strchr_NUL. simpl.
  destruct (urc_item o) as [it|] eqn:Ei.
  - simpl. rewrite Ei, strchr_NUL. split; reflexivity.
  - destruct (find_urc_item _ _ _) as [it|]; simpl.
    + rewrite strchr_NUL. split; reflexivity.
    + destruct (_ && _); split; reflexivity.
Qed.

(** X2: a NUL byte always ends the URC session: whatever was received
    and whatever entry was matched before, after a chunk that ends
    with a NUL the fill count is zero and no entry is matched. *)
Theorem urc_NUL_ends_session o now buf :
  let o' := urc_recv_process o now (buf ++ [NUL]) in
  urc_cnt o' = 0 /\ urc_item o' = None.
Proof.
  cbv zeta. unfold urc_recv_process. rewrite fold_left_app. simpl.
  apply urc_recv_char_NUL_idle.
Qed.

(** X3: a matched entry stays until it is dispatched.  With an entry
    matched, one more character either leaves the entry matched and
    calls no handler, or ends the session: with a call of the handler
    of that entry when the character is one of its end marks, or
    without a call when the character is no end mark of the port and
    the buffer is full.  The table is not looked at again. *)
Theorem urc_match_sticky now o ch it :
  urc_item o = Some it ->
  let o' := urc_recv_char now o ch in
  (urc_item o' = Some it /\ urc_cnt o' = S (urc_cnt o)
   /\ urc_calls o' = urc_calls o)
  \/ (urc_item o' = None /\ urc_cnt o' = 0
      /\ strchr (end_mark it) ch = true
      /\ exists line, urc_calls o' = (it, line, S (urc_cnt o)) :: urc_calls o)
  \/ (urc_item o' = None /\ urc_cnt o' = 0
      /\ urc_bufsize o <= S (urc_cnt o)
      /\ urc_calls o' = urc_calls o).
Proof.
  intros Hi. cbv zeta. unfold urc_recv_char, urc_calls.
  destruct (strchr SPEC_URC_END_MARKS ch || Ascii.eqb ch NUL).
  - simpl. rewrite Hi. simpl. rewrite Hi.
    destruct (strchr (end_mark it) ch) eqn:He; simpl.
    + right. left. repeat split. eexists. reflexivity.
    + left. repeat split. exact Hi.
  - simpl. destruct (urc_bufsize o <=? S (urc_cnt o)) eqn:Hb; simpl.
    + right. right. apply Nat.leb_le in Hb. repeat split. exact Hb.
    + left. repeat split. exact Hi.
Qed.

(** X4: a stream without end marks stays inside the URC buffer: when
    the fill count is below the capacity and no byte of the chunk is
    an end mark of the port or a NUL, every store is below the
    capacity, the fill count is below the capacity afterwards and no
    handler is called. *)
Theorem urc_plain_stream_in_bounds o now buf :
  urc_cnt o < urc_bufsize o ->
  Forall (fun ch => strchr SPEC_URC_END_MARKS ch || Ascii.eqb ch NUL = false) buf ->
  let o' := urc_recv_process o now buf in
  urc_cnt o' < urc_bufsize o
  /\ urc_calls o' = urc_calls o
  /\ exists new, stores URC_BUF o' = new ++ stores URC_BUF o
       /\ Forall (fun i => i < urc_bufsize o) new.
Proof.
  intros Hc Hb. cbv zeta. unfold urc_recv_process.
  assert (H0 : let a := urc_recv_timeout now o in
               urc_bufsize a = urc_bufsize o /\ urc_cnt a < urc_bufsize o
               /\ urc_calls a = urc_calls o
               /\ exists new, stores URC_BUF a = new ++ stores URC_BUF o
                    /\ Forall (fun i => i < urc_bufsize o) new).
  { cbv zeta. unfold urc_recv_timeout, urc_calls, stores.
    destruct (_ && _); simpl.
    - destruct (2 <? urc_cnt o); simpl;
        (repeat split; [lia|]; exists [urc_cnt o]; split; [reflexivity|];
         constructor; [exact Hc | constructor]).
    - repeat split; [exact Hc|]. exists []. split; [reflexivity | constructor]. }
  revert H0. generalize (urc_recv_timeout now o).
  induction Hb as [|ch buf Hch _ IH]; intros a (Hs & Ha & Hl & new & Hn & Hf);
    simpl.
  - repeat split; try assumption. exists new. split; assumption.
  - apply IH. unfold urc_recv_char. rewrite Hch. unfold urc_calls, stores in *.
    simpl. rewrite Hs.
    destruct (urc_bufsize o <=? S (urc_cnt a)) eqn:Hov; simpl.
    + repeat split; [exact Hs | lia | exact Hl|].
      exists (urc_cnt a :: new). rewrite Hn. split; [reflexivity|].
      constructor; assumption.
    + apply Nat.leb_gt in Hov. repeat split; [exact Hs | exact Hov | exact Hl|].
      exists (urc_cnt a :: new). rewrite Hn. split; [reflexivity|].
      constructor; assumption.
Qed.

(** X5: a line end that arrives after the idle timeout dispatches
    nothing: when bytes are pending and the timeout has passed, a
    line end that is an end mark of the port leaves the session idle
    and no handler is called, whatever was received or matched
    before. *)
Theorem urc_timeout_drops_line o now ch :
  0 < urc_cnt o ->
  at_istimeout now (urc_timer o) MAX_URC_RECV_TIMEOUT = true ->
  strchr SPEC_URC_END_MARKS ch || Ascii.eqb ch NUL = true ->
  line_end ch = true ->
  let o' := urc_recv_process o now [ch] in
  urc_cnt o' = 0 /\ urc_item o' = None /\ urc_calls o' = urc_calls o.
Proof.
  intros Hc Ht Hm Hl. cbv zeta. unfold urc_recv_process, urc_recv_timeout.
  apply Nat.ltb_lt in Hc. rewrite Hc, Ht. simpl.
  unfold urc_recv_char. rewrite Hm. unfold line_end in Hl.
  unfold urc_calls, find_urc_item. simpl. rewrite Hl.
  destruct (2 <? urc_cnt o); simpl; repeat split.
Qed.

End UrcSession.

Section UrcLines.

Context {port : at_port}.

Lemma urc_unmatched_char now o o1 t c rest full :
  (forall k e, In e (utc_tbl o) -> strstr (take k full) (prefix e) = false) ->
  length full < urc_bufsize o <= length (urc_buf o) ->
  t ++ c :: rest = full -> line_end c = false ->
  urc_holds o1 t /\ urc_item o1 = None /\ urc_calls o1 = urc_calls o
  /\ utc_tbl o1 = utc_tbl o /\ urc_bufsize o1 = urc_bufsize o
  /\ length (urc_buf o1) = length (urc_buf o) ->
  let o2 := urc_recv_char now o1 c in
  urc_holds o2 (t ++ [c]) /\ urc_item o2 = None /\ urc_calls o2 = urc_calls o
  /\ utc_tbl o2 = utc_tbl o /\ urc_bufsize o2 = urc_bufsize o
  /\ length (urc_buf o2) = length (urc_buf o).
Proof.
  intros Hno Hroom Hfull Hq (Hh & Hi & Hc & Htbl & Hsz & Hlen). cbv zeta.
  assert (Hl : S (length t) <= length full).
  { rewrite <- Hfull, length_app. simpl. lia. }
  assert (Htake : t ++ [c] = take (S (length t)) full).
  { rewrite <- Hfull. change (c :: rest) with ([c] ++ rest).
    rewrite app_assoc. symmetry. apply take_app_length'.
    rewrite length_app. simpl. lia. }
  pose proof (urc_recv_char_frame now o1 c) as F.
  rewrite (uf_tbl _ _ F), (uf_bufsize _ _ F), (uf_len _ _ F).
  destruct (strchr SPEC_URC_END_MARKS c || Ascii.eqb c NUL) eqn:Hm.
  - pose proof (urc_recv_char_mark now o1 c t Hh ltac:(lia) Hm) as H.
    cbv zeta in H. rewrite Hi, Htbl in H.
    rewrite (find_urc_scan_none (utc_tbl o) (t ++ [c])) in H
      by (intros e He; rewrite Htake; apply Hno, He).
    replace (if S (length t) <? 2 then None else None)
      with (@None urc_item_t) in H by (destruct (_ <? _); reflexivity).
    rewrite Hq in H. destruct H as (H1 & H2 & H3).
    repeat split; try apply H1; try assumption. congruence.
  - pose proof (urc_recv_char_plain now o1 c t Hh ltac:(lia) Hm) as H.
    cbv zeta in H. rewrite Hsz in H.
    destruct (urc_bufsize o <=? S (length t)) eqn:Hb;
      [apply Nat.leb_le in Hb; lia|].
    destruct H as (H1 & H2 & H3).
    repeat split; try apply H1; try assumption; congruence.
Qed.

Lemma urc_unmatched_chars now o full cs : forall o1 t rest,
  (forall k e, In e (utc_tbl o) -> strstr (take k full) (prefix e) = false) ->
  length full < urc_bufsize o <= length (urc_buf o) ->
  t ++ cs ++ rest = full -> Forall (fun c => line_end c = false) cs ->
  urc_holds o1 t /\ urc_item o1 = None /\ urc_calls o1 = urc_calls o
  /\ utc_tbl o1 = utc_tbl o /\ urc_bufsize o1 = urc_bufsize o
  /\ length (urc_buf o1) = length (urc_buf o) ->
  let o2 := fold_left (urc_recv_char now) cs o1 in
  urc_holds o2 (t ++ cs) /\ urc_item o2 = None /\ urc_calls o2 = urc_calls o
  /\ utc_tbl o2 = utc_tbl o /\ urc_bufsize o2 = urc_bufsize o
  /\ length (urc_buf o2) = length (urc_buf o).
Proof.
  induction cs as [|c cs IH]; intros o1 t rest Hno Hroom Hfull Hq H; simpl.
  - rewrite app_nil_r. exact H.
  - inversion Hq as [|? ? Hq1 Hq2]; subst.
    replace (t ++ c :: cs) with ((t ++ [c]) ++ cs)
      by (rewrite <- app_assoc; reflexivity).
    apply IH with (rest := rest); try assumption.
    + rewrite <- app_assoc. reflexivity.
    + eapply urc_unmatched_char with (rest := cs ++ rest); eauto.
Qed.

(** X6: a line that no table entry recognises is dropped.  From the
    idle session, a line without line ends in which no prefix of the
    table occurs, followed by a line end that is an end mark of the
    port, and which fits the buffer, leaves the session idle and
    calls no handler. *)
Theorem urc_unrecognized_line o now line ch :
  urc_cnt o = 0 -> urc_item o = None ->
  (forall e, In e (utc_tbl o) -> strstr (line ++ [ch]) (prefix e) = false) ->
  Forall (fun c => line_end c = false) line ->
  line_end ch = true ->
  strchr SPEC_URC_END_MARKS ch || Ascii.eqb ch NUL = true ->
  length line + 1 < urc_bufsize o <= length (urc_buf o) ->
  let o' := urc_recv_process o now (line ++ [ch]) in
  urc_cnt o' = 0 /\ urc_item o' = None /\ urc_calls o' = urc_calls o.
Proof.
  intros Hc Hi Hno Hq Hl Hm Hroom. cbv zeta.
  unfold urc_recv_process, urc_recv_timeout. rewrite Hc. simpl.
  rewrite fold_left_app. simpl.
  assert (Hno' : forall k e, In e (utc_tbl o) ->
                   strstr (take k (line ++ [ch])) (prefix e) = false)
    by (intros k e He; apply strstr_take, Hno, He).
  assert (Hroom' : length (line ++ [ch]) < urc_bufsize o <= length (urc_buf o))
    by (rewrite length_app; simpl; lia).
  destruct (urc_unmatched_chars now o (line ++ [ch]) line o [] [ch]
              Hno' Hroom' eq_refl Hq) as (Hh & Hi8 & Hc8 & Htbl & Hsz & Hlen).
  { unfold urc_holds. rewrite Hc. repeat split; auto. }
  simpl in Hh. set (o1 := fold_left (urc_recv_char now) line o) in *.
  pose proof (urc_recv_char_mark now o1 ch line Hh ltac:(lia) Hm) as H.
  cbv zeta in H. rewrite Hi8, Htbl in H.
  rewrite (find_urc_scan_none (utc_tbl o) (line ++ [ch]) Hno) in H.
  replace (if S (length line) <? 2 then None else None)
    with (@None urc_item_t) in H by (destruct (_ <? _); reflexivity).
  rewrite Hl in H. destruct H as (H1 & H2 & H3).
  repeat split; try assumption. congruence.
Qed.

(** X7: what a handler is given.  While the URC buffer holds the text
    [t] with room for two more bytes, and a matched entry is an entry
    of the table whose prefix occurs in [t], one more character calls
    at most one handler; the handler called belongs to an entry of the
    table, the text it is given is [t] with the character, the
    character is one of the end marks of the entry and the prefix of
    the entry occurs in the text.  An entry that is matched afterwards
    is again an entry of the table whose prefix occurs in the text. *)
Theorem urc_handler_text now o ch t :
  urc_holds o t -> S (length t) < length (urc_buf o) ->
  (forall it, urc_item o = Some it ->
     In it (utc_tbl o) /\ strstr t (prefix it) = true) ->
  let o' := urc_recv_char now o ch in
  (urc_calls o' = urc_calls o
   \/ exists it, urc_calls o' = (it, t ++ [ch], S (length t)) :: urc_calls o
        /\ In it (utc_tbl o)
        /\ strchr (end_mark it) ch = true
        /\ strstr (t ++ [ch]) (prefix it) = true)
  /\ (forall it, urc_item o' = Some it ->
        urc_holds o' (t ++ [ch]) /\ In it (utc_tbl o)
        /\ strstr (t ++ [ch]) (prefix it) = true).
Proof.
  intros Hh Hroom Hinv. cbv zeta.
  assert (Hgrow : forall p, strstr t p = true -> strstr (t ++ [ch]) p = true).
  { intros p Hp. destruct (strstr (t ++ [ch]) p) eqn:E; [reflexivity|].
    apply (strstr_take _ (length t)) in E.
    rewrite take_app_length in E. congruence. }
  destruct (strchr SPEC_URC_END_MARKS ch || Ascii.eqb ch NUL) eqn:Hm.
  - pose proof (urc_recv_char_mark now o ch t Hh Hroom Hm) as H.
    cbv zeta in H.
    assert (Hfound : forall x,
              match urc_item o with
              | Some x0 => Some x0
              | None => if S (length t) <? 2 then None
                        else find_urc_scan (utc_tbl o) (t ++ [ch])
              end = Some x ->
              In x (utc_tbl o) /\ strstr (t ++ [ch]) (prefix x) = true).
    { intros x Hx. destruct (urc_item o) as [x0|] eqn:Ei.
      - injection Hx as <-. destruct (Hinv x0 eq_refl) as [H1 H2].
        split; [exact H1 | apply Hgrow, H2].
      - destruct (S (length t) <? 2); [discriminate|].
        pose proof (find_urc_scan_first (utc_tbl o) (t ++ [ch])) as Hf.
        rewrite Hx in Hf. destruct Hf as (pre & post & -> & Hs & _).
        split; [|exact Hs]. apply in_or_app. right. left. reflexivity. }
    destruct (match urc_item o with
              | Some x0 => Some x0
              | None => if S (length t) <? 2 then None
                        else find_urc_scan (utc_tbl o) (t ++ [ch])
              end) as [x|] eqn:Ef.
    + destruct (Hfound x eq_refl) as [Hin Hs].
      destruct (strchr (end_mark x) ch) eqn:He.
      * destruct H as (H1 & H2 & H3). split.
        -- right. exists x. repeat split; assumption.
        -- intros it Hit. congruence.
      * destruct H as (H1 & H2 & H3). split; [left; exact H3|].
        intros it Hit. rewrite H2 in Hit. injection Hit as <-.
        repeat split; try apply H1; assumption.
    + destruct (line_end ch); destruct H as (H1 & H2 & H3);
        (split; [left; exact H3 | intros it Hit; congruence]).
  - pose proof (urc_recv_char_plain now o ch t Hh ltac:(lia) Hm) as H.
    cbv zeta in H.
    destruct (urc_bufsize o <=? S (length t)); destruct H as (H1 & H2 & H3);
      (split; [left; exact H3|]); intros it Hit; [congruence|].
    rewrite H2 in Hit. destruct (Hinv it Hit) as [Hin Hs].
    repeat split; try apply H1; [exact Hin | apply Hgrow, Hs].
Qed.

End UrcLines.

(** ** The response side *)

Lemma memcpy_rcv_stores buf : forall i o,
  stores RECV_BUF (memcpy_rcv i buf o)
  = rev (seq i (length buf)) ++ stores RECV_BUF o.
Proof.
  induction buf as [|c buf IH]; intros i o; simpl; [reflexivity|].
  rewrite IH. unfold stores. simpl. rewrite <- app_assoc. reflexivity.
Qed.

Lemma memcpy_rcv_cnt buf : forall i o,
  rcv_cnt (memcpy_rcv i buf o) = rcv_cnt o.
Proof.
  induction buf as [|c buf IH]; intros i o; simpl; [reflexivity|].
  rewrite IH. reflexivity.
Qed.

Section Response.

Context {port : at_port}.

Lemma resp_append_view r buf o :
  length buf < bufsize r -> bufsize r <= length (rcv_buf o) ->
  let o' := resp_append r buf o in
  rcv_cnt o' = length (resp_text r buf o)
  /\ take (length (resp_text r buf o)) (rcv_buf o') = resp_text r buf o.
Proof.
  intros Hfit Hmem. cbv zeta. unfold resp_append, resp_text.
  destruct (bufsize r <=? rcv_cnt o + length buf) eqn:Hov.
  - destruct (memcpy_rcv_take buf 0 (emit EvDebug (set_rcv_cnt 0 o)))
      as (Hm & Hl & Hk); [simpl; lia|].
    simpl in *. rewrite Hk. simpl. split; [reflexivity|].
    rewrite take_insert_ge by lia. exact Hm.
  - apply Nat.leb_gt in Hov.
    destruct (memcpy_rcv_take buf (rcv_cnt o) o) as (Hm & Hl & Hk); [lia|].
    simpl. rewrite Hk, length_app, length_take_le by lia.
    split; [reflexivity|]. rewrite take_insert_ge by lia. exact Hm.
Qed.

(** X8: the outcome of a chunk.  For a chunk that fits the buffer,
    [resp_recv_process] decides in this order: the success token
    occurs in the text: Success; "ERROR" occurs: ProtocolError; the
    timeout of the spec has passed: Timeout; the controller is
    suspended: Aborted; each of these posts the signal once and clears
    the spec.  Otherwise nothing is posted, the spec stays and the
    buffer holds the text. *)
Theorem resp_outcome o r now buf :
  resp o = Some r ->
  0 < length buf < bufsize r ->
  bufsize r <= length (rcv_buf o) ->
  let txt := resp_text r buf o in
  let o' := resp_recv_process o now buf in
  let ended := fun res =>
    ret o' = res /\ resp o' = None /\ posts o' = S (posts o) in
  if strstr txt (matcher r) then ended AT_RET_OK
  else if strstr txt (lit "ERROR") then ended AT_RET_ERROR
  else if at_istimeout now (resp_timer o) (timeout r) then ended AT_RET_TIMEOUT
  else if suspend o then ended AT_RET_ABORT
  else resp o' = Some r /\ posts o' = posts o /\ ret o' = ret o
       /\ rcv_cnt o' = length txt /\ take (length txt) (rcv_buf o') = txt.
Proof.
  intros Hr [Hpos Hfit] Hmem. cbv zeta. unfold resp_recv_process. rewrite Hr.
  apply Nat.ltb_lt in Hpos. rewrite Hpos.
  pose proof (resp_append_text r buf o Hfit Hmem) as Hx.
  rewrite (strstr_cstr _ _ (matcher r) Hx), (strstr_cstr _ _ (lit "ERROR") Hx).
  destruct (resp_append_keeps r buf o) as (Hp & Hr' & Ht).
  destruct (resp_append_view r buf o Hfit Hmem) as (Hc & Hv).
  pose proof (resp_append_frame r buf o) as F.
  assert (Hend : forall res,
            ret (resp_notification res (resp_append r buf o)) = res
            /\ resp (resp_notification res (resp_append r buf o)) = None
            /\ posts (resp_notification res (resp_append r buf o))
               = S (posts o)).
  { intros res. repeat split. unfold posts, gives, resp_notification in *.
    cbn [log emit set_resp set_ret count_ev is_give at_sem_eqb].
    rewrite Hp. reflexivity. }
  destruct (strstr (resp_text r buf o) (matcher r)); [apply Hend|].
  destruct (strstr (resp_text r buf o) (lit "ERROR")); [apply Hend|].
  unfold resp_poll. rewrite (rf_resp_timer _ _ F), (rf_suspend _ _ F).
  destruct (at_istimeout now (resp_timer o) (timeout r)); [apply Hend|].
  destruct (suspend o); [apply Hend|].
  repeat split; try assumption. congruence.
Qed.

(** X9: a poll without data does not look at the buffer.  With no
    bytes in the chunk the buffer and the fill count stay as they are;
    the command ends with Timeout when the timeout of the spec has
    passed, else with Aborted when the controller is suspended, and
    goes on otherwise.  It cannot end with Success or ProtocolError. *)
Theorem resp_poll_without_data o r now :
  resp o = Some r ->
  let o' := resp_recv_process o now [] in
  rcv_buf o' = rcv_buf o /\ rcv_cnt o' = rcv_cnt o
  /\ (if at_istimeout now (resp_timer o) (timeout r) then
        ret o' = AT_RET_TIMEOUT /\ resp o' = None /\ posts o' = S (posts o)
      else if suspend o then
        ret o' = AT_RET_ABORT /\ resp o' = None /\ posts o' = S (posts o)
      else o' = o).
Proof.
  intros Hr. cbv zeta. unfold resp_recv_process. rewrite Hr. simpl.
  unfold resp_poll.
  destruct (at_istimeout now (resp_timer o) (timeout r)); [repeat split|].
  destruct (suspend o); repeat split.
Qed.

(** X10: the response side stays inside its buffer.  For every chunk
    shorter than the capacity of the spec, whatever the fill count
    was, every store of [resp_recv_process] is below the capacity,
    and after a chunk with data the fill count is below it too. *)
Theorem resp_chunk_in_bounds o r now buf :
  resp o = Some r -> length buf < bufsize r ->
  let o' := resp_recv_process o now buf in
  (0 < length buf -> rcv_cnt o' < bufsize r)
  /\ exists new, stores RECV_BUF o' = new ++ stores RECV_BUF o
       /\ Forall (fun i => i < bufsize r) new.
Proof.
  intros Hr Hfit. cbv zeta. unfold resp_recv_process. rewrite Hr.
  assert (Hn : forall res a,
            stores RECV_BUF (resp_notification res a) = stores RECV_BUF a
            /\ rcv_cnt (resp_notification res a) = rcv_cnt a)
    by (intros; split; reflexivity).
  assert (Hq : forall a,
            stores RECV_BUF (resp_poll r now a) = stores RECV_BUF a
            /\ rcv_cnt (resp_poll r now a) = rcv_cnt a).
  { intros a. unfold resp_poll. destruct (at_istimeout _ _ _); [apply Hn|].
    destruct (suspend a); [apply Hn | split; reflexivity]. }
  destruct (0 <? length buf) eqn:Hpos.
  - assert (Ha : rcv_cnt (resp_append r buf o) < bufsize r
                 /\ exists new,
                      stores RECV_BUF (resp_append r buf o)
                      = new ++ stores RECV_BUF o
                      /\ Forall (fun i => i < bufsize r) new).
    { assert (Hs : forall a,
                rcv_cnt a + length buf < bufsize r ->
                let a' := store_rcv (rcv_cnt a + length buf) NUL
                            (set_rcv_cnt (rcv_cnt a + length buf)
                               (memcpy_rcv (rcv_cnt a) buf a)) in
                rcv_cnt a' < bufsize r
                /\ exists new,
                     stores RECV_BUF a' = new ++ stores RECV_BUF a
                     /\ Forall (fun i => i < bufsize r) new).
      { intros a Hlt. cbv zeta. split; [exact Hlt|].
        exists ((rcv_cnt a + length buf)
                  :: rev (seq (rcv_cnt a) (length buf))).
        split.
        - unfold stores at 1. simpl.
          fold (stores RECV_BUF (memcpy_rcv (rcv_cnt a) buf a)).
          rewrite memcpy_rcv_stores. reflexivity.
        - constructor; [exact Hlt|]. apply List.Forall_forall. intros i Hi.
          apply in_rev, in_seq in Hi. lia. }
      unfold resp_append.
      destruct (bufsize r <=? rcv_cnt o + length buf) eqn:Hov.
      - rewrite (memcpy_rcv_cnt buf).
        apply (Hs (emit EvDebug (set_rcv_cnt 0 o))). simpl. lia.
      - apply Nat.leb_gt in Hov. rewrite (memcpy_rcv_cnt buf).
        apply (Hs o). exact Hov. }
    destruct Ha as (Hc & new & Hs & Hf).
    assert (Hgoal : forall a,
              stores RECV_BUF a = stores RECV_BUF (resp_append r buf o) ->
              rcv_cnt a = rcv_cnt (resp_append r buf o) ->
              (0 < length buf -> rcv_cnt a < bufsize r)
              /\ exists new0, stores RECV_BUF a = new0 ++ stores RECV_BUF o
                   /\ Forall (fun i => i < bufsize r) new0).
    { intros a H1 H2. split; [intros _; rewrite H2; exact Hc|].
      exists new. rewrite H1. split; assumption. }
    destruct (strstr _ (matcher r)); [apply Hgoal; apply Hn|].
    destruct (strstr _ (lit "ERROR")); [apply Hgoal; apply Hn|].
    apply Hgoal; apply Hq.
  - apply Nat.ltb_ge in Hpos. split; [lia|]. exists [].
    split; [apply Hq | constructor].
Qed.

End Response.

(** ** The background reader and the locks *)

Lemma extends_weaken (P Q : event -> bool) l l' :
  (forall e, P e = true -> Q e = true) -> extends P l l' -> extends Q l l'.
Proof.
  intros H. induction 1 as [|e l' He _ IH]; [apply ext_same|].
  apply ext_cons; [apply H, He | exact IH].
Qed.

Lemma extends_written P l l' :
  (forall e, P e = true -> forall d, e <> EvWrite d) ->
  extends P l l' -> written_of l' = written_of l.
Proof.
  intros H. induction 1 as [|e l' He _ IH]; [reflexivity|].
  destruct e as [| d | | | |]; simpl; try exact IH.
  exfalso. apply (H _ He d). reflexivity.
Qed.

Lemma path_side_no_write e : path_side e = true -> forall d, e <> EvWrite d.
Proof. destruct e as [[]| | | | |[]]; cbn; intros H d; congruence. Qed.

Lemma path_side_no_take s e : path_side e = true -> is_take s e = false.
Proof. destruct e as [[]| | | | |[]]; cbn; congruence. Qed.

Lemma path_side_no_lock_give s e :
  s <> completed -> path_side e = true -> is_give s e = false.
Proof.
  intros Hs. destruct e as [[]| | | | |[]]; cbn; try congruence.
  destruct s; cbn; congruence.
Qed.

Lemma reader_keeps_refl o : reader_keeps o o.
Proof. constructor; reflexivity || lia. Qed.

Lemma reader_keeps_trans o1 o2 o3 :
  reader_keeps o1 o2 -> reader_keeps o2 o3 -> reader_keeps o1 o3.
Proof. intros [] []. constructor; try congruence. lia. Qed.

Section Reader.

Context {port : at_port}.

Lemma at_process_loop_path rx t_end : forall o,
  extends path_side (log o) (log (at_process_loop o rx t_end))
  /\ busy (at_process_loop o rx t_end) = busy o
  /\ suspend (at_process_loop o rx t_end) = suspend o.
Proof.
  assert (Hstep : forall o t buf,
            extends path_side (log o)
              (log (resp_recv_process (urc_recv_process o t buf) t buf))
            /\ busy (resp_recv_process (urc_recv_process o t buf) t buf) = busy o
            /\ suspend (resp_recv_process (urc_recv_process o t buf) t buf)
               = suspend o).
  { intros o t buf.
    pose proof (urc_recv_process_frame o t buf) as F1.
    pose proof (resp_recv_process_frame (urc_recv_process o t buf) t buf) as F2.
    split; [|split].
    - eapply extends_trans.
      + eapply extends_weaken; [|apply (uf_log _ _ F1)].
        intros e He. unfold path_side. rewrite He. reflexivity.
      + eapply extends_weaken; [|apply (rf_log _ _ F2)].
        intros e He. unfold path_side. rewrite He. apply orb_true_r.
    - rewrite (rf_busy _ _ F2). apply (uf_busy _ _ F1).
    - rewrite (rf_suspend _ _ F2). apply (uf_suspend _ _ F1). }
  induction rx as [|[t c] rx IH]; intros o; simpl.
  - apply Hstep.
  - destruct (Hstep o t [c]) as (H1 & H2 & H3).
    destruct (IH (resp_recv_process (urc_recv_process o t [c]) t [c]))
      as (H4 & H5 & H6).
    split; [eapply extends_trans; eassumption|]. split; congruence.
Qed.

Lemma at_process_keeps o p :
  reader_keeps o (at_process o p)
  /\ takes recv_lock (at_process o p)
     = takes recv_lock o + (if rp_lock p then 1 else 0)
  /\ gives recv_lock (at_process o p)
     = gives recv_lock o + (if rp_lock p then 1 else 0).
Proof.
  unfold at_process. destruct (rp_lock p).
  - set (a := emit (EvTake recv_lock MAX_AT_LOCK_TIME) o).
    destruct (at_process_loop_path (rp_rx p) (rp_end p) a) as (He & Hb & Hs).
    set (b := at_process_loop a (rp_rx p) (rp_end p)) in *.
    assert (Ht : forall s, takes s b = takes s a).
    { intros s. unfold takes. eapply extends_count; [|exact He].
      apply path_side_no_take. }
    assert (Hg : forall s, s <> completed -> gives s b = gives s a).
    { intros s Hn. unfold gives. eapply extends_count; [|exact He].
      intros e. apply path_side_no_lock_give, Hn. }
    assert (Hw : written b = written a).
    { unfold written. eapply extends_written; [|exact He].
      apply path_side_no_write. }
    pose proof (Ht send_lock) as Ht1. pose proof (Ht recv_lock) as Ht2.
    pose proof (Ht completed) as Ht3.
    pose proof (Hg send_lock ltac:(discriminate)) as Hg1.
    pose proof (Hg recv_lock ltac:(discriminate)) as Hg2.
    unfold takes, gives, written in *. simpl in *.
    split; [constructor; unfold takes, gives, written; simpl;
            try assumption; lia|]. lia.
  - split; [apply reader_keeps_refl|]. lia.
Qed.

Lemma reader_fold_keeps passes : forall o,
  reader_keeps o (fold_left at_process passes o).
Proof.
  induction passes as [|p ps IH]; intros o; simpl.
  - apply reader_keeps_refl.
  - eapply reader_keeps_trans; [apply at_process_keeps | apply IH].
Qed.

Lemma await_urc_idle_run passes : forall o o1,
  await_urc_idle o passes = Some o1 ->
  urc_cnt o1 = 0 /\ reader_keeps o o1 /\ one_post o o1.
Proof.
  induction passes as [|p ps IH]; intros o o1; simpl.
  - destruct (urc_cnt o =? 0) eqn:E; [|discriminate].
    intros [= <-]. apply Nat.eqb_eq in E.
    split; [exact E|]. split; [apply reader_keeps_refl | apply one_post_refl].
  - destruct (urc_cnt o =? 0) eqn:E.
    + intros [= <-]. apply Nat.eqb_eq in E.
      split; [exact E|]. split; [apply reader_keeps_refl | apply one_post_refl].
    + intros H. destruct (IH _ _ H) as (H1 & H2 & H3).
      split; [exact H1|]. split.
      * eapply reader_keeps_trans; [apply at_process_keeps | exact H2].
      * eapply one_post_trans; [apply at_process_posts | exact H3].
Qed.

Lemma await_completed_run passes : forall o,
  reader_keeps o (snd (await_completed o passes))
  /\ one_post o (snd (await_completed o passes))
  /\ posts (snd (await_completed o passes))
     = posts o + (if fst (await_completed o passes) then 1 else 0).
Proof.
  induction passes as [|p ps IH]; intros o; simpl.
  - split; [apply reader_keeps_refl|]. split; [apply one_post_refl | lia].
  - pose proof (at_process_posts o p) as Hp.
    destruct (posts o <? posts (at_process o p)) eqn:E; simpl.
    + apply Nat.ltb_lt in E. split; [apply at_process_keeps|].
      split; [exact Hp|]. destruct Hp as [(H & _)|(H & _)]; lia.
    + apply Nat.ltb_ge in E. destruct (IH (at_process o p)) as (H1 & H2 & H3).
      split; [eapply reader_keeps_trans; [apply at_process_keeps | exact H1]|].
      split; [eapply one_post_trans; [exact Hp | exact H2]|].
      rewrite H3. destruct Hp as [(H & _)|(H & _)]; lia.
Qed.

(** X11: the background reader and the locks.  A call of [at_process]
    that does not get the receive lock leaves the controller as it
    is; a call that gets it gives it back exactly once.  No call
    takes or gives the send lock, waits on the completion signal,
    writes to the transport or changes the busy and suspend flags. *)
Theorem at_process_locks o p :
  let o' := at_process o p in
  let n := if rp_lock p then 1 else 0 in
  (rp_lock p = false -> o' = o)
  /\ takes recv_lock o' = takes recv_lock o + n
  /\ gives recv_lock o' = gives recv_lock o + n
  /\ takes send_lock o' = takes send_lock o
  /\ gives send_lock o' = gives send_lock o
  /\ takes completed o' = takes completed o
  /\ written o' = written o
  /\ busy o' = busy o /\ suspend o' = suspend o.
Proof.
  cbv zeta. destruct (at_process_keeps o p) as ([] & Ht & Hg).
  split; [intros H; unfold at_process; rewrite H; reflexivity|].
  repeat split; assumption.
Qed.

End Reader.

(** ** Command execution *)

Lemma put_string_run s : forall o,
  written (put_string s o) = written o ++ s
  /\ (forall x, takes x (put_string s o) = takes x o)
  /\ (forall x, gives x (put_string s o) = gives x o)
  /\ resp (put_string s o) = resp o
  /\ busy (put_string s o) = busy o.
Proof.
  induction s as [|c s IH]; intros o; simpl.
  - rewrite app_nil_r. repeat split.
  - destruct (IH (emit (EvWrite [c]) o)) as (H1 & H2 & H3 & H4 & H5).
    rewrite H1, H4, H5. split; [|split; [|split; [|split]]].
    + unfold written. simpl. rewrite <- app_assoc. reflexivity.
    + intros x. rewrite H2. reflexivity.
    + intros x. rewrite H3. reflexivity.
    + reflexivity.
    + reflexivity.
Qed.

Lemma put_line_run s o :
  written (put_line s o) = written o ++ cstr s ++ [CR; LF]
  /\ (forall x, takes x (put_line s o) = takes x o)
  /\ (forall x, gives x (put_line s o) = gives x o)
  /\ resp (put_line s o) = resp o
  /\ busy (put_line s o) = busy o.
Proof.
  unfold put_line.
  destruct (put_string_run (cstr s) o) as (H1 & H2 & H3 & H4 & H5).
  destruct (put_string_run [CR; LF] (put_string (cstr s) o))
    as (G1 & G2 & G3 & G4 & G5).
  split; [|split; [|split; [|split]]].
  - unfold written in *. cbn [log emit written_of]. rewrite G1, H1.
    rewrite <- app_assoc. reflexivity.
  - intros x. unfold takes in *. cbn [log emit count_ev is_take].
    rewrite G2, H2. reflexivity.
  - intros x. unfold gives in *. cbn [log emit count_ev is_give].
    rewrite G3, H3. reflexivity.
  - cbn [resp emit]. congruence.
  - cbn [busy emit]. congruence.
Qed.

Section Command.

Context {port : at_port}.

Lemma wait_resp_run o r now passes :
  let o' := snd (wait_resp o r now passes) in
  (busy o' = busy o /\ suspend o' = suspend o /\ written o' = written o)
  /\ (takes send_lock o' = takes send_lock o
      /\ gives send_lock o' = gives send_lock o)
  /\ takes recv_lock o' + gives recv_lock o
     = gives recv_lock o' + takes recv_lock o
  /\ takes completed o' + posts o = posts o' + takes completed o
  /\ posts o' <= S (posts o)
  /\ resp o' = None.
Proof.
  cbv zeta. unfold wait_resp. set (a := set_rcv_buf _ _).
  destruct (await_completed_run passes a) as ([] & _ & Hp).
  destruct (await_completed a passes) as [ok o4]. cbn [fst snd] in *.
  subst a. unfold posts, takes, gives, written in *.
  destruct ok; simpl in *; repeat split; try assumption; lia.
Qed.


(** X13: what a command puts on the wire.  A call of [at_do_cmd] that
    returns has written the command text up to its terminator and
    then a carriage return and a line feed, byte by byte and nothing
    else, when it obtained the send lock, and nothing at all when it
    did not. *)
Theorem at_do_cmd_sends_line o r cmd env res o' :
  at_do_cmd o r cmd env = Some (res, o') ->
  written o'
  = written o ++ (if ce_send_lock env then cstr cmd ++ [CR; LF] else []).
Proof.
  unfold at_do_cmd. intros H. destruct (ce_send_lock env); cbn [negb] in H.
  - set (r0 := match r with Some r1 => r1 | None => default_resp end) in *.
    set (o0 := set_busy true (emit (EvTake send_lock (timeout r0)) o)) in *.
    destruct (await_urc_idle o0 (ce_idle env)) as [o1|] eqn:Ei;
      [|discriminate].
    destruct (await_urc_idle_run _ _ _ Ei) as (_ & K1 & _).
    destruct (put_line_run cmd o1) as (L1 & _).
    pose proof (wait_resp_run (put_line cmd o1) r0 (ce_now env) (ce_reply env))
      as W.
    destruct (wait_resp (put_line cmd o1) r0 (ce_now env) (ce_reply env))
      as [res' o3].
    cbv zeta in W. cbn [snd] in W. destruct W as ((_ & _ & W3) & _).
    injection H as <- <-.
    pose proof (rk_written _ _ K1) as W1.
    unfold written in *. cbn [log set_busy emit written_of] in *.
    rewrite W3, L1, W1. reflexivity.
  - injection H as <- <-. rewrite app_nil_r. reflexivity.
Qed.

Lemma at_process_loop_error r t_end rx : forall o acc,
  resp o = Some r ->
  rcv_cnt o = length acc -> take (length acc) (rcv_buf o) = acc ->
  length acc + length rx < bufsize r -> bufsize r <= length (rcv_buf o) ->
  (forall tc, In tc rx ->
     at_istimeout (fst tc) (resp_timer o) (timeout r) = false) ->
  suspend o = false ->
  strstr acc (lit "ERROR") = false ->
  strstr (acc ++ map snd rx) (lit "ERROR") = true ->
  strstr (acc ++ map snd rx) (matcher r) = false ->
  let o' := at_process_loop o rx t_end in
  ret o' = AT_RET_ERROR /\ posts o' = S (posts o) /\ resp o' = None.
Proof.
  induction rx as [|[t c] rx IH];
    intros o acc Hr Hc Ht Hfit Hmem Htime Hs Hno Herr Hok; cbv zeta.
  - cbn [map] in Herr. rewrite app_nil_r in Herr. congruence.
  - simpl.
    pose proof (urc_recv_process_frame o t [c]) as F.
    set (o1 := urc_recv_process o t [c]) in *.
    assert (Hr1 : resp o1 = Some r) by (rewrite (uf_resp _ _ F); exact Hr).
    assert (Hp1 : posts o1 = posts o).
    { unfold posts, gives. apply extends_count with (P := urc_side);
        [apply urc_side_not_give | apply (uf_log _ _ F)]. }
    simpl in Hfit.
    destruct (resp_append_holds r [c] o1 acc) as (Hc2 & Ht2 & Hx2);
      rewrite ?(uf_rcv_cnt _ _ F), ?(uf_rcv_buf _ _ F); simpl; try assumption;
      try lia.
    destruct (resp_append_keeps r [c] o1) as (Hpa & Hra & Hta).
    pose proof (resp_append_frame r [c] o1) as Fa.
    unfold resp_recv_process. rewrite Hr1.
    change (0 <? length [c]) with true. cbv iota.
    rewrite (strstr_cstr _ _ (matcher r) Hx2), (strstr_cstr _ _ (lit "ERROR") Hx2).
    assert (Hm : strstr (acc ++ [c]) (matcher r) = false).
    { replace (acc ++ [c])
        with (take (length (acc ++ [c])) (acc ++ map snd ((t, c) :: rx))).
      - apply strstr_take. exact Hok.
      - simpl. change (c :: map snd rx) with ([c] ++ map snd rx).
        rewrite app_assoc. apply take_app_length. }
    rewrite Hm.
    destruct (strstr (acc ++ [c]) (lit "ERROR")) eqn:He.
    + set (o2 := resp_notification AT_RET_ERROR (resp_append r [c] o1)).
      destruct (reader_idle o2 _ (at_process_loop_posts rx t_end o2) eq_refl)
        as (Hp3 & Hr3 & Ht3).
      rewrite Hp3, Hr3, Ht3. unfold o2, posts, gives, resp_notification.
      cbn [log ret emit set_resp set_ret count_ev is_give at_sem_eqb].
      unfold posts, gives in Hpa, Hp1. rewrite Hpa, Hp1. repeat split.
    + unfold resp_poll.
      rewrite (rf_resp_timer _ _ Fa), (uf_resp_timer _ _ F).
      pose proof (Htime (t, c) (or_introl eq_refl)) as Hto. simpl in Hto.
      rewrite Hto.
      rewrite (rf_suspend _ _ Fa), (uf_suspend _ _ F), Hs.
      destruct (IH (resp_append r [c] o1) (acc ++ [c])) as (H1 & H2 & H3).
      * congruence.
      * exact Hc2.
      * exact Ht2.
      * rewrite length_app. simpl. lia.
      * rewrite (rf_len _ _ Fa), (uf_rcv_buf _ _ F). exact Hmem.
      * intros tc Hin. rewrite (rf_resp_timer _ _ Fa), (uf_resp_timer _ _ F).
        apply Htime. right. exact Hin.
      * rewrite (rf_suspend _ _ Fa), (uf_suspend _ _ F). exact Hs.
      * exact He.
      * rewrite <- app_assoc. exact Herr.
      * rewrite <- app_assoc. exact Hok.
      * rewrite H1, H2, H3, Hpa, Hp1. repeat split.
Qed.

(** X14: an ERROR reply ends the command with [AT_RET_ERROR].  A
    command sent on an idle, not suspended controller, whose reply
    arrives in time in one reader call, fits the response buffer,
    contains "ERROR" and nowhere the awaited text, returns
    [AT_RET_ERROR]; the completion signal is posted once and taken
    once by the caller. *)
Theorem at_do_cmd_error_reply o r cmd env p more :
  ce_send_lock env = true -> urc_cnt o = 0 -> suspend o = false ->
  resp o = None ->
  ce_reply env = p :: more -> rp_lock p = true ->
  length (rp_rx p) < bufsize r -> bufsize r <= length (recvbuf r) ->
  (forall tc, In tc (rp_rx p) ->
     at_istimeout (fst tc) (ce_now env) (timeout r) = false) ->
  strstr (map snd (rp_rx p)) (lit "ERROR") = true ->
  strstr (map snd (rp_rx p)) (matcher r) = false ->
  match at_do_cmd o (Some r) cmd env with
  | Some (res, o') =>
      res = AT_RET_ERROR /\ posts o' = S (posts o)
      /\ takes completed o' = S (takes completed o)
  | None => False
  end.
Proof.
  intros Hl Hc Hs Hr Hrep Hlk Hfit Hmem Htime Herr Hok.
  rewrite (at_do_cmd_waits o r cmd env Hl Hc). cbv zeta. rewrite Hrep.
  set (o1 := put_line cmd _).
  assert (Hs1 : suspend o1 = suspend o /\ posts o1 = posts o
                /\ takes completed o1 = takes completed o).
  { unfold o1. destruct (put_line_keeps cmd
      (set_busy true (emit (EvTake send_lock (timeout r)) o))) as (A & B).
    destruct (put_line_run cmd
      (set_busy true (emit (EvTake send_lock (timeout r)) o))) as (_ & C & _).
    rewrite A, B, C. repeat split. }
  destruct Hs1 as (Hs1 & Hp1 & Ht1).
  unfold wait_resp. set (a := set_rcv_buf _ _).
  destruct (at_process_loop_error r (rp_end p) (rp_rx p)
              (emit (EvTake recv_lock MAX_AT_LOCK_TIME) a) [])
    as (H1 & H2 & H3);
    [reflexivity | reflexivity | reflexivity | exact Hfit | exact Hmem
    | exact Htime | change (suspend o1 = false); congruence | reflexivity
    | exact Herr | exact Hok |].
  assert (Hp : posts (at_process a p) = S (posts a)).
  { unfold at_process. rewrite Hlk. unfold posts, gives in *. simpl in *.
    exact H2. }
  assert (Hre : ret (at_process a p) = AT_RET_ERROR).
  { unfold at_process. rewrite Hlk. exact H1. }
  destruct (at_process_keeps a p) as (K & _).
  pose proof (rk_completed_takes _ _ K) as Kt.
  cbn [await_completed]. rewrite Hp.
  replace (posts a <? S (posts a)) with true
    by (symmetry; apply Nat.ltb_lt; lia).
  cbn [fst snd ret set_resp emit]. rewrite Hre. split; [reflexivity|].
  unfold posts, gives, takes in *. simpl in *. lia.
Qed.

Lemma at_process_poll a r p :
  resp a = Some r -> rp_lock p = true -> rp_rx p = [] ->
  at_process a p
  = emit (EvGive recv_lock)
      (resp_poll r (rp_end p)
         (urc_recv_process (emit (EvTake recv_lock MAX_AT_LOCK_TIME) a)
            (rp_end p) [])).
Proof.
  intros Hr Hlk Hrx. unfold at_process. rewrite Hlk, Hrx.
  cbn [at_process_loop]. cbv zeta. unfold resp_recv_process.
  rewrite (uf_resp _ _ (urc_recv_process_frame _ (rp_end p) [])).
  cbn [resp emit]. rewrite Hr. reflexivity.
Qed.

Lemma wait_resp_poll o r now p :
  rp_lock p = true -> rp_rx p = [] ->
  at_istimeout (rp_end p) now (timeout r) = false ->
  if suspend o
  then fst (wait_resp o r now [p]) = AT_RET_ABORT
       /\ posts (snd (wait_resp o r now [p])) = S (posts o)
  else fst (wait_resp o r now [p]) = AT_RET_TIMEOUT
       /\ posts (snd (wait_resp o r now [p])) = posts o.
Proof.
  intros Hlk Hrx Hto. unfold wait_resp. set (a := set_rcv_buf _ _).
  cbn [await_completed]. rewrite (at_process_poll a r p eq_refl Hlk Hrx).
  pose proof (urc_recv_process_frame
                (emit (EvTake recv_lock MAX_AT_LOCK_TIME) a) (rp_end p) [])
    as F.
  set (c := urc_recv_process _ (rp_end p) []) in *.
  assert (Hpc : posts c = posts o).
  { change (posts o)
      with (posts (emit (EvTake recv_lock MAX_AT_LOCK_TIME) a)).
    unfold posts, gives. apply extends_count with (P := urc_side);
      [apply urc_side_not_give | apply (uf_log _ _ F)]. }
  assert (Hsc : suspend c = suspend o) by apply (uf_suspend _ _ F).
  assert (Htc : resp_timer c = now) by apply (uf_resp_timer _ _ F).
  assert (Hrc : ret c = AT_RET_TIMEOUT) by apply (uf_ret _ _ F).
  assert (Hpa : posts a = posts o) by reflexivity.
  clearbody c. clear F. unfold resp_poll. rewrite Htc, Hto, Hsc.
  destruct (suspend o).
  - assert (Hpn : posts (emit (EvGive recv_lock)
                           (resp_notification AT_RET_ABORT c)) = S (posts c))
      by reflexivity.
    rewrite Hpa, Hpn, Hpc.
    replace (posts o <? S (posts o)) with true
      by (symmetry; apply Nat.ltb_lt; lia).
    split; [reflexivity|].
    cbn [snd]. unfold posts, gives in *. simpl. rewrite Hpc. reflexivity.
  - assert (Hpn : posts (emit (EvGive recv_lock) c) = posts c) by reflexivity.
    rewrite Hpa, Hpn, Hpc, Nat.ltb_irrefl.
    split; [exact Hrc|].
    cbn [snd]. unfold posts, gives in *. simpl. exact Hpc.
Qed.

(** X15: suspending aborts the command, and the flag does not count.
    On a suspended controller the reader's first poll without data
    before the response time-out ends the command with
    [AT_RET_ABORT].  After [at_resume], also when [at_suspend] was
    called twice before, the same poll ends nothing: the wait runs
    out, the result is the time-out that was preset, and no
    completion has been posted. *)
Theorem at_suspend_aborts o r cmd env p :
  ce_send_lock env = true -> urc_cnt o = 0 ->
  ce_reply env = [p] -> rp_lock p = true -> rp_rx p = [] ->
  at_istimeout (rp_end p) (ce_now env) (timeout r) = false ->
  match at_do_cmd (at_suspend o) (Some r) cmd env with
  | Some (res, o') => res = AT_RET_ABORT /\ posts o' = S (posts o)
  | None => False
  end
  /\ match at_do_cmd (at_resume (at_suspend (at_suspend o))) (Some r) cmd env
     with
     | Some (res, o') => res = AT_RET_TIMEOUT /\ posts o' = posts o
     | None => False
     end.
Proof.
  intros Hl Hc Hrep Hlk Hrx Hto.
  assert (Hline : forall o0 : at_obj_t,
            let o1 := put_line cmd
                        (set_busy true
                           (emit (EvTake send_lock (timeout r)) o0)) in
            suspend o1 = suspend o0 /\ posts o1 = posts o0).
  { intros o0. apply (put_line_keeps cmd
      (set_busy true (emit (EvTake send_lock (timeout r)) o0))). }
  split.
  - rewrite (at_do_cmd_waits (at_suspend o) r cmd env Hl Hc). cbv zeta.
    rewrite Hrep. destruct (Hline (at_suspend o)) as (Hs1 & Hp1).
    pose proof (wait_resp_poll (put_line cmd
                  (set_busy true
                     (emit (EvTake send_lock (timeout r)) (at_suspend o))))
                  r (ce_now env) p Hlk Hrx Hto) as W.
    rewrite Hs1 in W. cbn [suspend at_suspend set_suspend] in W.
    destruct W as (W1 & W2). split; [exact W1|].
    rewrite Hp1 in W2. unfold posts, gives in *. simpl in *. exact W2.
  - rewrite (at_do_cmd_waits (at_resume (at_suspend (at_suspend o))) r cmd env
               Hl Hc). cbv zeta.
    rewrite Hrep.
    destruct (Hline (at_resume (at_suspend (at_suspend o)))) as (Hs1 & Hp1).
    pose proof (wait_resp_poll (put_line cmd
                  (set_busy true
                     (emit (EvTake send_lock (timeout r))
                        (at_resume (at_suspend (at_suspend o))))))
                  r (ce_now env) p Hlk Hrx Hto) as W.
    rewrite Hs1 in W. cbn [suspend at_resume set_suspend] in W.
    destruct W as (W1 & W2). split; [exact W1|].
    rewrite Hp1 in W2. unfold posts, gives in *. simpl in *. exact W2.
Qed.

End Command.

(** ** Waiting for a reply inside a work session *)

Lemma store_at_length {A} (data : list A) : forall pos buf,
  length (store_at pos data buf) = length buf.
Proof.
  induction data as [|c data IH]; intros pos buf; simpl; [reflexivity|].
  rewrite IH. apply length_insert.
Qed.

Lemma store_at_take {A} (data : list A) : forall pos buf,
  pos + length data <= length buf ->
  take (pos + length data) (store_at pos data buf) = take pos buf ++ data.
Proof.
  induction data as [|c data IH]; intros pos buf Hlen; simpl in *.
  - rewrite Nat.add_0_r, app_nil_r. reflexivity.
  - replace (pos + S (length data)) with (S pos + length data) by lia.
    rewrite IH by (rewrite length_insert; lia).
    rewrite (take_S_r _ _ c) by (apply list_lookup_insert_eq; lia).
    rewrite take_insert_ge by lia. rewrite <- app_assoc. reflexivity.
Qed.

Lemma urc_side_no_take s e : urc_side e = true -> is_take s e = false.
Proof. destruct e as [[]| | | | |]; simpl; congruence. Qed.

Lemma urc_side_no_write e : urc_side e = true -> forall d, e <> EvWrite d.
Proof. destruct e as [[]| | | | |]; simpl; intros H d; congruence. Qed.

Lemma urc_frame_debug o : urc_frame o (emit EvDebug o).
Proof.
  constructor; try reflexivity.
  simpl. apply ext_cons; [reflexivity | apply ext_same].
Qed.

Section WaitRecv.

Context {port : at_port}.

Lemma wait_recv_loop_frame resp timer tmo turns : forall o lc res lc' o',
  wait_recv_loop o resp timer tmo lc turns = Some (res, lc', o') ->
  urc_frame o o'.
Proof.
  induction turns as [|t ts IH]; intros o lc res lc' o'; cbn [wait_recv_loop];
    [discriminate|].
  destruct (negb _); [intros H; inversion H; subst; apply urc_frame_refl|].
  unfold at_work_read. cbv zeta.
  set (data := take (64 - lb_cnt lc) (rt_avail t)).
  pose proof (urc_recv_process_frame o (rt_read t) data) as F.
  set (buf := <[lb_cnt lc + length data:=NUL]> _).
  destruct (0 <? length data).
  - destruct (strstr buf resp); [intros H; inversion H; subst; exact F|].
    destruct (strstr buf (lit "ERROR")); [intros H; inversion H; subst; exact F|].
    intros H. eapply urc_frame_trans; [exact F | eapply IH, H].
  - intros H. eapply urc_frame_trans; [exact F | eapply IH, H].
Qed.

(** X16: what [wait_recv] does not touch.  A wait inside a work
    session acts on the URC side only: it posts and takes no
    semaphore, writes nothing to the transport, and leaves the
    response buffer, its count, the armed response, the recorded
    outcome and the busy and suspend flags as they are.  Its result
    is returned, not recorded in the controller. *)
Theorem wait_recv_frame o resp tmo stack timer turns res lc o' :
  wait_recv o resp tmo stack timer turns = Some (res, lc, o') ->
  urc_frame o o'
  /\ written o' = written o
  /\ (forall s, takes s o' = takes s o /\ gives s o' = gives s o)
  /\ stores RECV_BUF o' = stores RECV_BUF o.
Proof.
  unfold wait_recv.
  destruct (wait_recv_loop _ _ _ _ _ _) as [[[res1 lc1] o1]|] eqn:E;
    [|discriminate].
  intros H; inversion H; subst; clear H.
  assert (F : urc_frame o (emit EvDebug o1)).
  { eapply urc_frame_trans;
      [eapply wait_recv_loop_frame, E | apply urc_frame_debug]. }
  pose proof (uf_log _ _ F) as L.
  split; [exact F|]. split; [|split].
  - unfold written. eapply extends_written; [apply urc_side_no_write | exact L].
  - intros s. unfold takes, gives. split.
    + eapply extends_count; [apply urc_side_no_take | exact L].
    + eapply extends_count; [apply urc_side_not_give | exact L].
  - unfold stores. revert L. generalize (log (emit EvDebug o1)).
    induction 1 as [|e l' He _ IH]; [reflexivity|].
    destruct e as [[]| | | | |]; simpl in *; congruence.
Qed.

Lemma wait_recv_loop_bounds resp timer tmo turns : forall o lc res lc' o',
  wait_recv_loop o resp timer tmo lc turns = Some (res, lc', o') ->
  length (lb_buf lc) = 64 -> lb_cnt lc <= 64 ->
  (lb_over lc = true <-> lb_cnt lc = 64) ->
  length (lb_buf lc') = 64 /\ lb_cnt lc' <= 64
  /\ (lb_over lc' = true <-> lb_cnt lc' = 64)
  /\ lb_cnt lc' <= lb_cnt lc + length (offered turns).
Proof.
  induction turns as [|t ts IH]; intros o lc res lc' o'; cbn [wait_recv_loop];
    [discriminate|].
  unfold offered. cbn [map concat]. rewrite length_app.
  fold (offered ts).
  destruct (negb _).
  { intros H H1 H2 H3. inversion H; subst. repeat split; try tauto; lia. }
  unfold at_work_read. cbv zeta.
  set (data := take (64 - lb_cnt lc) (rt_avail t)).
  assert (Hd : length data <= 64 - lb_cnt lc /\ length data <= length (rt_avail t)).
  { unfold data. rewrite length_take. lia. }
  set (buf := <[lb_cnt lc + length data:=NUL]> _).
  set (lc1 := {| lb_buf := buf; lb_cnt := _; lb_over := _ |}).
  intros H H1 H2 H3.
  assert (I1 : 0 < length data -> length (lb_buf lc1) = 64 /\ lb_cnt lc1 <= 64
               /\ (lb_over lc1 = true <-> lb_cnt lc1 = 64)
               /\ lb_cnt lc1 <= lb_cnt lc + length (rt_avail t)).
  { intros Hpos. unfold lc1, buf. cbn [lb_buf lb_cnt lb_over].
    rewrite length_insert, store_at_length.
    split; [exact H1|]. split; [lia|]. split; [|lia].
    rewrite orb_true_iff, Nat.leb_le. split.
    - intros [Ho|Hc]; [apply H3 in Ho|]; lia.
    - intros Hc. right. lia. }
  destruct (0 <? length data) eqn:Hpos.
  - apply Nat.ltb_lt in Hpos. destruct (I1 Hpos) as (A & B & C & D).
    destruct (strstr buf resp).
    { injection H as _ <- _. repeat split; try tauto; lia. }
    destruct (strstr buf (lit "ERROR")).
    { injection H as _ <- _. repeat split; try tauto; lia. }
    destruct (IH _ _ _ _ _ H A B C) as (A' & B' & C' & D').
    repeat split; try tauto; lia.
  - destruct (IH _ _ _ _ _ H H1 H2 H3) as (A' & B' & C' & D').
    repeat split; try tauto; lia.
Qed.

(** X17: the 64 bytes of [wait_recv].  The count of received bytes
    never exceeds 64 nor the number of bytes the transport offered,
    and the buffer keeps its size; the terminator that follows the
    received bytes is stored behind the last cell of the buffer
    exactly when the count has reached 64.  So a wait that is offered
    fewer than 64 bytes stays inside its buffer. *)
Theorem wait_recv_bounds o resp tmo stack timer turns res lc o' :
  wait_recv o resp tmo stack timer turns = Some (res, lc, o') ->
  length stack = 64 ->
  length (lb_buf lc) = 64 /\ lb_cnt lc <= 64
  /\ lb_cnt lc <= length (offered turns)
  /\ (lb_over lc = true <-> lb_cnt lc = 64).
Proof.
  unfold wait_recv.
  destruct (wait_recv_loop _ _ _ _ _ _) as [[[res1 lc1] o1]|] eqn:E;
    [|discriminate].
  intros H Hs; inversion H; subst; clear H.
  destruct (wait_recv_loop_bounds _ _ _ _ _ _ _ _ _ E) as (A & B & C & D);
    cbn [lb_buf lb_cnt lb_over]; try assumption; try lia.
  cbn [lb_cnt] in D. repeat split; try tauto; lia.
Qed.

Lemma recv_view_step lc acc d :
  recv_view lc acc -> length (acc ++ d) < 64 ->
  let buf := <[lb_cnt lc + length d:=NUL]> (store_at (lb_cnt lc) d (lb_buf lc)) in
  recv_view {| lb_buf := buf; lb_cnt := lb_cnt lc + length d;
               lb_over := lb_over lc || (64 <=? lb_cnt lc + length d) |}
    (acc ++ d)
  /\ cstr buf = cstr (acc ++ d).
Proof.
  intros (Hc & Ht & Hl & Ho) Hfit. cbv zeta. rewrite length_app in Hfit.
  assert (Hs : take (lb_cnt lc + length d) (store_at (lb_cnt lc) d (lb_buf lc))
               = acc ++ d).
  { rewrite store_at_take by lia. rewrite Hc, Ht. reflexivity. }
  split.
  - unfold recv_view. cbn [lb_buf lb_cnt lb_over].
    rewrite length_app, length_insert, store_at_length, <- Hc.
    split; [reflexivity|]. split; [|split; [exact Hl|]].
    + rewrite take_insert_ge by lia. exact Hs.
    + rewrite Ho. apply Nat.leb_gt. lia.
  - rewrite cstr_insert_NUL by (rewrite store_at_length; lia).
    rewrite Hs. reflexivity.
Qed.

Lemma wait_recv_loop_quiet resp timer tmo rest quiet : forall o lc acc,
  in_time timer tmo quiet = true -> recv_view lc acc ->
  length (acc ++ offered quiet) < 64 ->
  strstr (acc ++ offered quiet) resp = false ->
  strstr (acc ++ offered quiet) (lit "ERROR") = false ->
  exists o2 lc2,
    wait_recv_loop o resp timer tmo lc (quiet ++ rest)
    = wait_recv_loop o2 resp timer tmo lc2 rest
    /\ recv_view lc2 (acc ++ offered quiet).
Proof.
  induction quiet as [|t ts IH]; intros o lc acc Hin Hv Hfit Hr He.
  - exists o, lc. unfold offered. simpl. rewrite app_nil_r. split; [reflexivity|exact Hv].
  - unfold offered in *. cbn [map concat] in *. fold (offered ts) in *.
    rewrite app_assoc in *.
    cbn [in_time forallb] in Hin. apply andb_true_iff in Hin.
    destruct Hin as [Ht Hin]. fold (in_time timer tmo ts) in Hin.
    cbn [app wait_recv_loop]. rewrite Ht. cbn [negb].
    unfold at_work_read. cbv zeta.
    assert (Hlen : length ((acc ++ rt_avail t) ++ offered ts)
                   = lb_cnt lc + length (rt_avail t) + length (offered ts)).
    { rewrite !length_app. destruct Hv as (Hc & _). rewrite Hc. reflexivity. }
    pose proof Hfit as Hfit'. rewrite Hlen in Hfit'.
    rewrite take_ge by lia.
    destruct (0 <? length (rt_avail t)) eqn:Hpos.
    + destruct (recv_view_step lc acc (rt_avail t) Hv) as (Hv1 & Hx).
      { rewrite length_app. destruct Hv as (Hc & _). rewrite <- Hc. lia. }
      rewrite (strstr_cstr _ _ resp Hx), (strstr_cstr _ _ (lit "ERROR") Hx).
      assert (Hp : forall p, strstr ((acc ++ rt_avail t) ++ offered ts) p = false ->
                   strstr (acc ++ rt_avail t) p = false).
      { intros p Hf.
        rewrite <- (take_app_length (acc ++ rt_avail t) (offered ts)).
        apply strstr_take, Hf. }
      rewrite (Hp _ Hr), (Hp _ He).
      apply IH; assumption.
    + apply Nat.ltb_ge in Hpos.
      assert (Hnil : rt_avail t = []).
      { destruct (rt_avail t); [reflexivity | simpl in Hpos; lia]. }
      rewrite Hnil, app_nil_r in *.
      apply IH; assumption.
Qed.

(** X18: the reply of a wait, success before error.  While the text
    received so far contains neither the awaited string nor "ERROR",
    [wait_recv] goes on reading.  With the first chunk after which
    the text, all inside the buffer, contains one of them it returns:
    [AT_RET_OK] when the awaited string is there, also when "ERROR"
    is there as well, and [AT_RET_ERROR] otherwise.  The buffer then
    holds the text received, terminated. *)
Theorem wait_recv_reply o resp tmo stack timer quiet t rest :
  length stack = 64 ->
  in_time timer tmo (quiet ++ [t]) = true ->
  let txt := offered (quiet ++ [t]) in
  length txt < 64 -> rt_avail t <> [] ->
  strstr (offered quiet) resp = false ->
  strstr (offered quiet) (lit "ERROR") = false ->
  strstr txt resp || strstr txt (lit "ERROR") = true ->
  match wait_recv o resp tmo stack timer (quiet ++ t :: rest) with
  | Some (res, lc, _) =>
      res = (if strstr txt resp then AT_RET_OK else AT_RET_ERROR)
      /\ cstr (lb_buf lc) = cstr txt /\ lb_cnt lc = length txt
      /\ lb_over lc = false
  | None => False
  end.
Proof.
  intros Hs Hin txt Hfit Hne Hr He Hm. unfold wait_recv.
  assert (Htxt : txt = offered quiet ++ rt_avail t).
  { unfold txt, offered. rewrite map_app, concat_app. simpl.
    rewrite app_nil_r. reflexivity. }
  unfold in_time in Hin. rewrite forallb_app in Hin.
  apply andb_true_iff in Hin. destruct Hin as [Hq Ht]. simpl in Ht.
  rewrite andb_true_r in Ht.
  set (lc0 := {| lb_buf := stack; lb_cnt := 0; lb_over := false |}).
  assert (Hv0 : recv_view lc0 []) by (repeat split; exact Hs).
  destruct (wait_recv_loop_quiet resp timer tmo (t :: rest) quiet o lc0 [])
    as (o2 & lc2 & Heq & Hv2);
    [exact Hq | exact Hv0 | simpl; rewrite Htxt, length_app in Hfit; lia
    | exact Hr | exact He |].
  rewrite Heq. cbn [app] in Hv2. cbn [wait_recv_loop]. rewrite Ht. cbn [negb].
  unfold at_work_read. cbv zeta.
  assert (Hc2 : lb_cnt lc2 = length (offered quiet)) by apply Hv2.
  rewrite Htxt, length_app in Hfit.
  rewrite take_ge by lia.
  assert (Hpos : (0 <? length (rt_avail t)) = true).
  { apply Nat.ltb_lt. destruct (rt_avail t); [congruence | simpl; lia]. }
  rewrite Hpos.
  destruct (recv_view_step lc2 (offered quiet) (rt_avail t) Hv2) as (Hv3 & Hx).
  { rewrite length_app. lia. }
  rewrite (strstr_cstr _ _ resp Hx), (strstr_cstr _ _ (lit "ERROR") Hx).
  rewrite <- Htxt in *. destruct Hv3 as (A & _ & _ & D).
  destruct (strstr txt resp).
  - repeat split; assumption.
  - cbn [orb] in Hm. rewrite Hm. repeat split; assumption.
Qed.

(** X19: the time-out of a wait.  When the elapsed time, taken modulo
    2^32 as the C code computes it, has reached the bound at a loop
    test, after turns that brought neither the awaited string nor
    "ERROR", [wait_recv] returns [AT_RET_TIMEOUT] with what it has
    received and reads nothing more; with a bound of 0 it returns at
    the first test and the controller has only seen the debug
    output. *)
Theorem wait_recv_times_out o resp tmo stack timer quiet t rest :
  length stack = 64 ->
  in_time timer tmo quiet = true ->
  (elapsed (rt_now t) timer <? tmo)%Z = false ->
  length (offered quiet) < 64 ->
  strstr (offered quiet) resp = false ->
  strstr (offered quiet) (lit "ERROR") = false ->
  match wait_recv o resp tmo stack timer (quiet ++ t :: rest) with
  | Some (res, lc, o') =>
      res = AT_RET_TIMEOUT /\ lb_cnt lc = length (offered quiet)
      /\ take (lb_cnt lc) (lb_buf lc) = offered quiet
      /\ (quiet = [] -> lc = {| lb_buf := stack; lb_cnt := 0; lb_over := false |}
                        /\ o' = emit EvDebug o)
  | None => False
  end
  /\ ((tmo <= 0)%Z ->
      wait_recv o resp tmo stack timer (t :: rest)
      = Some (AT_RET_TIMEOUT,
              {| lb_buf := stack; lb_cnt := 0; lb_over := false |},
              emit EvDebug o)).
Proof.
  intros Hs Hq Ht Hfit Hr He. split.
  - unfold wait_recv.
    set (lc0 := {| lb_buf := stack; lb_cnt := 0; lb_over := false |}).
    assert (Hv0 : recv_view lc0 []) by (repeat split; exact Hs).
    destruct quiet as [|q quiet].
    + cbn [app wait_recv_loop]. rewrite Ht. cbn [negb].
      repeat split.
    + destruct (wait_recv_loop_quiet resp timer tmo (t :: rest) (q :: quiet)
                  o lc0 [])
        as (o2 & lc2 & Heq & Hv2);
        [exact Hq | exact Hv0 | exact Hfit | exact Hr | exact He |].
      rewrite Heq. cbn [app] in Hv2. cbn [wait_recv_loop]. rewrite Ht.
      cbn [negb]. destruct Hv2 as (A & B & _).
      split; [reflexivity|]. split; [exact A|]. split; [|discriminate].
      rewrite A. exact B.
  - intros H0. unfold wait_recv. cbn [wait_recv_loop].
    assert (Hz : (elapsed (rt_now t) timer <? tmo)%Z = false).
    { apply Z.ltb_ge. unfold elapsed.
      pose proof (Z.mod_pos_bound (rt_now t - timer) (2 ^ 32)%Z eq_refl).
      lia. }
    rewrite Hz. reflexivity.
Qed.

End WaitRecv.

(** ** Work sessions *)

Section WorkSession.

Context {port : at_port}.

(** X20: a work session.  With both locks obtained [at_do_work] runs
    the work on a controller that is marked busy and whose response
    count is cleared, and returns the work's result unchanged.  For a
    work that does not use the semaphores itself each lock has then
    been taken once and given once, the receive lock is given back
    before the send lock as the last two actions, the busy mark is
    cleared and the completion signal is not touched. *)
Theorem at_do_work_session o work :
  (forall a s, takes s (snd (work a)) = takes s a
               /\ gives s (snd (work a)) = gives s a) ->
  let a := set_rcv_cnt 0
             (set_busy true
                (emit (EvTake recv_lock MAX_AT_LOCK_TIME)
                   (emit (EvTake send_lock MAX_AT_LOCK_TIME) o))) in
  let r := at_do_work o work true true in
  fst r = fst (work a) /\ busy a = true /\ rcv_cnt a = 0
  /\ busy (snd r) = false
  /\ (forall s, s <> completed ->
        takes s (snd r) = S (takes s o) /\ gives s (snd r) = S (gives s o))
  /\ posts (snd r) = posts o /\ takes completed (snd r) = takes completed o
  /\ trace (snd r)
     = trace (snd (work a)) ++ [EvGive recv_lock; EvGive send_lock].
Proof.
  intros Hw. cbv zeta. unfold at_do_work. cbn [negb].
  set (a := set_rcv_cnt 0 _).
  assert (Ha : forall s, takes s a = takes s o
                           + (if at_sem_eqb s completed then 0 else 1)
                         /\ gives s a = gives s o).
  { intros s. unfold a, takes, gives. simpl. destruct s; simpl; lia. }
  pose proof (fun s => Hw a s) as Hwa.
  destruct (work a) as [res o1]. cbn [fst snd] in *.
  split; [reflexivity|]. split; [reflexivity|]. split; [reflexivity|].
  split; [reflexivity|]. split; [|split; [|split]].
  - intros s Hs. destruct (Hwa s) as (T & G). destruct (Ha s) as (T' & G').
    unfold takes, gives in *. simpl.
    rewrite T, G, T', G'. destruct s; simpl; try congruence; lia.
  - destruct (Hwa completed) as (_ & G). destruct (Ha completed) as (_ & G').
    unfold posts, gives in *. simpl. rewrite G, G'. reflexivity.
  - destruct (Hwa completed) as (T & _). destruct (Ha completed) as (T' & _).
    unfold takes in *. simpl in *. rewrite T, T'. lia.
  - unfold trace. simpl. rewrite <- app_assoc. reflexivity.
Qed.

(** X21: the operations a work is given.  The read, write and print
    operations of the work context use no semaphore.  Reading hands
    at most the requested number of bytes to the caller and to the
    URC side and writes nothing; writing puts the bytes on the
    transport as one block; printing sends the line, up to its
    terminator, followed by CR LF. *)
Theorem at_work_ops o now len avail data line :
  let rd := at_work_read o now len avail in
  let wr := at_work_write o data in
  let pr := at_work_print o line in
  (fst rd = take len avail /\ length (fst rd) <= len
   /\ snd rd = urc_recv_process o now (fst rd) /\ written (snd rd) = written o)
  /\ written (snd wr) = written o ++ data
  /\ written pr = written o ++ cstr line ++ [CR; LF]
  /\ (forall s, (takes s (snd rd) = takes s o /\ gives s (snd rd) = gives s o)
             /\ (takes s (snd wr) = takes s o /\ gives s (snd wr) = gives s o)
             /\ (takes s pr = takes s o /\ gives s pr = gives s o)).
Proof.
  cbv zeta. unfold at_work_read, at_work_write, at_work_print.
  cbn [fst snd].
  pose proof (uf_log _ _ (urc_recv_process_frame o now (take len avail))) as L.
  destruct (put_line_run line o) as (P1 & P2 & P3 & _).
  split; [|split; [|split]].
  - split; [reflexivity|]. split; [rewrite length_take; lia|].
    split; [reflexivity|].
    unfold written. eapply extends_written; [apply urc_side_no_write | exact L].
  - reflexivity.
  - exact P1.
  - intros s. split; [|split].
    + unfold takes, gives. split.
      * eapply extends_count; [apply urc_side_no_take | exact L].
      * eapply extends_count; [apply urc_side_not_give | exact L].
    + split; reflexivity.
    + split; [apply P2 | apply P3].
Qed.

End WorkSession.

(** ** The fields the tokenizer cuts *)

Lemma store_at_drop {A} (data : list A) : forall pos buf,
  drop (pos + length data) (store_at pos data buf)
  = drop (pos + length data) buf.
Proof.
  induction data as [|c data IH]; intros pos buf; simpl; [reflexivity|].
  replace (pos + S (length data)) with (S pos + length data) by lia.
  rewrite IH. apply drop_insert_lt. lia.
Qed.

Lemma insert_middle {A} (pre : list A) x c r :
  <[length pre:=x]> (pre ++ c :: r) = pre ++ x :: r.
Proof. induction pre as [|a pre IH]; simpl; [reflexivity|]. f_equal. exact IH. Qed.

Lemma split_loop_shape rest : forall pre i count lines,
  let k := Z.to_nat (size_t_of_int count - Z.of_nat i) in
  split_loop rest (length pre) i count (pre ++ rest) lines
  = (i + length (field_starts k (length pre) rest),
     pre ++ cut_commas k rest,
     store_at i (field_starts k (length pre) rest) lines).
Proof.
  induction rest as [|c r IH]; intros pre i count lines; cbv zeta.
  - simpl. rewrite Nat.add_0_r. reflexivity.
  - cbn [split_loop cut_commas field_starts].
    destruct (Ascii.eqb c NUL) eqn:En.
    { simpl. rewrite Nat.add_0_r. reflexivity. }
    destruct (Z.of_nat i <? size_t_of_int count)%Z eqn:Hlt; cbn [negb].
    + apply Z.ltb_lt in Hlt.
      assert (Hk : Z.to_nat (size_t_of_int count - Z.of_nat i)
                   = S (Z.to_nat (size_t_of_int count - Z.of_nat (S i))))
        by lia.
      rewrite Hk.
      destruct (Ascii.eqb c ","%char) eqn:Ec.
      * rewrite insert_middle.
        replace (pre ++ NUL :: r) with ((pre ++ [NUL]) ++ r)
          by (rewrite <- app_assoc; reflexivity).
        replace (S (length pre)) with (length (pre ++ [NUL]))
          by (rewrite length_app; simpl; lia).
        rewrite IH. cbn [length store_at].
        rewrite <- app_assoc. cbn [app]. f_equal. f_equal. lia.
      * replace (pre ++ c :: r) with ((pre ++ [c]) ++ r)
          by (rewrite <- app_assoc; reflexivity).
        replace (S (length pre)) with (length (pre ++ [c]))
          by (rewrite length_app; simpl; lia).
        rewrite <- Hk. rewrite IH. rewrite <- app_assoc. reflexivity.
    + apply Z.ltb_ge in Hlt.
      replace (Z.to_nat (size_t_of_int count - Z.of_nat i)) with 0 by lia.
      simpl. rewrite Nat.add_0_r. reflexivity.
Qed.

Lemma field_starts_length m : forall k pos,
  length (field_starts k pos m) <= k.
Proof.
  induction m as [|c m IH]; intros k pos; simpl; [lia|].
  destruct (Ascii.eqb c NUL); [simpl; lia|].
  destruct k as [|k]; [simpl; lia|].
  destruct (Ascii.eqb c ","%char); simpl.
  - specialize (IH k (S pos)). lia.
  - apply IH.
Qed.

Lemma cut_commas_length m : forall k, length (cut_commas k m) = length m.
Proof.
  induction m as [|c m IH]; intros k; simpl; [reflexivity|].
  destruct (Ascii.eqb c NUL); [reflexivity|].
  destruct k as [|k]; [reflexivity|].
  destruct (Ascii.eqb c ","%char); simpl; rewrite IH; reflexivity.
Qed.

Lemma cut_commas_lookup m : forall k j,
  cut_commas k m !! j = m !! j
  \/ (m !! j = Some ","%char /\ cut_commas k m !! j = Some NUL
      /\ j < length (cstr m)).
Proof.
  induction m as [|c m IH]; intros k j; simpl; [left; reflexivity|].
  destruct (Ascii.eqb c NUL) eqn:En; [left; reflexivity|].
  destruct k as [|k]; [left; reflexivity|].
  destruct (Ascii.eqb c ","%char) eqn:Ec.
  - apply Ascii.eqb_eq in Ec. subst c. destruct j as [|j]; simpl.
    + right. repeat split. lia.
    + destruct (IH k j) as [H|(H1 & H2 & H3)]; [left; exact H|].
      right. repeat split; try assumption. lia.
  - destruct j as [|j]; simpl; [left; reflexivity|].
    destruct (IH (S k) j) as [H|(H1 & H2 & H3)]; [left; exact H|].
    right. repeat split; try assumption. lia.
Qed.

Lemma split_fields_cons n s : exists f fs, split_fields n s = f :: fs.
Proof.
  revert n. induction s as [|c s IH]; intros n; simpl; [eauto|].
  destruct n as [|n]; [eauto|].
  destruct (Ascii.eqb c ","%char); [eauto|].
  destruct (IH (S n)) as (f & fs & ->). eauto.
Qed.

Lemma join_fields_cons f g fs :
  join_fields (f :: g :: fs) = f ++ ","%char :: join_fields (g :: fs).
Proof. reflexivity. Qed.

Lemma join_split_fields s : forall n, join_fields (split_fields n s) = s.
Proof.
  induction s as [|c s IH]; intros n; [reflexivity|].
  cbn [split_fields]. destruct n as [|n]; [reflexivity|].
  destruct (Ascii.eqb c ","%char) eqn:Ec.
  - apply Ascii.eqb_eq in Ec. subst c.
    specialize (IH n). destruct (split_fields_cons n s) as (f & fs & E).
    rewrite E in *. rewrite join_fields_cons, IH. reflexivity.
  - specialize (IH (S n)).
    destruct (split_fields_cons (S n) s) as (f & fs & E).
    rewrite E in *. destruct fs as [|g fs].
    + cbn [join_fields] in *. rewrite IH. reflexivity.
    + rewrite join_fields_cons in *. cbn [app]. rewrite IH. reflexivity.
Qed.

Lemma fields_of_cut rest : forall k pre,
  map (fun off => cstr (drop off (pre ++ cut_commas k rest)))
    (length pre :: field_starts k (length pre) rest)
  = split_fields k (cstr rest).
Proof.
  induction rest as [|c r IH]; intros k pre.
  - simpl. rewrite app_nil_r, drop_all. destruct k; reflexivity.
  - cbn [cut_commas field_starts cstr].
    destruct (Ascii.eqb c NUL) eqn:En.
    { cbn [map]. rewrite drop_app_length. simpl. rewrite En.
      destruct k; reflexivity. }
    destruct k as [|k].
    { cbn [map]. rewrite drop_app_length. simpl. rewrite En. reflexivity. }
    cbn [split_fields].
    destruct (Ascii.eqb c ","%char) eqn:Ec.
    + specialize (IH k (pre ++ [NUL])).
      rewrite <- app_assoc in IH. cbn [app] in IH.
      rewrite length_app in IH. cbn [length] in IH.
      rewrite Nat.add_1_r in IH. rewrite <- IH.
      cbn [map]. rewrite drop_app_length. reflexivity.
    + specialize (IH (S k) (pre ++ [c])).
      rewrite <- app_assoc in IH. cbn [app] in IH.
      rewrite length_app in IH. cbn [length] in IH.
      rewrite Nat.add_1_r in IH. rewrite <- IH.
      cbn [map]. rewrite drop_app_length. cbn [cstr]. rewrite En.
      f_equal. f_equal.
      replace (pre ++ c :: cut_commas (S k) r)
        with ((pre ++ [c]) ++ cut_commas (S k) r)
        by (rewrite <- app_assoc; reflexivity).
      replace (S (length pre)) with (length (pre ++ [c]))
        by (rewrite length_app; simpl; lia).
      rewrite drop_app_length. reflexivity.
Qed.

Lemma at_split_respond_lines_shape buf ln count sep :
  let k := Z.to_nat (size_t_of_int count - 1) in
  at_split_respond_lines (Some buf) (Some ln) count sep
  = (Z.of_nat (S (length (field_starts k 0 buf))),
     Some (cut_commas k buf),
     Some (store_at 0 (0 :: field_starts k 0 buf) ln)).
Proof.
  cbv zeta. unfold at_split_respond_lines.
  pose proof (split_loop_shape buf [] 1 count (<[0:=0]> ln)) as H.
  cbv zeta in H. cbn [length app] in H.
  change (Z.of_nat 1) with 1%Z in H. rewrite H. reflexivity.
Qed.

(** X22: the fields of a response line.  For a maximum count between
    1 and the size of the pointer array, the strings that start at
    the offsets the tokenizer stored are the comma separated fields
    of the text, the last one taking the rest of the text when the
    count is used up; put together with commas they give the text
    back.  The buffer keeps its length and the array is unchanged
    behind the offsets stored. *)
Theorem at_split_respond_lines_round_trip buf ln count sep :
  (1 <= count < 2 ^ 31)%Z -> (count <= Z.of_nat (length ln))%Z ->
  match at_split_respond_lines (Some buf) (Some ln) count sep with
  | (n, Some buf', Some ln') =>
      let fields :=
        map (fun off => cstr (drop off buf')) (take (Z.to_nat n) ln') in
      fields = split_fields (Z.to_nat (count - 1)) (cstr buf)
      /\ join_fields fields = cstr buf
      /\ length fields = Z.to_nat n
      /\ length buf' = length buf /\ length ln' = length ln
      /\ drop (Z.to_nat n) ln' = drop (Z.to_nat n) ln
  | _ => False
  end.
Proof.
  intros Hc Hl. rewrite at_split_respond_lines_shape. cbv zeta.
  assert (Hk : size_t_of_int count = count).
  { unfold size_t_of_int. apply Z.mod_small. lia. }
  rewrite Hk. set (k := Z.to_nat (count - 1)).
  pose proof (field_starts_length buf k 0) as Hs.
  set (offs := 0 :: field_starts k 0 buf).
  assert (Hn : Z.to_nat (Z.of_nat (S (length (field_starts k 0 buf))))
               = 0 + length offs) by (unfold offs; simpl; lia).
  rewrite Hn.
  assert (Hfit : 0 + length offs <= length ln) by (unfold offs; simpl; lia).
  rewrite (store_at_take offs 0 ln Hfit), store_at_drop, store_at_length,
    cut_commas_length.
  rewrite take_0. cbn [app].
  assert (Hf : map (fun off => cstr (drop off (cut_commas k buf))) offs
               = split_fields k (cstr buf)).
  { exact (fields_of_cut buf k []). }
  rewrite Hf. split; [reflexivity|]. split; [apply join_split_fields|].
  split; [|repeat split].
  rewrite <- Hf, length_map. reflexivity.
Qed.

(** X23: what the tokenizer changes.  Whatever the maximum count, the
    buffer keeps its length and differs from what it was only in
    cells inside the text that held a comma and now hold NUL; the
    pointer array keeps its length and is unchanged behind the
    offsets stored. *)
Theorem at_split_respond_lines_cuts_commas buf ln count sep :
  match at_split_respond_lines (Some buf) (Some ln) count sep with
  | (n, Some buf', Some ln') =>
      length buf' = length buf
      /\ (forall j, buf' !! j = buf !! j
                    \/ (buf !! j = Some ","%char /\ buf' !! j = Some NUL
                        /\ j < length (cstr buf)))
      /\ length ln' = length ln
      /\ drop (Z.to_nat n) ln' = drop (Z.to_nat n) ln
      /\ (0 < length ln -> ln' !! 0 = Some 0)
  | _ => False
  end.
Proof.
  rewrite at_split_respond_lines_shape. cbv zeta.
  set (k := Z.to_nat (size_t_of_int count - 1)).
  split; [apply cut_commas_length|]. split; [apply cut_commas_lookup|].
  split; [apply store_at_length|]. split.
  - set (offs := 0 :: field_starts k 0 buf).
    replace (Z.to_nat (Z.of_nat (S (length (field_starts k 0 buf)))))
      with (0 + length offs) by (unfold offs; simpl; lia).
    apply store_at_drop.
  - intros Hpos. cbn [store_at].
    assert (H : forall (d : list nat) pos l, 0 < pos ->
              store_at pos d l !! 0 = l !! 0).
    { induction d as [|x d IH]; intros pos l Hp; simpl; [reflexivity|].
      rewrite IH by lia. apply list_lookup_insert_ne. lia. }
    rewrite H by lia. apply list_lookup_insert_eq. exact Hpos.
Qed.

(** ** The command table of the module configuration *)

Lemma info_of_code_code x : info_of_code (info_code x) = Some x.
Proof. destruct x; reflexivity. Qed.

Lemma info_code_inj x y : info_code x = info_code y -> x = y.
Proof.
  intros H. pose proof (info_of_code_code x) as Hx.
  rewrite H, info_of_code_code in Hx. congruence.
Qed.

Lemma Get_AtCmd_from_first pAt cmd n : forall i,
  match Get_AtCmd_from pAt cmd i n with
  | Some r =>
      i <= r < i + n
      /\ (exists e, pAt !! r = Some e /\ Name e = cmd)
      /\ (forall j e, i <= j < r -> pAt !! j = Some e -> Name e <> cmd)
  | None =>
      forall j e, i <= j < i + n -> pAt !! j = Some e -> Name e <> cmd
  end.
Proof.
  induction n as [|n IH]; intros i; simpl.
  - intros j e Hj. lia.
  - destruct (pAt !! i) as [e0|] eqn:E0.
    + destruct (info_code (Name e0) =? info_code cmd) eqn:Ec.
      * apply Nat.eqb_eq, info_code_inj in Ec.
        split; [lia|]. split; [exists e0; split; [exact E0 | exact Ec]|].
        intros j e Hj. lia.
      * apply Nat.eqb_neq in Ec. specialize (IH (S i)).
        destruct (Get_AtCmd_from pAt cmd (S i) n) as [r|].
        -- destruct IH as (H1 & H2 & H3). split; [lia|]. split; [exact H2|].
           intros j e Hj Hl. destruct (Nat.eq_dec j i) as [->|Hne].
           ++ rewrite E0 in Hl. injection Hl as <-. congruence.
           ++ apply (H3 j e); [lia | exact Hl].
        -- intros j e Hj Hl. destruct (Nat.eq_dec j i) as [->|Hne].
           ++ rewrite E0 in Hl. injection Hl as <-. congruence.
           ++ apply (IH j e); [lia | exact Hl].
    + intros j e Hj Hl. apply lookup_lt_Some in Hl.
      apply lookup_ge_None in E0. lia.
Qed.

(** X24: what [Get_AtCmd] returns.  The entry returned is the first of
    the first [size] entries of the table that has the name asked
    for; the null pointer is returned exactly when none of them has
    it. *)
Theorem Get_AtCmd_first pAt cmd size :
  match Get_AtCmd pAt cmd size with
  | Some i =>
      i < size
      /\ (exists e, pAt !! i = Some e /\ Name e = cmd)
      /\ (forall j e, j < i -> pAt !! j = Some e -> Name e <> cmd)
  | None => forall j e, j < size -> pAt !! j = Some e -> Name e <> cmd
  end.
Proof.
  unfold Get_AtCmd. pose proof (Get_AtCmd_from_first pAt cmd size 0) as H.
  destruct (Get_AtCmd_from pAt cmd 0 size) as [r|].
  - destruct H as (H1 & H2 & H3). split; [lia|]. split; [exact H2|].
    intros j e Hj. apply H3. lia.
  - intros j e Hj. apply H. lia.
Qed.

(** X25: the lookups of the two configuration modes.  Every command
    that [Config_Mode] or [Free_Mode] looks up is in [At_Table] with a
    string to send, so that neither the pointer they dereference is
    null nor the branch for a missing command is taken; [Free_Mode]
    goes through the five commands from [CMD_MODE] to [SET_UART] and
    [RESTART].  No two entries of the table have the same name:
    looking up the name of an entry gives that entry; and the names
    below [CMD_MODE] and from [EXIT_CONF] on, which are results and
    not commands, are not found. *)
Theorem At_Table_lookups ok :
  length (At_Table ok) = AT_TABLE_SIZE
  /\ (forall c, In c (config_mode_cmds ++ free_mode_cmds) ->
        exists cmd i e,
          info_of_code c = Some cmd
          /\ Get_AtCmd (At_Table ok) cmd AT_TABLE_SIZE = Some i
          /\ At_Table ok !! i = Some e /\ Name e = cmd /\ pSend e <> None)
  /\ free_mode_cmds
     = map info_code [CMD_MODE; CMD_SURE; SET_ECHO; SET_UART; RESTART]
  /\ (forall i e, At_Table ok !! i = Some e ->
        Get_AtCmd (At_Table ok) (Name e) AT_TABLE_SIZE = Some i)
  /\ (forall cmd,
        info_code cmd < info_code CMD_MODE
        \/ info_code EXIT_CONF <= info_code cmd ->
        Get_AtCmd (At_Table ok) cmd AT_TABLE_SIZE = None).
Proof.
  split; [reflexivity|]. split; [|split; [reflexivity|split]].
  - intros c Hc. vm_compute in Hc.
    repeat (destruct Hc as [<-|Hc];
            [eexists; eexists; eexists;
             split; [reflexivity|];
             split; [reflexivity|];
             split; [reflexivity|];
             split; [reflexivity | discriminate]|]).
    destruct Hc.
  - intros i e Hl.
    do 23 (destruct i as [|i];
           [injection Hl as <-; reflexivity|]).
    discriminate Hl.
  - intros cmd Hc. destruct cmd; vm_compute in Hc; try lia; reflexivity.
Qed.

Lemma cstr_app_NUL a rest : cstr (cstr a ++ NUL :: rest) = cstr a.
Proof.
  induction a as [|c a IH]; simpl; [reflexivity|].
  destruct (Ascii.eqb c NUL) eqn:E; simpl; [reflexivity|].
  rewrite E, IH. reflexivity.
Qed.

Lemma cstr_app_cstr a b : cstr (cstr a ++ cstr b) = cstr a ++ cstr b.
Proof.
  induction a as [|c a IH]; simpl.
  - induction b as [|c b IHb]; simpl; [reflexivity|].
    destruct (Ascii.eqb c NUL) eqn:E; simpl; [reflexivity|].
    rewrite E, IHb. reflexivity.
  - destruct (Ascii.eqb c NUL) eqn:E; simpl.
    + clear IH. induction b as [|d b IHb]; simpl; [reflexivity|].
      destruct (Ascii.eqb d NUL) eqn:E'; simpl; [reflexivity|].
      rewrite E', IHb. reflexivity.
    + rewrite E, IH. reflexivity.
Qed.

Lemma store_at_app {A} (d1 d2 : list A) : forall pos buf,
  store_at pos (d1 ++ d2) buf = store_at (pos + length d1) d2 (store_at pos d1 buf).
Proof.
  induction d1 as [|c d1 IH]; intros pos buf; simpl.
  - rewrite Nat.add_0_r. reflexivity.
  - rewrite IH. f_equal. lia.
Qed.

(** A string and its terminator stored into a block from [pos] on,
    where the string just fits: the terminator falls behind the
    block. *)
Lemma store_at_fill (d : list ascii) pos buf :
  pos + length d = length buf ->
  store_at pos (d ++ [NUL]) buf = take pos buf ++ d.
Proof.
  intros H. rewrite store_at_app. cbn [store_at].
  rewrite list_insert_ge by (rewrite store_at_length; lia).
  rewrite <- (store_at_take d pos buf) by lia.
  rewrite take_ge by (rewrite store_at_length; lia). reflexivity.
Qed.

(** The same where there is room for the terminator. *)
Lemma store_at_room (d : list ascii) pos buf :
  pos + length d < length buf ->
  store_at pos (d ++ [NUL]) buf
  = take pos buf ++ d ++ NUL :: drop (S (pos + length d)) buf.
Proof.
  intros H.
  rewrite <- (take_drop (pos + length (d ++ [NUL]))
                (store_at pos (d ++ [NUL]) buf)).
  rewrite store_at_take by (rewrite length_app; simpl; lia).
  rewrite store_at_drop. rewrite length_app. cbn [length].
  rewrite <- !app_assoc. cbn [app].
  replace (pos + (length d + 1)) with (S (pos + length d)) by lia.
  reflexivity.
Qed.

(** X26: the block of the command string.  In the FreeRTOS
    configuration the two modes allocate as many bytes as the command
    and the end mark have characters.  For the commands behind
    [CMD_SURE], to which the end mark is appended, the block ends up
    holding the command followed by the mark, and the terminator is
    stored at the offset that equals the size of the block, one byte
    behind it.  For the two commands before, the string in the block
    is the command, and all stores are inside the block when the mark
    is not empty. *)
Theorem build_pStr_overrun heap mark send at_cmd :
  length heap = length (cstr send) + length (cstr mark) ->
  match build_pStr heap mark send at_cmd with
  | (size, stores, block) =>
      size = length heap /\ length block = size
      /\ (info_code CMD_SURE < at_cmd ->
            In size stores /\ Forall (fun i => i <= size) stores
            /\ block = cstr send ++ cstr mark)
      /\ (at_cmd <= info_code CMD_SURE ->
            cstr block = cstr send
            /\ (cstr mark <> [] -> Forall (fun i => i < size) stores))
  end.
Proof.
  intros Hh. unfold build_pStr.
  set (block := store_at 0 (cstr send ++ [NUL]) heap).
  assert (Hb : cstr block = cstr send
               /\ take (length (cstr send)) block = cstr send
               /\ length block = length heap).
  { unfold block. destruct (cstr mark) as [|m ms] eqn:Em.
    - simpl in Hh. rewrite store_at_fill by (simpl; lia).
      rewrite take_0. cbn [app]. split; [|split].
      + rewrite <- (app_nil_r (cstr send)) at 1.
        change (@nil ascii) with (cstr []). rewrite cstr_app_cstr.
        simpl. apply app_nil_r.
      + apply take_ge. lia.
      + lia.
    - simpl in Hh. rewrite store_at_room by (simpl; lia).
      rewrite take_0. cbn [app]. split; [|split].
      + apply cstr_app_NUL.
      + apply take_app_length.
      + rewrite length_app. cbn [length]. rewrite length_drop. lia. }
  destruct Hb as (Hc & Ht & Hl).
  destruct (info_code CMD_SURE <? at_cmd) eqn:E.
  - apply Nat.ltb_lt in E. rewrite Hc. split; [lia|].
    split; [rewrite store_at_length; lia|]. split; [|intros H; lia].
    intros _. split; [|split].
    + apply in_or_app. right. apply in_seq. lia.
    + apply Forall_app. split; apply List.Forall_forall; intros i Hi;
        apply in_seq in Hi; lia.
    + rewrite store_at_fill by lia. rewrite Ht. reflexivity.
  - apply Nat.ltb_ge in E. split; [lia|]. split; [lia|].
    split; [intros H; lia|].
    intros _. split; [exact Hc|]. intros Hm.
    apply List.Forall_forall. intros i Hi. apply in_seq in Hi.
    destruct (cstr mark); [congruence|]. simpl. lia.
Qed.

(** ** The two configuration modes *)

Lemma build_pStr_text heap mark send at_cmd :
  length heap = length (cstr send) + length (cstr mark) ->
  cstr (snd (build_pStr heap mark send at_cmd))
  = cstr send ++ (if info_code CMD_SURE <? at_cmd then cstr mark else []).
Proof.
  intros Hh. unfold build_pStr.
  set (block := store_at 0 (cstr send ++ [NUL]) heap).
  assert (Hb : cstr block = cstr send
               /\ take (length (cstr send)) block = cstr send
               /\ length block = length heap).
  { unfold block. destruct (cstr mark) as [|m ms] eqn:Em.
    - simpl in Hh. rewrite store_at_fill by (simpl; lia).
      rewrite take_0. cbn [app]. split; [|split].
      + rewrite <- (app_nil_r (cstr send)) at 1.
        change (@nil ascii) with (cstr []). rewrite cstr_app_cstr.
        simpl. apply app_nil_r.
      + apply take_ge. lia.
      + lia.
    - simpl in Hh. rewrite store_at_room by (simpl; lia).
      rewrite take_0. cbn [app]. split; [|split].
      + apply cstr_app_NUL.
      + apply take_app_length.
      + rewrite length_app. cbn [length]. rewrite length_drop. lia. }
  destruct Hb as (Hc & Ht & Hl).
  destruct (info_code CMD_SURE <? at_cmd); cbn [snd].
  - rewrite Hc, store_at_fill by lia. rewrite Ht. apply cstr_app_cstr.
  - rewrite Hc, app_nil_r. reflexivity.
Qed.

Lemma sends_of_app l1 l2 : sends_of (l1 ++ l2) = sends_of l2 ++ sends_of l1.
Proof.
  induction l1 as [|e l1 IH]; simpl; [rewrite app_nil_r; reflexivity|].
  destruct e; try exact IH. rewrite IH, app_assoc. reflexivity.
Qed.

Lemma pbuf_stores_of_cats l idx :
  pbuf_stores_of (rev (map PBufCat idx) ++ l) = pbuf_stores_of l.
Proof.
  induction idx as [|i idx IH] using rev_ind; [reflexivity|].
  rewrite map_app, rev_app_distr. simpl. exact IH.
Qed.

Lemma sends_of_cats l idx :
  sends_of (rev (map PBufCat idx) ++ l) = sends_of l.
Proof.
  induction idx as [|i idx IH] using rev_ind; [reflexivity|].
  rewrite map_app, rev_app_distr. simpl. exact IH.
Qed.

Section ModesFacts.

Context {lp : l101_port}.

Lemma report_keeps at_cmd result l :
  sends_of (snd (report at_cmd result l)) = sends_of l
  /\ pbuf_stores_of (snd (report at_cmd result l)) = pbuf_stores_of l
  /\ (at_cmd = info_code RESTART -> fst (report at_cmd result l) = true)
  /\ (fst (report at_cmd result l) = false -> result = CONF_SUCCESS).
Proof.
  unfold report.
  destruct (info_code result =? info_code CONF_SUCCESS) eqn:E;
    destruct (at_cmd =? info_code RESTART) eqn:E2;
    cbn [negb orb fst snd]; (split; [reflexivity|]);
    (split; [reflexivity|]); split; intros H;
    try reflexivity; try discriminate H.
  - apply Nat.eqb_neq in E2. contradiction.
  - apply Nat.eqb_eq, info_code_inj in E. exact E.
Qed.

Lemma fm_debug_keeps st :
  pBuf (fm_debug st) = pBuf st /\ len (fm_debug st) = len st
  /\ sends_of (fm_log (fm_debug st)) = sends_of (fm_log st)
  /\ pbuf_stores_of (fm_log (fm_debug st)) = pbuf_stores_of (fm_log st).
Proof. unfold fm_debug. destruct USING_DEBUG; repeat split. Qed.

Lemma strcat_pBuf_keeps src st :
  length (pBuf (strcat_pBuf src st)) = length (pBuf st)
  /\ len (strcat_pBuf src st) = len st
  /\ sends_of (fm_log (strcat_pBuf src st)) = sends_of (fm_log st)
  /\ pbuf_stores_of (fm_log (strcat_pBuf src st)) = pbuf_stores_of (fm_log st).
Proof.
  unfold strcat_pBuf. cbn [pBuf len fm_log].
  rewrite store_at_length, sends_of_cats, pbuf_stores_of_cats. repeat split.
Qed.

(** What one command of [Free_Mode] keeps. *)
Lemma free_mode_cmd_keeps at_cmd ex st st' :
  free_mode_cmd at_cmd ex st = Some st' ->
  length (pBuf st') = length (pBuf st) /\ len st' = len st
  /\ pbuf_stores_of (fm_log st') = pbuf_stores_of (fm_log st).
Proof.
  unfold free_mode_cmd.
  destruct (match lookup_cmd at_cmd with
            | Some e => Some (expected_reply at_cmd e)
            | None => _ end) as [pRe|]; [|discriminate].
  set (sent := match lookup_cmd at_cmd with Some e => _ | None => Some st end).
  assert (Hs : forall s1, sent = Some s1 ->
             length (pBuf s1) = length (pBuf st) /\ len s1 = len st
             /\ pbuf_stores_of (fm_log s1) = pbuf_stores_of (fm_log st)).
  { unfold sent. intros s1. destruct (lookup_cmd at_cmd) as [e|].
    - destruct (pSend e) as [send|]; [|discriminate].
      destruct (ex_heap ex) as [heap|].
      + destruct (build_pStr heap AT_CMD_END_MARK_CRLF send at_cmd)
          as [[size stores] block].
        destruct (negb (at_cmd =? info_code SET_UART)).
        * intros [= <-]. cbn [pBuf len fm_log fm_emit pbuf_stores_of].
          destruct (fm_debug_keeps (fm_debug st)) as (A & B & _ & D).
          destruct (fm_debug_keeps st) as (A' & B' & _ & D').
          rewrite A, B, D, A', B', D'. repeat split.
        * intros [= <-]. cbn [pBuf len fm_log fm_emit pbuf_stores_of].
          set (s2 := strcat_pBuf AT_CMD_END_MARK_CRLF st).
          destruct (fm_debug_keeps (fm_debug s2)) as (A & B & _ & D).
          destruct (fm_debug_keeps s2) as (A' & B' & _ & D').
          destruct (strcat_pBuf_keeps AT_CMD_END_MARK_CRLF st)
            as (A'' & B'' & _ & D'').
          rewrite A, B, D, A', B', D'. fold s2 in A'', B'', D''.
          rewrite A'', B'', D''. repeat split.
      + intros [= <-]. repeat split.
    - intros [= <-]. repeat split. }
  destruct sent as [s1|]; [|discriminate].
  destruct (Hs s1 eq_refl) as (A & B & C).
  destruct pRe as [resp|]; [|discriminate].
  destruct (fm_debug_keeps s1) as (A' & B' & _ & D').
  pose proof (report_keeps at_cmd (Wait_Recv resp (ex_rx ex))
                (fm_log (fm_debug s1))) as (_ & R & _).
  destruct (report at_cmd (Wait_Recv resp (ex_rx ex)) (fm_log (fm_debug s1)))
    as [brk l].
  intros [= <-]. cbn [pBuf len fm_log snd] in *.
  rewrite A', B', R, D', A, B, C. repeat split.
Qed.

Lemma free_mode_loop_keeps n : forall at_cmd exs st st' exs',
  free_mode_loop at_cmd n exs st = Some (st', exs') ->
  length (pBuf st') = length (pBuf st) /\ len st' = len st
  /\ pbuf_stores_of (fm_log st') = pbuf_stores_of (fm_log st).
Proof.
  induction n as [|n IH]; intros at_cmd exs st st' exs'; cbn [free_mode_loop];
    [discriminate|].
  destruct (at_cmd <? info_code POWER_MODE).
  - destruct exs as [|ex exs1]; [discriminate|].
    destruct (free_mode_cmd _ ex st) as [s1|] eqn:E; [|discriminate].
    intros H. apply IH in H. apply free_mode_cmd_keeps in E.
    destruct H as (A & B & C), E as (A' & B' & C').
    rewrite A, B, C, A', B', C'. repeat split.
  - intros [= <- <-]. repeat split.
Qed.

Lemma free_mode_keys_bounds keys : forall exs st fin st',
  free_mode_keys keys exs st = Some (fin, st') ->
  length (pBuf st) = SIZE -> len st < SIZE ->
  Forall (fun i => i < SIZE) (pbuf_stores_of (fm_log st)) ->
  length (pBuf st') = SIZE /\ len st' < SIZE
  /\ Forall (fun i => i < SIZE) (pbuf_stores_of (fm_log st')).
Proof.
  induction keys as [|c keys IH]; intros exs st fin st';
    cbn [free_mode_keys].
  - intros [= _ <-] H1 H2 H3. repeat split; assumption.
  - destruct (Ascii.eqb c ENTER_CODE).
    + set (s0 := {| pBuf := _; len := 0; fm_log := _ |}).
      destruct (free_mode_loop _ _ exs (fm_debug s0)) as [[s1 exs1]|] eqn:E;
        [|discriminate].
      intros H H1 H2 H3. apply free_mode_loop_keeps in E.
      destruct E as (A & B & C). destruct (fm_debug_keeps s0) as (A' & B' & _ & D').
      apply (IH _ _ _ _ H).
      * rewrite A, A'. unfold s0. cbn [pBuf]. rewrite length_insert. exact H1.
      * rewrite B, B'. unfold s0, SIZE. cbn [len]. lia.
      * rewrite C, D'. unfold s0. cbn [fm_log pbuf_stores_of].
        constructor; assumption.
    + destruct (Ascii.eqb c BACKSPACE_CODE).
      * intros H H1 H2 H3. apply (IH _ _ _ _ H).
        -- destruct (len st =? 0); [exact H1 | exact H1].
        -- destruct (len st =? 0); cbn [len]; lia.
        -- destruct (len st =? 0); [exact H3 | exact H3].
      * destruct (Ascii.eqb c ESC_CODE).
        -- intros [= _ <-] H1 H2 H3. repeat split; assumption.
        -- intros H H1 H2 H3. apply (IH _ _ _ _ H); cbn [pBuf len fm_log].
           ++ rewrite length_insert. exact H1.
           ++ destruct (S (len st) <? SIZE) eqn:E;
                [apply Nat.ltb_lt in E; exact E | unfold SIZE; lia].
           ++ cbn [pbuf_stores_of]. constructor; assumption.
Qed.

(** X27: the line buffer of [Free_Mode].  Whatever characters are
    read and whatever the module answers, the index into the 64 bytes
    of [pBuf] stays below 64, so every character and every terminator
    the function assigns is stored inside the buffer, and the buffer
    keeps its size. *)
Theorem Free_Mode_index heap keys exs fin st :
  length heap = SIZE ->
  Free_Mode heap keys exs = Some (fin, st) ->
  len st < SIZE /\ length (pBuf st) = SIZE
  /\ Forall (fun i => i < SIZE) (pbuf_stores_of (fm_log st)).
Proof.
  intros Hh H. unfold Free_Mode in H.
  destruct (free_mode_keys_bounds _ _ _ _ _ H) as (A & B & C);
    cbn [pBuf len fm_log pbuf_stores_of];
    [exact Hh | unfold SIZE; lia | constructor |].
  repeat split; assumption.
Qed.

End ModesFacts.

Lemma pbuf_cats_of_cats l idx :
  pbuf_cats_of (rev (map PBufCat idx) ++ l) = rev idx ++ pbuf_cats_of l.
Proof.
  induction idx as [|i idx IH] using rev_ind; [reflexivity|].
  rewrite map_app, !rev_app_distr. simpl. rewrite IH. reflexivity.
Qed.

Lemma take_cstr m : take (length (cstr m)) m = cstr m.
Proof.
  induction m as [|c m IH]; simpl; [reflexivity|].
  destruct (Ascii.eqb c NUL); simpl; [reflexivity|]. rewrite IH. reflexivity.
Qed.

Section ModesRuns.

Context {lp : l101_port}.

Lemma fm_debug_cats st :
  pbuf_cats_of (fm_log (fm_debug st)) = pbuf_cats_of (fm_log st).
Proof. unfold fm_debug. destruct USING_DEBUG; reflexivity. Qed.

(** The entries the two modes look up, as far as the modes need them. *)
Lemma lookup_cmd_config c :
  info_code CMD_MODE <= c < info_code SIG_STREN ->
  exists e send resp,
    lookup_cmd c = Some e /\ pSend e = Some send
    /\ expected_reply c e = Some resp.
Proof.
  intros [H1 H2]. vm_compute in H1, H2.
  do 23 (destruct c as [|c];
         [first [lia | eexists; eexists; eexists; repeat split; reflexivity]|]).
  lia.
Qed.

Lemma blocks_fit_cons c cmds ex exs :
  blocks_fit (c :: cmds) (ex :: exs) = true ->
  forall e send, lookup_cmd c = Some e -> pSend e = Some send ->
  (exists heap, ex_heap ex = Some heap
     /\ length heap
        = length (cstr send) + length (cstr AT_CMD_END_MARK_CRLF))
  /\ blocks_fit cmds exs = true.
Proof.
  cbn [blocks_fit]. intros H e send He Hs.
  destruct (ex_heap ex) as [heap|]; [|discriminate].
  apply andb_true_iff in H. destruct H as [H1 H2]. apply Nat.eqb_eq in H1.
  split; [|exact H2]. exists heap. split; [reflexivity|].
  rewrite H1. unfold cmd_text. rewrite He, Hs.
  destruct (info_code CMD_SURE <? c); rewrite length_app; simpl; lia.
Qed.

Lemma cmd_text_send c e send :
  lookup_cmd c = Some e -> pSend e = Some send ->
  cmd_text c
  = cstr send
    ++ (if info_code CMD_SURE <? c then cstr AT_CMD_END_MARK_CRLF else []).
Proof. intros He Hs. unfold cmd_text. rewrite He, Hs. reflexivity. Qed.

(** One command of [Free_Mode] other than [SET_UART]. *)
Lemma free_mode_cmd_sends c ex st cmds exs :
  info_code CMD_MODE <= c < info_code SIG_STREN ->
  (c =? info_code SET_UART) = false ->
  blocks_fit (c :: cmds) (ex :: exs) = true ->
  exists st',
    free_mode_cmd c ex st = Some st'
    /\ sends_of (fm_log st') = sends_of (fm_log st) ++ [cmd_text c]
    /\ pBuf st' = pBuf st /\ len st' = len st
    /\ pbuf_cats_of (fm_log st') = pbuf_cats_of (fm_log st).
Proof.
  intros Hc Hu Hb.
  destruct (lookup_cmd_config c Hc) as (e & send & resp & He & Hs & Hr).
  destruct (blocks_fit_cons _ _ _ _ Hb e send He Hs) as ((heap & Hh & Hl) & _).
  pose proof (build_pStr_text heap AT_CMD_END_MARK_CRLF send c Hl) as Ht.
  unfold free_mode_cmd. rewrite He, Hr, Hs, Hh, Hu. cbn [negb].
  destruct (build_pStr heap AT_CMD_END_MARK_CRLF send c) as [[size stores] block].
  cbn [snd] in Ht.
  set (s1 := fm_emit (MdSend (cstr block)) (fm_debug (fm_debug st))).
  pose proof (report_keeps c (Wait_Recv resp (ex_rx ex)) (fm_log (fm_debug s1)))
    as (R1 & _).
  assert (R3 : pbuf_cats_of
                 (snd (report c (Wait_Recv resp (ex_rx ex))
                         (fm_log (fm_debug s1))))
               = pbuf_cats_of (fm_log (fm_debug s1))).
  { unfold report. destruct (_ || _); reflexivity. }
  destruct (report c (Wait_Recv resp (ex_rx ex)) (fm_log (fm_debug s1)))
    as [brk l].
  cbn [snd] in R1, R3. eexists. split; [reflexivity|].
  cbn [pBuf len fm_log]. rewrite R1, R3.
  destruct (fm_debug_keeps s1) as (A & B & C & _).
  rewrite A, B, C, fm_debug_cats. unfold s1.
  cbn [pBuf len fm_log fm_emit sends_of pbuf_cats_of].
  destruct (fm_debug_keeps (fm_debug st)) as (A1 & B1 & C1 & _).
  destruct (fm_debug_keeps st) as (A2 & B2 & C2 & _).
  rewrite A1, B1, C1, A2, B2, C2, !fm_debug_cats, Ht.
  rewrite (cmd_text_send c e send He Hs). repeat split.
Qed.

(** The command [SET_UART] of [Free_Mode]: the line in [pBuf] is sent
    in its place. *)
Lemma free_mode_cmd_line ex st cmds exs s :
  blocks_fit (info_code SET_UART :: cmds) (ex :: exs) = true ->
  cstr (pBuf st) = s ->
  length s + length (cstr AT_CMD_END_MARK_CRLF) < length (pBuf st) ->
  exists st',
    free_mode_cmd (info_code SET_UART) ex st = Some st'
    /\ sends_of (fm_log st')
       = sends_of (fm_log st) ++ [s ++ cstr AT_CMD_END_MARK_CRLF]
    /\ length (pBuf st') = length (pBuf st) /\ len st' = len st
    /\ pbuf_cats_of (fm_log st')
       = rev (seq (length s) (length (cstr AT_CMD_END_MARK_CRLF) + 1))
         ++ pbuf_cats_of (fm_log st).
Proof.
  intros Hb Hs Hfit.
  assert (Hc : info_code CMD_MODE <= info_code SET_UART < info_code SIG_STREN)
    by (vm_compute; lia).
  destruct (lookup_cmd_config _ Hc) as (e & send & resp & He & Hse & Hr).
  destruct (blocks_fit_cons _ _ _ _ Hb e send He Hse) as ((heap & Hh & _) & _).
  unfold free_mode_cmd. rewrite He, Hr, Hse, Hh.
  destruct (build_pStr heap AT_CMD_END_MARK_CRLF send (info_code SET_UART))
    as [[size stores] block].
  rewrite Nat.eqb_refl. cbn [negb].
  set (s0 := strcat_pBuf AT_CMD_END_MARK_CRLF st).
  assert (Hp : cstr (pBuf s0) = s ++ cstr AT_CMD_END_MARK_CRLF).
  { unfold s0, strcat_pBuf. cbn [pBuf]. rewrite Hs.
    assert (Htk : take (length s) (pBuf st) = s).
    { rewrite <- Hs. apply take_cstr. }
    rewrite store_at_room by lia. rewrite Htk.
    rewrite app_assoc.
    set (t := s ++ cstr AT_CMD_END_MARK_CRLF).
    assert (Ht : cstr t = t).
    { unfold t. rewrite <- Hs. apply cstr_app_cstr. }
    rewrite <- Ht at 1. rewrite cstr_app_NUL. exact Ht. }
  set (s1 := fm_emit (MdSend (cstr (pBuf s0))) (fm_debug (fm_debug s0))).
  pose proof (report_keeps (info_code SET_UART) (Wait_Recv resp (ex_rx ex))
                (fm_log (fm_debug s1))) as (R1 & _).
  assert (R3 : pbuf_cats_of
                 (snd (report (info_code SET_UART) (Wait_Recv resp (ex_rx ex))
                         (fm_log (fm_debug s1))))
               = pbuf_cats_of (fm_log (fm_debug s1))).
  { unfold report. destruct (_ || _); reflexivity. }
  destruct (report (info_code SET_UART) (Wait_Recv resp (ex_rx ex))
              (fm_log (fm_debug s1))) as [brk l].
  cbn [snd] in R1, R3. eexists. split; [reflexivity|].
  cbn [pBuf len fm_log]. rewrite R1, R3.
  destruct (fm_debug_keeps s1) as (A & B & C & _).
  rewrite A, B, C, fm_debug_cats. unfold s1.
  cbn [pBuf len fm_log fm_emit sends_of pbuf_cats_of].
  destruct (fm_debug_keeps (fm_debug s0)) as (A1 & B1 & C1 & _).
  destruct (fm_debug_keeps s0) as (A2 & B2 & C2 & _).
  rewrite A1, B1, C1, A2, B2, C2, !fm_debug_cats, Hp.
  destruct (strcat_pBuf_keeps AT_CMD_END_MARK_CRLF st) as (A3 & B3 & C3 & _).
  fold s0 in A3, B3, C3. rewrite A3, B3, C3.
  split; [reflexivity|]. split; [reflexivity|]. split; [reflexivity|].
  unfold s0, strcat_pBuf. cbn [fm_log]. rewrite pbuf_cats_of_cats, Hs.
  rewrite length_app. reflexivity.
Qed.

Lemma blocks_fit_tail c cmds ex exs :
  blocks_fit (c :: cmds) (ex :: exs) = true -> blocks_fit cmds exs = true.
Proof.
  cbn [blocks_fit]. destruct (ex_heap ex); [|discriminate].
  intros H. apply andb_true_iff in H. apply H.
Qed.

Lemma free_mode_typing s : forall exs st rest,
  forallb plain_key s = true -> len st + length s < SIZE ->
  exists st',
    free_mode_keys (s ++ rest) exs st = free_mode_keys rest exs st'
    /\ pBuf st' = store_at (len st) s (pBuf st)
    /\ len st' = len st + length s
    /\ sends_of (fm_log st') = sends_of (fm_log st)
    /\ pbuf_cats_of (fm_log st') = pbuf_cats_of (fm_log st).
Proof.
  induction s as [|c s IH]; intros exs st rest Hp Hl.
  - exists st. cbn [app store_at length]. rewrite Nat.add_0_r. repeat split.
  - cbn [forallb] in Hp. apply andb_true_iff in Hp. destruct Hp as [Hc Hp].
    unfold plain_key in Hc. apply andb_true_iff in Hc. destruct Hc as [Hc H3].
    apply andb_true_iff in Hc. destruct Hc as [H1 H2].
    apply negb_true_iff in H1, H2, H3.
    cbn [app free_mode_keys length] in *. rewrite H1, H2, H3.
    assert (Hn : (S (len st) <? SIZE) = true) by (apply Nat.ltb_lt; lia).
    rewrite Hn.
    destruct (IH exs {| pBuf := <[len st:=c]> (pBuf st); len := S (len st);
                        fm_log := ShEcho c :: PBufStore (len st) :: fm_log st |}
                rest Hp) as (st' & E & A & B & C & D).
    { cbn [len]. lia. }
    exists st'. split; [exact E|]. cbn [pBuf len fm_log] in *.
    split; [exact A|]. split; [lia|]. split; [exact C | exact D].
Qed.

Lemma free_mode_loop_five e1 e2 e3 e4 e5 exs st s1 s2 s3 s4 s5 :
  free_mode_cmd (info_code CMD_MODE) e1 st = Some s1 ->
  free_mode_cmd (info_code CMD_SURE) e2 s1 = Some s2 ->
  free_mode_cmd (info_code SET_ECHO) e3 s2 = Some s3 ->
  free_mode_cmd (info_code SET_UART) e4 s3 = Some s4 ->
  free_mode_cmd (info_code RESTART) e5 s4 = Some s5 ->
  free_mode_loop (info_code CMD_MODE) (info_code NO_CMD)
    (e1 :: e2 :: e3 :: e4 :: e5 :: exs) st
  = Some (s5, exs).
Proof.
  intros E1 E2 E3 E4 E5.
  change (match free_mode_cmd (info_code CMD_MODE) e1 st with
          | None => None
          | Some s =>
              match free_mode_cmd (info_code CMD_SURE) e2 s with
              | None => None
              | Some s =>
                  match free_mode_cmd (info_code SET_ECHO) e3 s with
                  | None => None
                  | Some s =>
                      match free_mode_cmd (info_code SET_UART) e4 s with
                      | None => None
                      | Some s =>
                          match free_mode_cmd (info_code RESTART) e5 s with
                          | None => None
                          | Some s => Some (s, exs)
                          end
                      end
                  end
              end
          end = Some (s5, exs)).
  rewrite E1, E2, E3, E4, E5. reflexivity.
Qed.

(** X28: what [Free_Mode] sends for a line.  After a line of fewer
    than 64 characters, none of them one of the three keys or NUL and
    with room for the end mark, the enter key makes the function send
    five strings to the module, whatever the module answers to each:
    the commands [CMD_MODE], [CMD_SURE] and [SET_ECHO] of the table,
    then the line that was typed, followed by the end mark, in the
    place of the [SET_UART] command, then [RESTART].  The mark is
    appended inside the buffer, and the index is back at 0. *)
Theorem Free_Mode_sends_line heap s exs :
  length heap = SIZE ->
  forallb plain_key s = true -> cstr s = s ->
  length s + length (cstr AT_CMD_END_MARK_CRLF) < SIZE ->
  blocks_fit free_mode_cmds exs = true ->
  match Free_Mode heap (s ++ [ENTER_CODE]) exs with
  | Some (fin, st) =>
      fin = false /\ len st = 0
      /\ sends_of (fm_log st)
         = [cmd_text (info_code CMD_MODE); cmd_text (info_code CMD_SURE);
            cmd_text (info_code SET_ECHO); s ++ cstr AT_CMD_END_MARK_CRLF;
            cmd_text (info_code RESTART)]
      /\ Forall (fun i => i < SIZE) (pbuf_cats_of (fm_log st))
  | None => False
  end.
Proof.
  intros Hh Hp Hs Hfit Hb. unfold Free_Mode.
  destruct (free_mode_typing s exs {| pBuf := heap; len := 0; fm_log := [] |}
              [ENTER_CODE] Hp) as (st' & E & A & B & C & D).
  { cbn [len]. lia. }
  cbn [pBuf len fm_log] in A, B, C, D. rewrite E.
  cbn [free_mode_keys]. rewrite Ascii.eqb_refl.
  set (s0 := fm_debug {| pBuf := <[len st':=NUL]> (pBuf st'); len := 0;
                         fm_log := PBufStore (len st') :: fm_log st' |}).
  assert (F0 : cstr (pBuf s0) = s /\ length (pBuf s0) = SIZE /\ len s0 = 0
               /\ sends_of (fm_log s0) = []
               /\ pbuf_cats_of (fm_log s0) = []).
  { unfold s0. destruct (fm_debug_keeps
      {| pBuf := <[len st':=NUL]> (pBuf st'); len := 0;
         fm_log := PBufStore (len st') :: fm_log st' |}) as (A0 & B0 & C0 & _).
    rewrite A0, B0, C0, fm_debug_cats. cbn [pBuf len fm_log sends_of pbuf_cats_of].
    rewrite A, B, C, D. cbn [sends_of pbuf_cats_of].
    rewrite length_insert, store_at_length.
    split; [|repeat split; exact Hh].
    rewrite cstr_insert_NUL by (rewrite store_at_length; lia).
    rewrite (store_at_take s 0 heap) by lia. rewrite take_0. exact Hs. }
  destruct F0 as (F1 & F2 & F3 & F4 & F5).
  change free_mode_cmds
    with [info_code CMD_MODE; info_code CMD_SURE; info_code SET_ECHO;
          info_code SET_UART; info_code RESTART] in Hb.
  destruct exs as [|e1 [|e2 [|e3 [|e4 [|e5 exs]]]]];
    try (cbn in Hb; repeat (destruct (ex_heap _); try discriminate Hb;
                            try (apply andb_true_iff in Hb;
                                 destruct Hb as [_ Hb]));
         discriminate Hb).
  pose proof (blocks_fit_tail _ _ _ _ Hb) as Hb2.
  pose proof (blocks_fit_tail _ _ _ _ Hb2) as Hb3.
  pose proof (blocks_fit_tail _ _ _ _ Hb3) as Hb4.
  pose proof (blocks_fit_tail _ _ _ _ Hb4) as Hb5.
  destruct (free_mode_cmd_sends (info_code CMD_MODE) e1 s0 _ _
              ltac:(vm_compute; lia) eq_refl Hb)
    as (s1 & E1 & S1 & P1 & L1 & C1).
  destruct (free_mode_cmd_sends (info_code CMD_SURE) e2 s1 _ _
              ltac:(vm_compute; lia) eq_refl Hb2)
    as (s2 & E2 & S2 & P2 & L2 & C2).
  destruct (free_mode_cmd_sends (info_code SET_ECHO) e3 s2 _ _
              ltac:(vm_compute; lia) eq_refl Hb3)
    as (s3 & E3 & S3 & P3 & L3 & C3).
  destruct (free_mode_cmd_line e4 s3 _ _ s Hb4) as (s4 & E4 & S4 & P4 & L4 & C4).
  { rewrite P3, P2, P1. exact F1. }
  { rewrite P3, P2, P1, F2. exact Hfit. }
  destruct (free_mode_cmd_sends (info_code RESTART) e5 s4 _ _
              ltac:(vm_compute; lia) eq_refl Hb5)
    as (s5 & E5 & S5 & P5 & L5 & C5).
  rewrite (free_mode_loop_five _ _ _ _ _ exs _ _ _ _ _ _ E1 E2 E3 E4 E5).
  split; [reflexivity|]. split; [congruence|]. split.
  - rewrite S5, S4, S3, S2, S1, F4. reflexivity.
  - rewrite C5, C4, C3, C2, C1, F5, app_nil_r.
    apply List.Forall_forall. intros i Hi. apply in_rev, in_seq in Hi.
    lia.
Qed.

Lemma config_mode_cmd_run c ex l cmds exs :
  info_code CMD_MODE <= c < info_code SIG_STREN ->
  blocks_fit (c :: cmds) (ex :: exs) = true ->
  exists l',
    config_mode_cmd c ex l
    = Some (negb (reply_ok c ex) || (c =? info_code RESTART), l')
    /\ sends_of l' = sends_of l ++ [cmd_text c].
Proof.
  intros Hc Hb.
  destruct (lookup_cmd_config c Hc) as (e & send & resp & He & Hs & Hr).
  destruct (blocks_fit_cons _ _ _ _ Hb e send He Hs) as ((heap & Hh & Hl) & _).
  pose proof (build_pStr_text heap AT_CMD_END_MARK_CRLF send c Hl) as Ht.
  unfold config_mode_cmd, reply_ok. rewrite He, Hs, Hh, Hr.
  destruct (build_pStr heap AT_CMD_END_MARK_CRLF send c) as [[size stores] block].
  cbn [snd] in Ht.
  set (l1 := if USING_DEBUG then ShPrint :: ShPrint :: l else l).
  set (l2 := if USING_DEBUG then ShPrint :: MdSend (cstr block) :: l1
             else MdSend (cstr block) :: l1).
  assert (H2 : sends_of l2 = sends_of l ++ [cmd_text c]).
  { unfold l2, l1. rewrite (cmd_text_send c e send He Hs), <- Ht.
    destruct USING_DEBUG; reflexivity. }
  pose proof (report_keeps c (Wait_Recv resp (ex_rx ex)) l2) as (R1 & _).
  exists (snd (report c (Wait_Recv resp (ex_rx ex)) l2)).
  split; [|rewrite R1; exact H2].
  unfold report. destruct (_ || _); reflexivity.
Qed.

Lemma config_mode_loop_run m : forall c n exs l,
  info_code CMD_MODE <= c -> c + m = info_code SIG_STREN -> 0 < m <= n ->
  blocks_fit (seq c m) exs = true ->
  exists st exs',
    config_mode_loop c n exs l = Some (st, exs')
    /\ at_mutex st = true
    /\ sends_of (cm_log st)
       = sends_of l
         ++ map cmd_text (take (S (successes (seq c m) exs)) (seq c m)).
Proof.
  induction m as [|m IH]; intros c n exs l Hc Hm Hn Hb; [lia|].
  destruct n as [|n]; [lia|].
  destruct exs as [|ex exs]; [discriminate Hb|].
  cbn [seq] in *. cbn [config_mode_loop successes].
  assert (Hr : info_code CMD_MODE <= c < info_code SIG_STREN).
  { change (info_code CMD_MODE) with 8 in *.
    change (info_code SIG_STREN) with 23 in *. lia. }
  assert (Hlt : (c <? info_code SIG_STREN) = true)
    by (apply Nat.ltb_lt, Hr).
  rewrite Hlt.
  destruct (config_mode_cmd_run c ex l _ _ Hr Hb) as (l' & E & Hsd).
  rewrite E.
  destruct (reply_ok c ex) eqn:Eo; cbn [negb orb].
  - destruct (c =? info_code RESTART) eqn:Er.
    + eexists. eexists. split; [reflexivity|]. split; [reflexivity|].
      cbn [cm_log]. rewrite Hsd. apply Nat.eqb_eq in Er.
      assert (m = 0).
      { change (info_code RESTART) with 22 in Er.
        change (info_code SIG_STREN) with 23 in Hm. lia. }
      subst m. reflexivity.
    + apply Nat.eqb_neq in Er.
      destruct (IH (S c) n exs l') as (st & exs' & E' & M & Hsd').
      * lia.
      * lia.
      * change (info_code RESTART) with 22 in Er.
        change (info_code SIG_STREN) with 23 in Hm. lia.
      * exact (blocks_fit_tail _ _ _ _ Hb).
      * eexists. eexists. split; [exact E'|]. split; [exact M|].
        rewrite Hsd', Hsd, <- app_assoc. reflexivity.
  - eexists. eexists. split; [reflexivity|]. split; [reflexivity|].
    cbn [cm_log]. rewrite Hsd. reflexivity.
Qed.

Lemma config_mode_keys_done keys : forall c exs st,
  at_mutex st = true ->
  exists fin, config_mode_keys c keys exs st = Some (fin, st).
Proof.
  induction keys as [|k keys IH]; intros c exs st Hm; cbn [config_mode_keys].
  - destruct (Ascii.eqb c ESC_CODE); eauto.
  - destruct (Ascii.eqb c ESC_CODE); [eauto|]. rewrite Hm. apply IH, Hm.
Qed.

(** X29: what [Config_Mode] sends.  The first character read, whatever
    it is, starts the sequence of the commands from [CMD_MODE] to
    [RESTART].  The commands are sent in this order up to and
    including the first one whose reply is not the one awaited, or
    all fifteen; then the mode is closed, and whatever is read
    afterwards nothing more is sent. *)
Theorem Config_Mode_sequence k keys exs :
  Ascii.eqb NUL ESC_CODE = false ->
  blocks_fit config_mode_cmds exs = true ->
  match Config_Mode (k :: keys) exs with
  | Some (fin, st) =>
      at_mutex st = true
      /\ sends_of (cm_log st)
         = map cmd_text
             (take (S (successes config_mode_cmds exs)) config_mode_cmds)
  | None => False
  end.
Proof.
  intros Hesc Hb. unfold Config_Mode. cbn [config_mode_keys].
  rewrite Hesc. cbn [at_mutex cm_log].
  change config_mode_cmds with (seq (info_code CMD_MODE) 15) in *.
  destruct (config_mode_loop_run 15 (info_code CMD_MODE) (info_code NO_CMD)
              exs [] ltac:(lia) eq_refl ltac:(vm_compute; lia) Hb)
    as (st & exs' & E & M & Hsd).
  rewrite E.
  destruct (config_mode_keys_done keys k exs' st M) as (fin & ->).
  split; [exact M | exact Hsd].
Qed.

End ModesRuns.

(** * The properties at concrete inputs *)

(** C4, counterexample: a lifecycle in which the device stays silent
    and the caller's wait expires ends without a post, so the signal
    is not posted exactly once in every lifecycle. *)
Lemma completion_not_exactly_once :
  ~ (forall o r now passes,
       posts (snd (wait_resp (port := spec_port) o r now passes)) = S (posts o)).
Proof.
  intros H.
  specialize (H (at_obj_init [] 16) default_resp 0%Z [idle_poll]).
  vm_compute in H. discriminate H.
Qed.

Lemma resp_success_before_error_witness :
  let o' := resp_recv_process (port := spec_port) armed_obj 10 (lit "K") in
  ret o' = AT_RET_OK /\ resp o' = None /\ posts o' = S (posts armed_obj).
Proof.
  apply (resp_success_before_error (port := spec_port) armed_obj default_resp
           10%Z (lit "K")).
  - reflexivity.
  - simpl. lia.
  - simpl. lia.
  - reflexivity.
  - reflexivity.
Defined.

(** C3, counterexample: the result of a call that could not get the
    send lock is the result of a call whose response timed out. *)
Lemma at_do_cmd_busy_is_timeout :
  option_map fst (at_do_cmd (port := spec_port) (at_obj_init [] 32) None
                    (lit "AT") busy_env) = Some AT_RET_TIMEOUT
  /\ option_map fst (at_do_cmd (port := spec_port) (at_obj_init [] 32) None
                       (lit "AT") silent_env) = Some AT_RET_TIMEOUT.
Proof. split; reflexivity. Qed.

Lemma at_do_cmd_lock_failure_witness :
  at_do_cmd (port := spec_port) (at_obj_init [] 32) None (lit "AT") busy_env
  = Some (AT_RET_TIMEOUT, at_obj_init [] 32).
Proof.
  apply (at_do_cmd_lock_failure (port := spec_port) (at_obj_init [] 32) None
           (lit "AT") busy_env silent_env).
  reflexivity.
Defined.

Lemma find_urc_item_two_bytes_witness :
  find_urc_item (at_obj_init [creg_item] 32) [LF; NUL] 1 = None
  /\ urc_two_bytes
       (urc_recv_process (port := spec_port) (at_obj_init [creg_item] 32) 0
          creg_stream).
Proof.
  destruct (find_urc_item_two_bytes (port := spec_port)
              (at_obj_init [creg_item] 32) [LF; NUL] 1 0%Z creg_stream
              ltac:(lia)) as [H1 H2].
  split; [exact H1|]. apply H2.
  split; [left; reflexivity | constructor].
Defined.

(** C10, counterexample: with a maximum count of 0 the tokenizer still
    returns 1, which does not lie between 1 and the maximum count. *)
Lemma at_split_respond_lines_count_zero :
  ~ (forall buf ln count sep,
       let n := fst (fst (at_split_respond_lines (Some buf) (Some ln) count sep)) in
       (1 <= n <= count)%Z).
Proof.
  intros H. specialize (H (lit "a,b") [7; 7] 0%Z ","%char).
  vm_compute in H. destruct H as [_ H]. apply H. reflexivity.
Qed.

Lemma at_split_respond_lines_fields_witness :
  (1 <= 2 < 2 ^ 31)%Z
  /\ fst (fst (at_split_respond_lines (Some (lit "a;b,c,d")) (Some [7; 7]) 2
                 ";"%char)) = 2%Z.
Proof.
  split; [lia|].
  pose proof (at_split_respond_lines_fields (Some (lit "a;b,c,d"))
                (Some [7; 7]) 2 ";"%char ","%char) as [_ H].
  destruct (H ltac:(lia)) as [-> _]. reflexivity.
Defined.

Lemma creg_dispatched_once_witness :
  let o' := urc_recv_process (port := spec_port) (at_obj_init [creg_item] 32)
              0 creg_stream in
  urc_cnt o' = 0 /\ urc_item o' = None
  /\ urc_calls o' = [(creg_item, creg_stream, 10)].
Proof.
  assert (H : forall e, In e [creg_item] ->
                e = creg_item \/ strstr creg_stream (prefix e) = false)
    by (intros e [<-|[]]; left; reflexivity).
  pose proof (creg_dispatched_once (port := spec_port) creg_item
                (at_obj_init [creg_item] 32) 0%Z eq_refl eq_refl eq_refl
                (or_introl eq_refl) H ltac:(simpl; lia) eq_refl eq_refl) as W.
  vm_compute in W. vm_compute. exact W.
Defined.

Lemma urc_store_beyond_capacity_witness :
  let o' := urc_recv_process (port := spec_port) (at_obj_init [] 8) 0
              (lit "aaaaaaa" ++ [NUL]) in
  urc_bufsize o' = 8 /\ In 8 (stores URC_BUF o').
Proof.
  apply (urc_store_beyond_capacity (port := spec_port) 8 0%Z). lia.
Defined.

(** The +CREG line as the log shows it: the colon is an end mark of
    the port of the spec, so a NUL is put behind it in cell 6; the CR
    is not, and the handler is called on the LF. *)
Example creg_trace :
  trace (urc_recv_process (port := spec_port) (at_obj_init [creg_item] 16) 0
           creg_stream)
  = [EvStore URC_BUF 0; EvStore URC_BUF 1; EvStore URC_BUF 2;
     EvStore URC_BUF 3; EvStore URC_BUF 4; EvStore URC_BUF 5;
     EvStore URC_BUF 6; EvStore URC_BUF 6; EvStore URC_BUF 7;
     EvStore URC_BUF 8; EvStore URC_BUF 9; EvStore URC_BUF 10; EvDebug;
     EvUrc creg_item creg_stream 10].
Proof. reflexivity. Qed.

(** With the port of the spec a line feed does the same, and eight
    colons are counted in a buffer of four bytes. *)
Example urc_store_beyond_capacity_LF :
  stores URC_BUF
    (urc_recv_process (port := spec_port) (at_obj_init [] 8) 0
       (lit "abcdefg" ++ [LF]))
  = [8; 7; 6; 5; 4; 3; 2; 1; 0].
Proof. reflexivity. Qed.

Example urc_cnt_unchecked_colons :
  urc_cnt (urc_recv_process (port := spec_port) (at_obj_init [] 4) 0
             (lit "::::::::")) = 8.
Proof. reflexivity. Qed.

(** A command sent with a null spec succeeds on the reply "OK", with
    one post of the completion signal, and times out on silence, with
    none; both locks of the calls are bounded by 5000 ms. *)
Example at_do_cmd_null_spec_ok :
  match at_do_cmd (port := spec_port) (at_obj_init [] 32) None (lit "AT")
          ok_env with
  | Some (res, o') =>
      res = AT_RET_OK /\ posts o' = 1
      /\ In (EvTake send_lock 5000) (log o')
      /\ In (EvTake completed 5000) (log o')
      /\ take 4 (rcv_buf o') = [CR; LF] ++ lit "OK"
  | None => False
  end.
Proof. vm_compute. intuition. Qed.

Example at_do_cmd_null_spec_silent :
  match at_do_cmd (port := spec_port) (at_obj_init [] 32) None (lit "AT")
          silent_env with
  | Some (res, o') => res = AT_RET_TIMEOUT /\ posts o' = 0 /\ resp o' = None
  | None => False
  end.
Proof. vm_compute. intuition. Qed.

(** The separator argument of the tokenizer is not looked at. *)
Example at_split_respond_lines_semicolon :
  at_split_respond_lines (Some (lit "a;b,c")) (Some [7; 7; 7]) 3 ";"%char
  = (2%Z, Some (lit "a;b" ++ [NUL] ++ lit "c"), Some [0; 4; 7]).
Proof. reflexivity. Qed.

Lemma at_do_cmd_null_spec_witness :
  option_map fst
    (at_do_cmd (port := spec_port) (at_obj_init [] 32) None (lit "AT") ok_env)
  = Some AT_RET_OK.
Proof.
  destruct (at_do_cmd_null_spec (port := spec_port) (at_obj_init [] 32)
              (lit "AT") ok_env ok_reply []) as (_ & H & _).
  apply H; try reflexivity.
  - simpl. lia.
  - intros tc Hin. simpl in Hin.
    repeat (destruct Hin as [<-|Hin]; [reflexivity|]). destruct Hin.
Defined.

(** * The further properties at concrete inputs *)

Lemma urc_match_sticky_witness :
  let o' := urc_recv_char (port := spec_port) 0 creg_matched LF in
  urc_item o' = None /\ urc_cnt o' = 0
  /\ urc_calls o' = [(creg_item, creg_stream, 10)].
Proof.
  destruct (urc_match_sticky (port := spec_port) 0%Z creg_matched LF creg_item
              eq_refl) as [(H & _)|[(H1 & H2 & _)|(H1 & H2 & _)]].
  - vm_compute in H. discriminate H.
  - split; [exact H1|]. split; [exact H2|]. reflexivity.
  - split; [exact H1|]. split; [exact H2|]. reflexivity.
Defined.

Lemma urc_plain_stream_in_bounds_witness :
  let o' := urc_recv_process (port := spec_port) (at_obj_init [] 8) 0
              (lit "abcdefghijkl") in
  urc_cnt o' < 8 /\ urc_calls o' = []
  /\ exists new, stores URC_BUF o' = new ++ []
       /\ Forall (fun i => i < 8) new.
Proof.
  apply (urc_plain_stream_in_bounds (port := spec_port) (at_obj_init [] 8) 0%Z
           (lit "abcdefghijkl")).
  - simpl. lia.
  - repeat constructor.
Defined.

Lemma urc_timeout_drops_line_witness :
  let o' := urc_recv_process (port := spec_port) creg_begun 5000 [LF] in
  urc_cnt o' = 0 /\ urc_item o' = None /\ urc_calls o' = [].
Proof.
  apply (urc_timeout_drops_line (port := spec_port) creg_begun 5000%Z LF).
  - vm_compute. lia.
  - reflexivity.
  - reflexivity.
  - reflexivity.
Defined.

Lemma urc_unrecognized_line_witness :
  let o' := urc_recv_process (port := spec_port) (at_obj_init [creg_item] 32)
              0 (lit "RING" ++ [LF]) in
  urc_cnt o' = 0 /\ urc_item o' = None /\ urc_calls o' = [].
Proof.
  apply (urc_unrecognized_line (port := spec_port)
           (at_obj_init [creg_item] 32) 0%Z (lit "RING") LF).
  - reflexivity.
  - reflexivity.
  - intros e [<-|[]]. reflexivity.
  - repeat constructor.
  - reflexivity.
  - reflexivity.
  - simpl. lia.
Defined.

Lemma urc_handler_text_witness :
  urc_calls (urc_recv_char (port := spec_port) 0 creg_matched LF)
  = [(creg_item, creg_stream, 10)].
Proof.
  assert (Hh : urc_holds creg_matched creg_line) by (split; reflexivity).
  assert (Hi : forall it, urc_item creg_matched = Some it ->
                 In it (utc_tbl creg_matched)
                 /\ strstr creg_line (prefix it) = true).
  { intros it H. vm_compute in H. injection H as <-.
    split; [left; reflexivity | reflexivity]. }
  destruct (urc_handler_text (port := spec_port) 0%Z creg_matched LF creg_line
              Hh ltac:(vm_compute; lia) Hi) as [[H|(it & H & _)] _].
  - vm_compute in H. discriminate H.
  - reflexivity.
Defined.

Lemma resp_outcome_witness :
  let o' := resp_recv_process (port := spec_port) armed_obj 10 (lit "R") in
  ret o' = AT_RET_ERROR /\ resp o' = None /\ posts o' = S (posts armed_obj).
Proof.
  exact (resp_outcome (port := spec_port) armed_obj default_resp 10%Z (lit "R")
           eq_refl ltac:(simpl; lia) ltac:(simpl; lia)).
Defined.

Lemma resp_poll_without_data_witness :
  let o' := resp_recv_process (port := spec_port) armed_obj 6000 [] in
  rcv_buf o' = rcv_buf armed_obj /\ rcv_cnt o' = 7
  /\ ret o' = AT_RET_TIMEOUT /\ resp o' = None /\ posts o' = 1.
Proof.
  exact (resp_poll_without_data (port := spec_port) armed_obj default_resp
           6000%Z eq_refl).
Defined.

Lemma resp_chunk_in_bounds_witness :
  let o' := resp_recv_process (port := spec_port) armed_obj 10 (lit "K") in
  rcv_cnt o' < 64
  /\ exists new, stores RECV_BUF o' = new ++ stores RECV_BUF armed_obj
       /\ Forall (fun i => i < 64) new.
Proof.
  destruct (resp_chunk_in_bounds (port := spec_port) armed_obj default_resp
              10%Z (lit "K") eq_refl ltac:(simpl; lia)) as (H1 & H2).
  split; [apply H1; simpl; lia | exact H2].
Defined.


Lemma at_do_cmd_sends_line_witness :
  match at_do_cmd (port := spec_port) (at_obj_init [] 32) None
          (lit "AT+CSQ") ok_env with
  | Some (res, o') => written o' = lit "AT+CSQ" ++ [CR; LF]
  | None => False
  end.
Proof.
  destruct (at_do_cmd (port := spec_port) (at_obj_init [] 32) None
              (lit "AT+CSQ") ok_env) as [[res o']|] eqn:E.
  - exact (at_do_cmd_sends_line (port := spec_port) _ _ _ _ _ _ E).
  - vm_compute in E. discriminate E.
Defined.

Lemma at_do_cmd_error_reply_witness :
  match at_do_cmd (port := spec_port) (at_obj_init [] 32) (Some default_resp)
          (lit "AT+CPIN?") error_env with
  | Some (res, o') =>
      res = AT_RET_ERROR /\ posts o' = 1 /\ takes completed o' = 1
  | None => False
  end.
Proof.
  apply (at_do_cmd_error_reply (port := spec_port) (at_obj_init [] 32)
           default_resp (lit "AT+CPIN?") error_env error_reply []);
    try reflexivity.
  - simpl. lia.
  - intros tc Hin. simpl in Hin.
    repeat (destruct Hin as [<-|Hin]; [reflexivity|]). destruct Hin.
Defined.

Lemma at_suspend_aborts_witness :
  option_map fst
    (at_do_cmd (port := spec_port) (at_suspend (at_obj_init [] 32))
       (Some default_resp) (lit "AT") silent_env) = Some AT_RET_ABORT
  /\ option_map fst
       (at_do_cmd (port := spec_port)
          (at_resume (at_suspend (at_suspend (at_obj_init [] 32))))
          (Some default_resp) (lit "AT") silent_env) = Some AT_RET_TIMEOUT.
Proof.
  destruct (at_suspend_aborts (port := spec_port) (at_obj_init [] 32)
              default_resp (lit "AT") silent_env idle_poll
              eq_refl eq_refl eq_refl eq_refl eq_refl eq_refl) as (H1 & H2).
  set (c1 := at_do_cmd (port := spec_port) (at_suspend (at_obj_init [] 32))
               (Some default_resp) (lit "AT") silent_env) in *.
  set (c2 := at_do_cmd (port := spec_port)
               (at_resume (at_suspend (at_suspend (at_obj_init [] 32))))
               (Some default_resp) (lit "AT") silent_env) in *.
  clearbody c1 c2.
  destruct c1 as [[res1 o1]|]; [|destruct H1].
  destruct c2 as [[res2 o2]|]; [|destruct H2].
  destruct H1 as (-> & _), H2 as (-> & _). split; reflexivity.
Defined.

Lemma wait_recv_frame_witness :
  match wait_recv (port := spec_port) (at_obj_init [creg_item] 32) (lit ">")
          1000 (repeat NUL 64) 0 [echo_turn; prompt_turn] with
  | Some (res, lc, o') =>
      written o' = [] /\ posts o' = 0 /\ resp o' = None /\ busy o' = false
  | None => False
  end.
Proof.
  destruct (wait_recv (port := spec_port) (at_obj_init [creg_item] 32)
              (lit ">") 1000 (repeat NUL 64) 0 [echo_turn; prompt_turn])
    as [[[res lc] o']|] eqn:E.
  - destruct (wait_recv_frame (port := spec_port) _ _ _ _ _ _ _ _ _ E)
      as (F & W & S & _).
    split; [exact W|]. split; [apply (S completed)|].
    split; [apply (uf_resp _ _ F) | apply (uf_busy _ _ F)].
  - vm_compute in E. discriminate E.
Defined.

Lemma wait_recv_bounds_witness :
  match wait_recv (port := spec_port) (at_obj_init [] 32) (lit ">")
          1000 (repeat NUL 64) 0 [flood_turn; late_turn] with
  | Some (res, lc, o') =>
      lb_cnt lc <= 64 /\ (lb_over lc = true <-> lb_cnt lc = 64)
  | None => False
  end.
Proof.
  destruct (wait_recv (port := spec_port) (at_obj_init [] 32) (lit ">")
              1000 (repeat NUL 64) 0 [flood_turn; late_turn])
    as [[[res lc] o']|] eqn:E.
  - destruct (wait_recv_bounds (port := spec_port) _ _ _ _ _ _ _ _ _ E
                (repeat_length NUL 64)) as (_ & H1 & _ & H2).
    split; assumption.
  - vm_compute in E. discriminate E.
Defined.

(** The 70 bytes offered in one turn are cut to the 64 of the buffer,
    and the terminator is stored behind it. *)
Example wait_recv_flood :
  match wait_recv (port := spec_port) (at_obj_init [] 32) (lit ">")
          1000 (repeat NUL 64) 0 [flood_turn; late_turn] with
  | Some (res, lc, o') =>
      res = AT_RET_TIMEOUT /\ lb_cnt lc = 64 /\ lb_over lc = true
      /\ lb_buf lc = repeat "a"%char 64
  | None => False
  end.
Proof. vm_compute. intuition. Qed.

Lemma wait_recv_reply_witness :
  match wait_recv (port := spec_port) (at_obj_init [] 32) (lit ">")
          1000 (repeat NUL 64) 0 [echo_turn; prompt_turn] with
  | Some (res, lc, _) =>
      res = AT_RET_OK /\ cstr (lb_buf lc) = [CR; LF] ++ lit "> "
      /\ lb_cnt lc = 4 /\ lb_over lc = false
  | None => False
  end.
Proof.
  apply (wait_recv_reply (port := spec_port) (at_obj_init [] 32) (lit ">")
           1000%Z (repeat NUL 64) 0%Z [echo_turn] prompt_turn []);
    try reflexivity.
  - simpl. lia.
  - discriminate.
Defined.

Lemma wait_recv_times_out_witness :
  match wait_recv (port := spec_port) (at_obj_init [] 32) (lit ">")
          1000 (repeat NUL 64) 0 [echo_turn; late_turn; prompt_turn] with
  | Some (res, lc, o') => res = AT_RET_TIMEOUT /\ lb_cnt lc = 2
  | None => False
  end.
Proof.
  destruct (wait_recv_times_out (port := spec_port) (at_obj_init [] 32)
              (lit ">") 1000%Z (repeat NUL 64) 0%Z [echo_turn] late_turn
              [prompt_turn] eq_refl eq_refl eq_refl ltac:(simpl; lia)
              eq_refl eq_refl) as (H & _).
  cbn [app] in H.
  destruct (wait_recv _ _ _ _ _ _) as [[[res lc] o']|]; [|destruct H].
  destruct H as (H1 & H2 & _). split; assumption.
Defined.

Lemma at_do_work_session_witness :
  let r := at_do_work (port := spec_port) (at_obj_init [] 32) hello_work
             true true in
  fst r = 7%Z /\ busy (snd r) = false
  /\ takes send_lock (snd r) = 1 /\ gives send_lock (snd r) = 1
  /\ takes recv_lock (snd r) = 1 /\ gives recv_lock (snd r) = 1.
Proof.
  assert (Hw : forall a s,
             takes s (snd (hello_work a)) = takes s a
             /\ gives s (snd (hello_work a)) = gives s a).
  { intros a s. unfold hello_work, at_work_write, at_work_print. cbn [snd].
    destruct (put_line_run (lit "AT+CMGS=5") a) as (_ & T & G & _).
    split; [rewrite <- (T s) | rewrite <- (G s)]; reflexivity. }
  destruct (at_do_work_session (port := spec_port) (at_obj_init [] 32)
              hello_work Hw) as (H1 & _ & _ & H4 & H5 & _).
  destruct (H5 send_lock ltac:(discriminate)) as (A & B).
  destruct (H5 recv_lock ltac:(discriminate)) as (C & D).
  split; [rewrite H1; reflexivity|]. split; [exact H4|].
  repeat split; assumption.
Defined.

Lemma at_split_respond_lines_round_trip_witness :
  match at_split_respond_lines (Some (lit "+CSQ: 24,99,7")) (Some [9; 9; 9])
          2 ","%char with
  | (n, Some buf', Some ln') =>
      map (fun off => cstr (drop off buf')) (take (Z.to_nat n) ln')
      = [lit "+CSQ: 24"; lit "99,7"]
  | _ => False
  end.
Proof.
  pose proof (at_split_respond_lines_round_trip (lit "+CSQ: 24,99,7")
                [9; 9; 9] 2 ","%char ltac:(lia) ltac:(simpl; lia)) as H.
  destruct (at_split_respond_lines _ _ _ _) as [[n [buf'|]] [ln'|]];
    [|destruct H|destruct H|destruct H].
  destruct H as (H & _). exact H.
Defined.

(** The fields of a line that has fewer of them than the array has
    room for, with the buffer and the array afterwards. *)
Example at_split_respond_lines_csq :
  at_split_respond_lines (Some (lit "+CSQ: 24,99")) (Some [9; 9; 9]) 3
    ","%char
  = (2%Z, Some (lit "+CSQ: 24" ++ [NUL] ++ lit "99"), Some [0; 9; 9]).
Proof. reflexivity. Qed.

Lemma build_pStr_overrun_witness :
  match build_pStr (repeat "x"%char 10) [CR; LF] (lit "AT+E=OFF")
          (info_code SET_ECHO) with
  | (size, stores, block) =>
      size = 10 /\ In 10 stores /\ block = lit "AT+E=OFF" ++ [CR; LF]
  end.
Proof.
  pose proof (build_pStr_overrun (repeat "x"%char 10) [CR; LF]
                (lit "AT+E=OFF") (info_code SET_ECHO) eq_refl) as H.
  destruct (build_pStr _ _ _ _) as [[size stores] block].
  destruct H as (H1 & _ & H3 & _).
  destruct (H3 ltac:(simpl; lia)) as (A & _ & C).
  split; [exact H1|]. split; [rewrite <- H1 at 1; exact A | exact C].
Defined.

Lemma Free_Mode_index_witness :
  match Free_Mode (lp := l101_keys) (repeat NUL 64) (repeat "a"%char 70) []
  with
  | Some (fin, st) =>
      len st = 6 /\ length (pBuf st) = 64
      /\ Forall (fun i => i < 64) (pbuf_stores_of (fm_log st))
  | None => False
  end.
Proof.
  destruct (Free_Mode (lp := l101_keys) (repeat NUL 64) (repeat "a"%char 70)
              []) as [[fin st]|] eqn:E.
  - destruct (Free_Mode_index (lp := l101_keys) _ _ _ _ _
                (repeat_length NUL 64) E) as (_ & H2 & H3).
    split; [|split; [exact H2 | exact H3]].
    vm_compute in E. injection E as _ <-. reflexivity.
  - vm_compute in E. discriminate E.
Defined.

Lemma Free_Mode_sends_line_witness :
  match Free_Mode (lp := l101_keys) (repeat NUL 64)
          (lit "AT+VER" ++ ["013"%char])
          (error_exchanges free_mode_cmds) with
  | Some (fin, st) =>
      sends_of (fm_log st)
      = [lit "+++"; lit "a"; lit "AT+E=OFF" ++ [CR; LF];
         lit "AT+VER" ++ [CR; LF]; lit "AT+Z" ++ [CR; LF]]
  | None => False
  end.
Proof.
  pose proof (Free_Mode_sends_line (lp := l101_keys) (repeat NUL 64)
                (lit "AT+VER") (error_exchanges free_mode_cmds)
                (repeat_length NUL 64) eq_refl eq_refl
                ltac:(vm_compute; lia) eq_refl) as H.
  change (@ENTER_CODE l101_keys) with "013"%char in H.
  destruct (Free_Mode _ _ _) as [[fin st]|]; [|destruct H].
  destruct H as (_ & _ & H & _). exact H.
Defined.

Lemma Config_Mode_sequence_witness :
  match Config_Mode (lp := l101_keys) ["027"%char] echo_fails with
  | Some (fin, st) =>
      at_mutex st = true
      /\ sends_of (cm_log st)
         = [lit "+++"; lit "a"; lit "AT+E=OFF" ++ [CR; LF]]
  | None => False
  end.
Proof.
  pose proof (Config_Mode_sequence (lp := l101_keys) "027"%char [] echo_fails
                eq_refl eq_refl) as H.
  destruct (Config_Mode _ _) as [[fin st]|]; [|destruct H].
  destruct H as (H1 & H2). split; [exact H1 | exact H2].
Defined.
